(** * Bright Ants backend: a shallow embedding of the route handlers

    The development follows the layout of the repository:
    - [JS], [Path]: the JavaScript and Node primitives the handlers call
      (string search, [Number] coercion, [path.join], [path.extname]);
    - [Zod]: the fragment of the validation library used by [src/types.ts];
    - the world the handlers act on: blob directory, tables, mail transport,
      together with a trace of the effects performed;
    - the handlers of [src/routes/*.ts], one definition per route;
    - the properties of the handlers.

    A text is kept as the bytes of its UTF-8 encoding. The searches the
    handlers perform are for ASCII text, which is found in the bytes
    exactly where it is found in the UTF-16 code units; where characters
    count (white space, the length of a column) the bytes are read as the
    characters they encode. *)

From stdpp Require Import gmap strings list sorting pretty.
From Stdlib Require Import Ascii QArith Qabs Qround Qpower Lqa.

Set Warnings "-register-all".

Local Open Scope string_scope.
Local Open Scope Z_scope.

(** ** JavaScript primitives *)

Module JS.

(** [s.startsWith(p)] *)
Definition startsWith (s p : string) : bool := String.prefix p s.

(** [s.includes(sub)] *)
Fixpoint includes (s sub : string) : bool :=
  String.prefix sub s ||
  match s with
  | EmptyString => false
  | String _ s' => includes s' sub
  end.

Definition lower (c : ascii) : ascii :=
  let n := nat_of_ascii c in
  if ((65 <=? n)%nat && (n <=? 90)%nat)%bool then ascii_of_nat (n + 32) else c.

Fixpoint lower_ascii (s : string) : string :=
  match s with
  | EmptyString => EmptyString
  | String c s' => String (lower c) (lower_ascii s')
  end.

(** A byte below 128 is an ASCII character; the others are parts of the
    characters beyond ASCII. *)
Definition is_ascii (c : ascii) : bool := (nat_of_ascii c <? 128)%nat.

(** [s.toLowerCase()]. In an ASCII text the letters A to Z are the ones
    with a lower case. A text with other characters is mapped by the case
    table of Unicode, [unicode_lower], which is taken as given. *)
Definition toLowerCase (unicode_lower : string -> string) (s : string) : string :=
  if forallb is_ascii (String.list_ascii_of_string s) then lower_ascii s
  else unicode_lower s.

(** A JavaScript number: a binary64 value, kept as the rational it
    denotes (signed zeros are identified). *)
Inductive number :=
| NaN
| Inf (negative : bool)
| Fin (q : Q).

(** Powers with integer exponents, as rationals. *)
Definition pow (b : Z) (e : Z) : Q := (inject_Z b ^ e)%Q.

(** Search downwards from [t] for the first exponent whose power of [b] is
    at most [x]. *)
Fixpoint search_exponent (b : Z) (fuel : nat) (x : Q) (t : Z) : Z :=
  match fuel with
  | O => t
  | S fuel' => if Qle_bool (pow b t) x then t else search_exponent b fuel' x (t - 1)
  end.

(** For [x > 0] and a base [b] of at least 2, the exponent [t] with
    [b^t <= x < b^(t+1)]. The search starts above the binary logarithm of
    [x] and has fuel to go below [1 / denominator]. *)
Definition floor_log (b : Z) (x : Q) : Z :=
  let hi := Z.max 0 (Z.log2 (Qnum x) - Z.log2 (Zpos (Qden x)) + 1) in
  search_exponent b (Z.to_nat (hi + Z.log2 (Zpos (Qden x)) + 2)) x hi.

(** The nearest integer, ties to the even one. *)
Definition round_half_even (q : Q) : Z :=
  let k := Qfloor q in
  match (q - inject_Z k ?= 1 # 2)%Q with
  | Lt => k
  | Gt => k + 1
  | Eq => if Z.even k then k else k + 1
  end.

(** Round a positive rational to the nearest binary64 value, ties to even:
    the significand has 53 bits, the least exponent of a unit in the last
    place is -1074, and a result of 2^1024 is an overflow. *)
Definition round_pos (q : Q) : number :=
  let e := floor_log 2 q in
  let ulp := pow 2 (Z.max e (-1022) - 52) in
  let y := (inject_Z (round_half_even (q / ulp)) * ulp)%Q in
  if Qle_bool (pow 2 1024) y then Inf false else Fin (Qred y).

Definition negate (x : number) : number :=
  match x with
  | NaN => NaN
  | Inf b => Inf (negb b)
  | Fin q => Fin (Qred (- q))
  end.

(** The binary64 value of a rational; the result depends on the value of
    the fraction only. *)
Definition round (q : Q) : number :=
  let q := Qred q in
  match Qnum q with
  | Z0 => Fin 0
  | Zpos _ => round_pos q
  | Zneg _ => negate (round_pos (- q))
  end.

(** Comparisons; any comparison with [NaN] is false. *)
Definition geq (x : number) (bound : Q) : bool :=
  match x with
  | NaN => false
  | Inf negative => negb negative
  | Fin q => Qle_bool bound q
  end.

Definition gt (x : number) (bound : Q) : bool :=
  match x with
  | NaN => false
  | Inf negative => negb negative
  | Fin q => negb (Qle_bool q bound)
  end.

(** [Number.isFinite] *)
Definition isFinite (x : number) : bool :=
  match x with Fin _ => true | _ => false end.

(** The integer an integral finite number denotes. *)
Definition to_integer (x : number) : option Z :=
  match x with
  | Fin q => if (Zpos (Qden (Qred q)) =? 1) then Some (Qnum (Qred q)) else None
  | _ => None
  end.

(** *** [Number(string)]: the StringNumericLiteral grammar *)

(** The characters skipped around a numeral (StrWhiteSpaceChar: white
    space and line terminators), each by the bytes of its encoding: TAB,
    LF, VT, FF, CR, SP, U+00A0, U+1680, U+2000 to U+200A, U+2028, U+2029,
    U+202F, U+205F, U+3000 and U+FEFF. *)
Definition white_space : list (list ascii) :=
  map (map ascii_of_nat)
    [ [9]; [10]; [11]; [12]; [13]; [32];
      [194; 160];
      [225; 154; 128];
      [226; 128; 128]; [226; 128; 129]; [226; 128; 130]; [226; 128; 131];
      [226; 128; 132]; [226; 128; 133]; [226; 128; 134]; [226; 128; 135];
      [226; 128; 136]; [226; 128; 137]; [226; 128; 138];
      [226; 128; 168]; [226; 128; 169];
      [226; 128; 175];
      [226; 129; 159];
      [227; 128; 128];
      [239; 187; 191] ]%nat.

(** The rest of [l] after [p], when [l] starts with [p]. *)
Fixpoint strip_prefix (p l : list ascii) : option (list ascii) :=
  match p, l with
  | [], _ => Some l
  | a :: p', b :: l' => if Ascii.eqb a b then strip_prefix p' l' else None
  | _ :: _, [] => None
  end.

(** The rest of [l] after the one of [patterns] it starts with. *)
Definition skip_one (patterns : list (list ascii)) (l : list ascii)
  : option (list ascii) :=
  head (omap (fun p => strip_prefix p l) patterns).

(** Skip as long as a pattern is found. Every pattern has a byte at
    least, so that the length of the text is fuel enough. *)
Fixpoint skip_all (patterns : list (list ascii)) (fuel : nat) (l : list ascii)
  : list ascii :=
  match fuel with
  | O => l
  | S fuel' =>
      match skip_one patterns l with
      | Some l' => skip_all patterns fuel' l'
      | None => l
      end
  end.

(** The text without its leading white space. *)
Definition trim_start (l : list ascii) : list ascii :=
  skip_all white_space (length l) l.

(** The text without its trailing white space: the bytes are read from
    the end, and so are the encodings. *)
Definition trim_end (l : list ascii) : list ascii :=
  rev (skip_all (map (@rev ascii) white_space) (length l) (rev l)).

Definition trim (l : list ascii) : list ascii :=
  trim_end (trim_start l).

Definition digit_value (c : ascii) : option Z :=
  let n := nat_of_ascii c in
  if ((48 <=? n)%nat && (n <=? 57)%nat)%bool then Some (Z.of_nat n - 48)
  else if ((97 <=? n)%nat && (n <=? 102)%nat)%bool then Some (Z.of_nat n - 87)
  else if ((65 <=? n)%nat && (n <=? 70)%nat)%bool then Some (Z.of_nat n - 55)
  else None.

(** The value of a digit string in the given radix; [None] when a
    character is not a digit of the radix. The empty string has value 0. *)
Fixpoint digits (radix acc : Z) (l : list ascii) : option Z :=
  match l with
  | [] => Some acc
  | c :: l' =>
      match digit_value c with
      | Some v => if v <? radix then digits radix (radix * acc + v) l' else None
      | None => None
      end
  end.

Fixpoint split_at (p : ascii -> bool) (l : list ascii)
  : list ascii * option (list ascii) :=
  match l with
  | [] => ([], None)
  | c :: l' =>
      if p c then ([], Some l')
      else let '(a, b) := split_at p l' in (c :: a, b)
  end.

Definition strip_sign (l : list ascii) : bool * list ascii :=
  match l with
  | "-"%char :: l' => (true, l')
  | "+"%char :: l' => (false, l')
  | _ => (false, l)
  end.

(** StrUnsignedDecimalLiteral without [Infinity]: digits with an optional
    fraction and an optional exponent. *)
Definition unsigned_decimal (l : list ascii) : option Q :=
  let '(mant, expo) := split_at (fun c => Ascii.eqb c "e" || Ascii.eqb c "E")%bool l in
  let '(int, frac) := split_at (fun c => Ascii.eqb c ".") mant in
  let frac := default [] frac in
  if ((length int + length frac)%nat =? 0)%nat then None else
  match digits 10 0 int, digits 10 0 frac with
  | Some i, Some f =>
      let m := i * 10 ^ Z.of_nat (length frac) + f in
      let e :=
        match expo with
        | None => Some 0
        | Some x =>
            let '(neg, ds) := strip_sign x in
            match ds with
            | [] => None
            | _ => (fun v => if neg then - v else v) <$> digits 10 0 ds
            end
        end in
      (fun e => inject_Z m * pow 10 (e - Z.of_nat (length frac)))%Q <$> e
  | _, _ => None
  end.

Definition radix_literal (l : list ascii) : option (option Q) :=
  match l with
  | "0"%char :: x :: ds =>
      let radix :=
        if (Ascii.eqb x "x" || Ascii.eqb x "X")%bool then Some 16
        else if (Ascii.eqb x "o" || Ascii.eqb x "O")%bool then Some 8
        else if (Ascii.eqb x "b" || Ascii.eqb x "B")%bool then Some 2
        else None in
      match radix with
      | Some r =>
          Some (match ds with
                | [] => None
                | _ => inject_Z <$> digits r 0 ds
                end)
      | None => None
      end
  | _ => None
  end.

Definition infinity_literal : list ascii :=
  String.list_ascii_of_string "Infinity".

(** [Number(s)] for a string [s]. *)
Definition Number_of_string (s : string) : number :=
  let l := trim (String.list_ascii_of_string s) in
  match l with
  | [] => Fin 0
  | _ =>
      match radix_literal l with
      | Some (Some q) => round q
      | Some None => NaN
      | None =>
          let '(neg, body) := strip_sign l in
          let x :=
            if bool_decide (body = infinity_literal) then Inf false
            else match unsigned_decimal body with
                 | Some q => round q
                 | None => NaN
                 end in
          if neg then negate x else x
      end
  end.

(** *** [Number::toString], as the decimal it prints

    For a positive finite [x] the digits printed are the integer [s] of a
    triple [(n, k, s)] with [10^(k-1) <= s < 10^k], [s * 10^(n-k)]
    rounding to [x], and [k] least; among several [s] the one closest to
    [x]. *)

Definition Qdist (a b : Q) : Q := Qabs (a - b).

(** The candidates with [k] digits that print [x]: digit strings [s]
    scaled by [10^(n-k)], for the two exponents [n] a value next to [x]
    can have. *)
Definition candidates (x : Q) (k : Z) : list (Z * Q) :=
  let N := floor_log 10 x + 1 in
  n ← [N; N + 1];
  let g := pow 10 (n - k) in
  let fl := Qfloor (x / g) in
  s ← [fl; fl + 1];
  if ((10 ^ (k - 1) <=? s) && (s <? 10 ^ k))%bool
  then match round (inject_Z s * g) with
       | Fin y => if Qeq_bool y x then [(s, Qred (inject_Z s * g))] else []
       | _ => []
       end
  else [].

Definition closer (x : Q) (a b : Z * Q) : Z * Q :=
  match (Qdist (snd a) x ?= Qdist (snd b) x)%Q with
  | Lt => a
  | Gt => b
  | Eq => if Z.even (fst a) then a else b
  end.

Fixpoint shortest (x : Q) (ks : list Z) : option Q :=
  match ks with
  | [] => None
  | k :: ks' =>
      match candidates x k with
      | [] => shortest x ks'
      | c :: cs => Some (snd (foldl (closer x) c cs))
      end
  end.

(** The value of the decimal text of [String(x)]; [None] for [NaN] and
    the infinities, whose text is not a numeral. *)
Definition toString_value (x : number) : option Q :=
  match x with
  | Fin q =>
      match Qnum q with
      | Z0 => Some 0%Q
      | Zpos _ => shortest q (seqZ 1 17)
      | Zneg _ => Qopp <$> shortest (- q) (seqZ 1 17)
      end
  | _ => None
  end.

(** *** [parseInt(string, radix)] *)

(** The value of a character as a digit of some radix up to 36. *)
Definition radix_digit (c : ascii) : option Z :=
  let n := nat_of_ascii c in
  if ((48 <=? n)%nat && (n <=? 57)%nat)%bool then Some (Z.of_nat n - 48)
  else if ((97 <=? n)%nat && (n <=? 122)%nat)%bool then Some (Z.of_nat n - 87)
  else if ((65 <=? n)%nat && (n <=? 90)%nat)%bool then Some (Z.of_nat n - 55)
  else None.

(** The value of the longest run of digits of the radix at the start of
    the text; [acc] is the value read so far, [None] before any digit. *)
Fixpoint leading_digits (radix : Z) (acc : option Z) (l : list ascii) : option Z :=
  match l with
  | c :: l' =>
      match radix_digit c with
      | Some v =>
          if v <? radix
          then leading_digits radix (Some (radix * default 0 acc + v)) l'
          else acc
      | None => acc
      end
  | [] => acc
  end.

(** [parseInt(s, radix)] for an integer [radix]: leading white space and
    a sign are skipped, [0x] too when the radix is 16 or 0; the digits
    that follow are read as far as they go, and [NaN] is the result when
    there is none or the radix is out of range. *)
Definition parseInt (s : string) (radix : Z) : number :=
  let '(neg, body) := strip_sign (trim_start (String.list_ascii_of_string s)) in
  if bool_decide (radix <> 0 /\ (radix < 2 \/ 36 < radix)) then NaN else
  let hex :=
    match body with
    | "0"%char :: x :: _ => (Ascii.eqb x "x" || Ascii.eqb x "X")%bool
    | _ => false
    end in
  let stripPrefix := (bool_decide (radix = 0 \/ radix = 16) && hex)%bool in
  let R := if stripPrefix then 16 else if radix =? 0 then 10 else radix in
  let body := if stripPrefix then drop 2 body else body in
  match leading_digits R None body with
  | None => NaN
  | Some v => let x := round (inject_Z v) in if neg then negate x else x
  end.

End JS.

(** ** Node's [path] module (POSIX flavour) *)

Module Path.

Definition is_sep (c : ascii) : bool := Ascii.eqb c "/".

(** Split at every separator: [split "a//b" = ["a"; ""; "b"]]. *)
Fixpoint split (l : list ascii) : list (list ascii) :=
  match l with
  | [] => [[]]
  | c :: l' =>
      if is_sep c then [] :: split l'
      else match split l' with
           | seg :: segs => (c :: seg) :: segs
           | [] => [[c]]
           end
  end.

Definition dot : list ascii := ["."%char].
Definition dotdot : list ascii := ["."%char; "."%char].

(** [normalizeString]: the segments are folded onto a stack (most recent
    first); [.] and empty segments vanish, [..] removes the segment
    before it, or is kept when nothing is left and the path is relative. *)
Fixpoint normalize_segments (allowAbove : bool) (stack : list (list ascii))
    (segs : list (list ascii)) : list (list ascii) :=
  match segs with
  | [] => rev stack
  | seg :: segs' =>
      if bool_decide (seg = [] \/ seg = dot)
      then normalize_segments allowAbove stack segs'
      else if bool_decide (seg = dotdot)
      then match stack with
           | top :: stack' =>
               if bool_decide (top = dotdot)
               then normalize_segments allowAbove (seg :: stack) segs'
               else normalize_segments allowAbove stack' segs'
           | [] =>
               normalize_segments allowAbove
                 (if allowAbove then [seg] else []) segs'
           end
      else normalize_segments allowAbove (seg :: stack) segs'
  end.

Fixpoint unsplit (segs : list (list ascii)) : list ascii :=
  match segs with
  | [] => []
  | [seg] => seg
  | seg :: segs' => seg ++ "/"%char :: unsplit segs'
  end.

(** [path.normalize] *)
Definition normalize (p : string) : string :=
  let l := String.list_ascii_of_string p in
  match l with
  | [] => "."
  | c :: _ =>
      let isAbsolute := is_sep c in
      let trailingSeparator := from_option is_sep false (last l) in
      let body := unsplit (normalize_segments (negb isAbsolute) [] (split l)) in
      match body with
      | [] => if isAbsolute then "/" else if trailingSeparator then "./" else "."
      | _ =>
          String.string_of_list_ascii
            ((if isAbsolute then ["/"%char] else []) ++ body ++
             (if trailingSeparator then ["/"%char] else []))
      end
  end.

(** [path.join(a, b)] *)
Definition join (a b : string) : string :=
  match a, b with
  | EmptyString, EmptyString => "."
  | EmptyString, _ => normalize b
  | _, EmptyString => normalize a
  | _, _ => normalize (a +:+ "/" +:+ b)
  end.

Fixpoint drop_seps (l : list ascii) : list ascii :=
  match l with
  | c :: l' => if is_sep c then drop_seps l' else l
  | [] => []
  end.

(** [path.extname]: the text from the last dot of the last path component
    (trailing separators ignored) to its end; empty when the component
    has no dot, starts with its only dot, or is [..]. The component is
    scanned from its end, so the lists here are reversed. *)
Definition extname (p : string) : string :=
  let r := drop_seps (rev (String.list_ascii_of_string p)) in
  let base := fst (JS.split_at is_sep r) in
  match JS.split_at (fun c => Ascii.eqb c ".") base with
  | (_, None) => ""
  | (_, Some []) => ""
  | (ext, Some _) =>
      if bool_decide (base = dotdot) then ""
      else String.string_of_list_ascii ("."%char :: rev ext)
  end.

End Path.

(** ** JSON values and the validation library *)

Inductive json :=
| JNull
| JBool (b : bool)
| JNum (n : JS.number)
| JStr (s : string)
| JArr (l : list json)
| JObj (o : list (string * json)).

(** [Number(v)] for a JSON value [v]. An array is first joined into a
    string: no element gives the empty string, one element gives that
    element's text (empty for [null]), more give a text with commas. *)
Fixpoint Number (j : json) : JS.number :=
  match j with
  | JNull => JS.Fin 0
  | JBool b => JS.Fin (if b then 1 else 0)
  | JNum n => n
  | JStr s => JS.Number_of_string s
  | JArr [] => JS.Fin 0
  | JArr [x] =>
      match x with
      | JNull => JS.Fin 0
      | JBool _ | JObj _ => JS.NaN
      | _ => Number x
      end
  | JArr _ => JS.NaN
  | JObj _ => JS.NaN
  end.

(** The object [JSON.parse] builds from the members of an object literal:
    of two members with one key the later wins. *)
Definition members (o : list (string * json)) : gmap string json :=
  list_to_map (rev o).

Module Zod.

Inductive schema :=
| string_min (n : nat)            (* z.string().min(n); z.string() is string_min 0 *)
| string_format (fmt : string)    (* z.email(), z.string().datetime() *)
| coerce_number_min (m : Q)       (* z.coerce.number().min(m) *)
| array_min (elt : schema) (n : nat)  (* z.array(elt).min(n) *)
| optional (s : schema)           (* s.optional() *)
| default (s : schema) (d : json) (* s.default(d) *).

(** The outcome of a schema on one property: an issue, no value
    ([undefined]) or a value. *)
Inductive parsed :=
| Invalid
| Undefined
| Value (v : json).

(** A schema that accepts a missing input runs even on [undefined] when
    wrapped in [optional]; this is what applies a default below an
    [optional] wrapper. *)
Definition optin (s : schema) : bool :=
  match s with
  | optional _ | default _ _ => true
  | _ => false
  end.

(** [z.object(shape)], strict or not. *)
Record object := { shape : list (string * schema); strict : bool }.

Definition omit (keys : list string) (o : object) : object :=
  {| shape := filter (fun p => fst p ∉ keys) (shape o); strict := strict o |}.

Definition pick (keys : list string) (o : object) : object :=
  {| shape := filter (fun p => fst p ∈ keys) (shape o); strict := strict o |}.

Definition partial (o : object) : object :=
  {| shape := map (fun p => (fst p, optional (snd p))) (shape o);
     strict := strict o |}.

Definition unrecognized (o : object) (input : gmap string json) : list string :=
  filter (fun k => k ∉ map fst (shape o)) (map fst (map_to_list input)).

Section Parse.

(** The string formats are the library's regular expressions: taken as
    a parameter, [format_ok fmt s] telling whether [s] has format
    [fmt]. *)
Variable format_ok : string -> string -> bool.

Fixpoint all_values (l : list parsed) : option (list json) :=
  match l with
  | [] => Some []
  | Value v :: l' => cons v <$> all_values l'
  | _ :: _ => None
  end.

Fixpoint parse (s : schema) (input : option json) : parsed :=
  match s with
  | string_min n =>
      match input with
      | Some (JStr x) => if (n <=? String.length x)%nat then Value (JStr x) else Invalid
      | _ => Invalid
      end
  | string_format fmt =>
      match input with
      | Some (JStr x) => if format_ok fmt x then Value (JStr x) else Invalid
      | _ => Invalid
      end
  | coerce_number_min m =>
      let x := match input with Some v => Number v | None => JS.NaN end in
      if (JS.isFinite x && JS.geq x m)%bool then Value (JNum x) else Invalid
  | array_min elt n =>
      match input with
      | Some (JArr l) =>
          match all_values (map (fun v => parse elt (Some v)) l) with
          | Some vs => if (n <=? length vs)%nat then Value (JArr vs) else Invalid
          | None => Invalid
          end
      | _ => Invalid
      end
  | optional s' =>
      if optin s' then parse s' input
      else match input with
           | None => Undefined
           | Some _ => parse s' input
           end
  | default s' d =>
      match input with
      | None => Value d
      | Some _ => parse s' input
      end
  end.

(** The properties are parsed in the order of the shape; a property
    whose outcome is [undefined] is left out of the result. *)
Fixpoint parse_shape (sh : list (string * schema)) (input : gmap string json)
  : option (gmap string json) :=
  match sh with
  | [] => Some ∅
  | (k, s) :: sh' =>
      match parse s (input !! k), parse_shape sh' input with
      | Value v, Some out => Some (<[k := v]> out)
      | Undefined, Some out => Some out
      | _, _ => None
      end
  end.

Definition parse_object (o : object) (j : json) : option (gmap string json) :=
  match j with
  | JObj kvs =>
      let input := members kvs in
      if (strict o && negb (bool_decide (unrecognized o input = [])))%bool
      then None
      else parse_shape (shape o) input
  | _ => None
  end.

End Parse.

End Zod.

(** ** [src/types.ts]: the schemas *)

Definition strict_object (sh : list (string * Zod.schema)) : Zod.object :=
  {| Zod.shape := sh; Zod.strict := true |}.

Definition CarouselImageSchema : Zod.object :=
  strict_object
    [ ("id", Zod.coerce_number_min 1);
      ("filename", Zod.string_min 1);
      ("row", Zod.coerce_number_min 1) ].
Definition CarouselImageCreateSchema := Zod.omit ["id"] CarouselImageSchema.
Definition CarouselImageUpdateSchema := Zod.omit ["id"] (Zod.partial CarouselImageSchema).

Definition TestimonialSchema : Zod.object :=
  strict_object
    [ ("id", Zod.coerce_number_min 1);
      ("name", Zod.string_min 1);
      ("designation", Zod.string_min 1);
      ("company", Zod.string_min 1);
      ("image", Zod.string_min 1);
      ("content", Zod.string_min 1) ].
Definition TestimonialCreateSchema := Zod.omit ["id"] TestimonialSchema.
Definition TestimonialUpdateSchema := Zod.omit ["id"] (Zod.partial TestimonialSchema).

Definition PromotionalOfferSchema : Zod.object :=
  strict_object
    [ ("id", Zod.coerce_number_min 1);
      ("title", Zod.string_min 1);
      ("description", Zod.string_min 1);
      ("images", Zod.array_min (Zod.string_min 0) 1);
      ("link", Zod.optional (Zod.string_min 0)) ].
Definition PromotionalOfferCreateSchema := Zod.omit ["id"] PromotionalOfferSchema.
Definition PromotionalOfferUpdateSchema :=
  Zod.omit ["id"] (Zod.partial PromotionalOfferSchema).

Definition AttorneySchema : Zod.object :=
  strict_object
    [ ("id", Zod.coerce_number_min 1);
      ("name", Zod.string_min 1);
      ("designation", Zod.default (Zod.optional (Zod.string_min 1)) (JStr "Attorney"));
      ("image", Zod.string_min 1) ].
Definition AttorneyCreateSchema := Zod.omit ["id"] AttorneySchema.
Definition AttorneyUpdateSchema := Zod.omit ["id"] (Zod.partial AttorneySchema).

Definition WorkSchema : Zod.object :=
  strict_object
    [ ("id", Zod.coerce_number_min 1);
      ("title", Zod.string_min 1);
      ("image", Zod.string_min 1) ].
Definition WorkCreateSchema := Zod.omit ["id"] WorkSchema.
Definition WorkUpdateSchema := Zod.omit ["id"] (Zod.partial WorkSchema).

Definition OfferSchema : Zod.object :=
  strict_object
    [ ("id", Zod.coerce_number_min 1);
      ("title", Zod.string_min 1);
      ("description", Zod.string_min 1);
      ("price", Zod.coerce_number_min 0) ].
Definition OfferCreateSchema := Zod.omit ["id"] OfferSchema.
Definition OfferUpdateSchema := Zod.omit ["id"] (Zod.partial OfferSchema).

Definition EmailSchema : Zod.object :=
  strict_object
    [ ("firstname", Zod.string_min 1);
      ("lastname", Zod.string_min 1);
      ("email", Zod.string_format "email");
      ("message", Zod.string_min 1) ].
Definition EmailSendSchema := EmailSchema.

Definition BlogSchema : Zod.object :=
  strict_object
    [ ("id", Zod.coerce_number_min 1);
      ("title", Zod.string_min 1);
      ("author", Zod.string_min 1);
      ("content", Zod.string_min 1);
      ("image", Zod.string_min 1);
      ("created_at", Zod.string_format "datetime");
      ("updated_at", Zod.string_format "datetime") ].
Definition BlogCreateSchema := Zod.omit ["id"; "created_at"; "updated_at"] BlogSchema.
Definition BlogUpdateSchema :=
  Zod.omit ["id"; "created_at"; "updated_at"] (Zod.partial BlogSchema).

(** The schema every [/:id] route gives to its parameter validator,
    [z.object({ id: z.coerce.number().min(1) })], and the one of
    [/row/:rowId]. *)
Definition IdParamSchema : Zod.object :=
  {| Zod.shape := [("id", Zod.coerce_number_min 1)]; Zod.strict := false |}.
Definition RowIdParamSchema : Zod.object :=
  {| Zod.shape := [("rowId", Zod.coerce_number_min 1)]; Zod.strict := false |}.

(** ** The world of a request

    A handler reads and writes the blob directory and the tables, sends
    mail, and reads the clock and the random generator. The state is
    threaded explicitly; every effect is also appended to a trace, so that
    "no read" and "no write" can be stated. *)

Inductive kind :=
| CarouselImage | Testimonial | PromotionalOffer | Attorney | Work | Offer | Blog.

#[global] Instance kind_eq_dec : EqDecision kind.
Proof. solve_decision. Defined.

Abbreviation Buffer := (list Byte.byte).

(** *** Tables ([src/db/schema.ts]) *)

Inductive dbval :=
| DInt (z : Z)
| DText (s : string)
| DNumeric (cents : Z)     (* numeric(10, 2): the value is cents / 100 *)
| DJson (j : json)
| DTimestamp (ms : Z)
| DNull.

Abbreviation row := (gmap string dbval).

Inductive coltype :=
| integer
| smallserial
| varchar (length : nat)
| jsoncol
| numeric_10_2
| timestamp.

#[global] Instance coltype_eq_dec : EqDecision coltype.
Proof. solve_decision. Defined.

Record column := {
  col_name : string;
  col_type : coltype;
  col_notNull : bool;
  col_default : option dbval;
  col_identity : bool               (* generatedAlwaysAsIdentity() *)
}.

Definition col (name : string) (t : coltype) (notNull : bool) : column :=
  {| col_name := name; col_type := t; col_notNull := notNull;
     col_default := None; col_identity := false |}.

Definition identity_col (name : string) : column :=
  {| col_name := name; col_type := integer; col_notNull := true;
     col_default := None; col_identity := true |}.

Definition carouselImagesTable : list column :=
  [ identity_col "id"; col "filename" (varchar 255) true; col "row" integer true;
    col "index" smallserial true ].

Definition testimonialsTable : list column :=
  [ identity_col "id"; col "name" (varchar 255) true; col "designation" (varchar 255) true;
    col "company" (varchar 255) true; col "image" (varchar 255) true; col "content" (varchar 255) true ].

Definition promotionalOffersTable : list column :=
  [ identity_col "id"; col "title" (varchar 255) true; col "description" (varchar 255) true;
    col "images" jsoncol true; col "link" (varchar 255) false ].

Definition attorneysTable : list column :=
  [ identity_col "id"; col "name" (varchar 255) true;
    {| col_name := "designation"; col_type := varchar 255; col_notNull := false;
       col_default := Some (DText "Attorney"); col_identity := false |};
    col "image" (varchar 255) true ].

Definition worksTable : list column :=
  [ identity_col "id"; col "title" (varchar 255) true; col "image" (varchar 255) true ].

Definition offersTable : list column :=
  [ identity_col "id"; col "title" (varchar 255) true; col "description" (varchar 255) true;
    col "price" numeric_10_2 true ].

(** Modelled from the spec: [blogsTable] is imported by the blog routes
    from [src/db/schema.ts] but is not declared in the schema file at hand.
    The spec gives blogs the fields of [BlogSchema], with server-assigned
    [created_at] and [updated_at] timestamps. The text columns are taken
    to be declared as every text column of the schema file is,
    [varchar({ length: 255 })]. *)
Definition blogsTable : list column :=
  [ identity_col "id"; col "title" (varchar 255) true; col "author" (varchar 255) true;
    col "content" (varchar 255) true; col "image" (varchar 255) true;
    col "created_at" timestamp true; col "updated_at" timestamp true ].

Definition columns (k : kind) : list column :=
  match k with
  | CarouselImage => carouselImagesTable
  | Testimonial => testimonialsTable
  | PromotionalOffer => promotionalOffersTable
  | Attorney => attorneysTable
  | Work => worksTable
  | Offer => offersTable
  | Blog => blogsTable
  end.

(** A table: its rows in the order in which a scan of the table yields
    them, and the next values of its identity
    sequence and, for carousel images, of the sequence behind [index]. *)
Record table := {
  rows : list row;
  next_id : Z;
  next_index : Z
}.

(** A value handed to the query builder: a plain JavaScript value, the
    fragment [sql`${v}::numeric`], or a [Date]. *)
Inductive param :=
| Plain (v : json)
| SqlNumeric (v : json)
| DateValue (ms : Z).

Inductive statement :=
| Insert (k : kind) (values : gmap string param)
| Update (k : kind) (set : gmap string param) (id : JS.number)
| Delete (k : kind) (id : JS.number)
| Select (k : kind)
| SelectById (k : kind) (id : JS.number)
| SelectByRowOrderByIndex (rowId : JS.number).

(** *** Mail *)

(** The markup of the mail: the static pieces of the template of
    [src/utils/emailTemplate.ts], numbered in order, and the texts
    inserted between them. *)
Inductive markup :=
| Static (piece : nat)
| Inserted (s : string).

Record EmailOptions := {
  from : string;
  to : string;
  subject : string;
  text : string;
  html : list markup
}.

(** *** Effects *)

Inductive event :=
| FsAccess (path : string)
| FsReadFile (path : string)
| FsWriteFile (path : string)
| FsStat (path : string)
| Sql (q : statement)
| SendMail (m : EmailOptions).

Inductive node :=
| File (content : Buffer)
| Directory.

Record world := {
  fs : gmap string node;        (* the file system, by absolute path *)
  db : kind -> table;
  trace : list event;           (* effects performed, oldest first *)
  draws : nat                   (* clock and random readings taken so far *)
}.

(** What lies outside the program: the host, the clock and random
    generator, the image encoder, the database server's and the mail
    server's failures, the configuration, the case table of Unicode, and
    the place the database server chooses for the new version of a row. *)
Record env := {
  homedir : string;                            (* os.homedir() *)
  Date_now : nat -> Z;                         (* the n-th reading of Date.now() *)
  Math_random_base36 : nat -> string;
      (* the n-th Math.random().toString(36).substring(2, 10) *)
  sharp_jpeg : Z -> Buffer -> option Buffer;
      (* sharp(buffer).jpeg({ quality }): the JPEG bytes, or a failure *)
  sql_fails : statement -> bool;               (* the server rejects the statement *)
  sendMail_fails : EmailOptions -> option string;  (* the transport's error, if any *)
  EMAIL_TO : string;                           (* config.EMAIL_TO *)
  format_ok : string -> string -> bool;        (* the validator's string formats *)
  unicode_lower : string -> string;
      (* the lower case of a text with characters beyond ASCII *)
  tuple_slot : list event -> list row -> row -> nat
      (* where, among the rows present, the server puts the new version of
         an updated row, after the effects performed so far *)
}.

Definition set_fs (f : gmap string node) (w : world) : world :=
  {| fs := f; db := db w; trace := trace w; draws := draws w |}.
Definition set_table (k : kind) (t : table) (w : world) : world :=
  {| fs := fs w;
     db := fun k' => if decide (k' = k) then t else db w k';
     trace := trace w; draws := draws w |}.
Definition log (e : event) (w : world) : world :=
  {| fs := fs w; db := db w; trace := trace w ++ [e]; draws := draws w |}.
Definition tick (w : world) : world :=
  {| fs := fs w; db := db w; trace := trace w; draws := S (draws w) |}.

(** A computation either returns or throws. *)
Inductive outcome (A : Type) :=
| Ok (a : A)
| Throw (message : string).
Arguments Ok {A} a.
Arguments Throw {A} message.

Definition M (A : Type) : Type := world -> outcome A * world.

Definition ret {A} (a : A) : M A := fun w => (Ok a, w).
Definition throw {A} (message : string) : M A := fun w => (Throw message, w).
Definition bind {A B} (m : M A) (f : A -> M B) : M B :=
  fun w =>
    match m w with
    | (Ok a, w') => f a w'
    | (Throw e, w') => (Throw e, w')
    end.
(** [try { m } catch { h }] *)
Definition try_catch {A} (m : M A) (h : string -> M A) : M A :=
  fun w =>
    match m w with
    | (Ok a, w') => (Ok a, w')
    | (Throw e, w') => h e w'
    end.

Notation "'let*' x ':=' m 'in' k" := (bind m (fun x => k))
  (at level 10, x pattern, m at level 100, k at level 200).

(** *** The file system ([fs/promises]) *)

Module Fs.

Definition ends_with_sep (p : string) : bool :=
  from_option Path.is_sep false (last (String.list_ascii_of_string p)).

Definition strip_sep (p : string) : string :=
  String.string_of_list_ascii
    (rev (Path.drop_seps (rev (String.list_ascii_of_string p)))).

(** Name resolution: a path that ends with a separator names a directory
    or nothing. *)
Definition resolve (f : gmap string node) (p : string) : option node :=
  if ends_with_sep p
  then match f !! strip_sep p with
       | Some Directory => Some Directory
       | _ => None
       end
  else f !! p.

Definition access (p : string) : M unit :=
  fun w =>
    let w := log (FsAccess p) w in
    match resolve (fs w) p with
    | Some _ => (Ok tt, w)
    | None => (Throw "ENOENT", w)
    end.

Definition readFile (p : string) : M Buffer :=
  fun w =>
    let w := log (FsReadFile p) w in
    match resolve (fs w) p with
    | Some (File content) => (Ok content, w)
    | Some Directory => (Throw "EISDIR", w)
    | None => (Throw "ENOENT", w)
    end.

(** The directory written to is the blob directory, which [src/index.ts]
    creates at start-up: the parent of the path is not looked up. *)
Definition writeFile (p : string) (data : Buffer) : M unit :=
  fun w =>
    let w := log (FsWriteFile p) w in
    match resolve (fs w) p with
    | Some Directory => (Throw "EISDIR", w)
    | _ =>
        if ends_with_sep p then (Throw "ENOENT", w)
        else (Ok tt, set_fs (<[p := File data]> (fs w)) w)
    end.

Definition directory_size : Z := 4096.

(** [(await fs.stat(p)).size] *)
Definition stat_size (p : string) : M Z :=
  fun w =>
    let w := log (FsStat p) w in
    match resolve (fs w) p with
    | Some (File content) => (Ok (Z.of_nat (length content)), w)
    | Some Directory => (Ok directory_size, w)
    | None => (Throw "ENOENT", w)
    end.

End Fs.

(** *** The database (drizzle over PostgreSQL) *)

Module Db.

(** A number sent for an [integer] column or compared with one must be
    the text of a 32-bit integer. *)
Definition pg_int4 (n : JS.number) : option Z :=
  z ← JS.to_integer n;
  if ((- 2 ^ 31 <=? z) && (z <=? 2 ^ 31 - 1))%bool then Some z else None.

Definition round_half_away (q : Q) : Z :=
  match Qnum q with
  | Zneg _ => - Qfloor (- q + (1 # 2))
  | _ => Qfloor (q + (1 # 2))
  end.

(** A number cast with [::numeric] into a [numeric(10, 2)] column: the
    decimal text of the number, rounded to two fraction digits; more
    than eight integer digits overflow. The result is in cents. *)
Definition pg_numeric_10_2 (n : JS.number) : option Z :=
  d ← JS.toString_value n;
  let cents := round_half_away (d * 100) in
  if Z.abs cents <? 10 ^ 10 then Some cents else None.

(** A byte that continues a character of several bytes. *)
Definition is_continuation (c : ascii) : bool :=
  let n := nat_of_ascii c in ((128 <=? n)%nat && (n <? 192)%nat)%bool.

(** The first [n] characters of a text, and what follows them. *)
Fixpoint split_characters (n : nat) (l : list ascii) : list ascii * list ascii :=
  match l with
  | [] => ([], [])
  | c :: l' =>
      if is_continuation c
      then let '(a, b) := split_characters n l' in (c :: a, b)
      else match n with
           | O => ([], l)
           | S n' => let '(a, b) := split_characters n' l' in (c :: a, b)
           end
  end.

(** A text stored in a [varchar(n)] column. The server takes no text with
    a zero byte. A text of more than [n] characters is an error, unless
    the characters in excess are all spaces: then the first [n] are
    stored. *)
Definition pg_varchar (n : nat) (s : string) : option string :=
  let l := String.list_ascii_of_string s in
  if existsb (Ascii.eqb Ascii.zero) l then None else
  let '(kept, excess) := split_characters n l in
  if forallb (Ascii.eqb " "%char) excess
  then Some (String.string_of_list_ascii kept)
  else None.

(** The value stored for a parameter in a column of the given type; the
    combinations the handlers never produce are rejected. *)
Definition bind_param (t : coltype) (p : param) : option dbval :=
  match t, p with
  | integer, Plain (JNum n) => DInt <$> pg_int4 n
  | varchar n, Plain (JStr s) => DText <$> pg_varchar n s
  | jsoncol, Plain j => Some (DJson j)
  | numeric_10_2, SqlNumeric (JNum n) => DNumeric <$> pg_numeric_10_2 n
  | timestamp, DateValue ms => Some (DTimestamp ms)
  | _, _ => None
  end.

(** The value of one column of an inserted row. *)
Definition insert_column (values : gmap string param) (t : table) (now : Z)
    (c : column) : option dbval :=
  if col_identity c
  then match values !! col_name c with
       | Some _ => None
       | None => if next_id t <=? 2 ^ 31 - 1 then Some (DInt (next_id t)) else None
       end
  else match values !! col_name c with
       | Some p => bind_param (col_type c) p
       | None =>
           match col_type c with
           | smallserial =>
               if next_index t <=? 32767 then Some (DInt (next_index t)) else None
           | timestamp => Some (DTimestamp now)
           | _ =>
               match col_default c with
               | Some d => Some d
               | None => if col_notNull c then None else Some DNull
               end
           end
       end.

Fixpoint insert_row (values : gmap string param) (t : table) (now : Z)
    (cols : list column) : option row :=
  match cols with
  | [] => Some ∅
  | c :: cols' =>
      v ← insert_column values t now c;
      r ← insert_row values t now cols';
      Some (<[col_name c := v]> r)
  end.

(** [r] put at place [slot] among the rows of [l], at the end when there
    are fewer. *)
Definition place (slot : nat) (r : row) (l : list row) : list row :=
  take slot l ++ r :: drop slot l.

Definition has_serial (cols : list column) : bool :=
  bool_decide (Exists (fun c => col_type c = smallserial) cols).

(** The columns named by [.set(...)], as stored values. *)
Fixpoint bind_set (set : gmap string param) (cols : list column)
  : option (gmap string dbval) :=
  match cols with
  | [] => Some ∅
  | c :: cols' =>
      changes ← bind_set set cols';
      match set !! col_name c with
      | None => Some changes
      | Some p => v ← bind_param (col_type c) p; Some (<[col_name c := v]> changes)
      end
  end.

Definition has_id (z : Z) (r : row) : bool :=
  match r !! "id" with
  | Some (DInt z') => z' =? z
  | _ => false
  end.

Definition has_row (z : Z) (r : row) : bool :=
  match r !! "row" with
  | Some (DInt z') => z' =? z
  | _ => false
  end.

Definition index_of (r : row) : Z :=
  match r !! "index" with
  | Some (DInt z) => z
  | _ => 0
  end.

(** [ORDER BY index]: ascending. *)
Definition index_le (r1 r2 : row) : Prop := index_of r1 <= index_of r2.

#[global] Instance index_le_dec : RelDecision index_le.
Proof. intros r1 r2. unfold index_le. apply _. Defined.

Section Run.

Variable E : env.

(** The new versions of the updated rows, each put where the server
    chooses among the rows present. *)
Definition store_versions (slot : list row -> row -> nat) (kept versions : list row)
  : list row :=
  foldl (fun present r => place (slot present r) r present) kept versions.

(** Run a statement and return the rows it yields ([.returning()] for
    the writes). A statement the server rejects changes nothing. An
    inserted row comes after the rows present. An update leaves the rows
    it does not match where they are and stores a new version of each row
    it matches: a scan of the table finds the new version where the
    server put it, not where the row was. *)
Definition run (q : statement) : M (list row) :=
  fun w =>
    let w := log (Sql q) w in
    if sql_fails E q then (Throw "query failed", w) else
    match q with
    | Insert k values =>
        let t := db w k in
        match insert_row values t (Date_now E (draws w)) (columns k) with
        | Some r =>
            let t' :=
              {| rows := rows t ++ [r];
                 next_id := next_id t + 1;
                 next_index :=
                   if (has_serial (columns k) && negb (bool_decide (is_Some (values !! "index"))))%bool
                   then next_index t + 1 else next_index t |} in
            (Ok [r], tick (set_table k t' w))
        | None => (Throw "query failed", w)
        end
    | Update k set id =>
        if bool_decide (size set = 0%nat) then (Throw "No values to set", w) else
        let t := db w k in
        match pg_int4 id, bind_set set (columns k) with
        | Some z, Some changes =>
            let versions :=
              map (fun r => changes ∪ r) (filter (fun r => has_id z r) (rows t)) in
            let t' :=
              {| rows := store_versions (tuple_slot E (trace w))
                           (filter (fun r => negb (has_id z r)) (rows t)) versions;
                 next_id := next_id t;
                 next_index := next_index t |} in
            (Ok versions, set_table k t' w)
        | _, _ => (Throw "query failed", w)
        end
    | Delete k id =>
        let t := db w k in
        match pg_int4 id with
        | Some z =>
            let t' :=
              {| rows := filter (fun r => negb (has_id z r)) (rows t);
                 next_id := next_id t;
                 next_index := next_index t |} in
            (Ok (filter (fun r => has_id z r) (rows t)), set_table k t' w)
        | None => (Throw "query failed", w)
        end
    | Select k => (Ok (rows (db w k)), w)
    | SelectById k id =>
        match pg_int4 id with
        | Some z => (Ok (filter (fun r => has_id z r) (rows (db w k))), w)
        | None => (Throw "query failed", w)
        end
    | SelectByRowOrderByIndex rowId =>
        match pg_int4 rowId with
        | Some z =>
            (Ok (merge_sort index_le
                   (filter (fun r => has_row z r) (rows (db w CarouselImage)))), w)
        | None => (Throw "query failed", w)
        end
    end.

End Run.

End Db.

(** ** HTTP responses *)

(** An entry of the upload response. *)
Record processed := {
  processed_name : string;
  processed_size : Z;
  processed_type : string
}.

Inductive body :=
| Json_error (error : string)                       (* { error } *)
| Json_data (data : list row)                       (* { data: [...] } *)
| Json_datum (data : option row)                    (* { data: rows[0] } *)
| Json_message (message : string) (data : option row) (* { message, data: result[0] } *)
| Json_notice (message : string)                    (* { message } *)
| Json_files (message : string) (files : list processed)
| Json_issues                                       (* the validator's report *)
| Raw (bytes : Buffer)
| Text (text : string).

Record response := {
  status : Z;
  Content_Type : string;
  payload : body
}.

(** [c.json(body, status)] *)
Definition c_json (b : body) (st : Z) : response :=
  {| status := st; Content_Type := "application/json"; payload := b |}.

(** [c.header("Content-Type", t); c.body(bytes)] *)
Definition c_body (t : string) (bytes : Buffer) : response :=
  {| status := 200; Content_Type := t; payload := Raw bytes |}.

(** The framework around a handler: an exception that escapes it becomes
    the default 500 answer. *)
Definition hono (h : M response) (w : world) : response * world :=
  match h w with
  | (Ok r, w') => (r, w')
  | (Throw _, w') =>
      ({| status := 500; Content_Type := "text/plain";
          payload := Text "Internal Server Error" |}, w')
  end.

(** JavaScript values read from a validated object. *)
Definition truthy (v : option json) : bool :=
  match v with
  | None | Some JNull => false
  | Some (JBool b) => b
  | Some (JNum n) =>
      match n with
      | JS.NaN => false
      | JS.Inf _ => true
      | JS.Fin q => negb (Qeq_bool q 0)
      end
  | Some (JStr s) => negb (bool_decide (s = ""))
  | Some (JArr _) | Some (JObj _) => true
  end.

(** [Object.keys(o)] *)
Definition Object_keys {A} (o : gmap string A) : list string :=
  map fst (map_to_list o).

(** An object literal [{ k1: v1, ... }] handed to the query builder, which
    skips the properties that are [undefined]. *)
Fixpoint object_of (l : list (string * option param)) : gmap string param :=
  match l with
  | [] => ∅
  | (k, Some v) :: l' => <[k := v]> (object_of l')
  | (_, None) :: l' => object_of l'
  end.

(** A string interpolated in a template literal; the fields read this way
    are strings once validated. *)
Definition interpolate (v : option json) : string :=
  match v with
  | Some (JStr s) => s
  | Some JNull => "null"
  | Some (JBool true) => "true"
  | Some (JBool false) => "false"
  | None => "undefined"
  | Some _ => "[object]"
  end.

(** An uploaded [File]. *)
Module File.
Record t := { name : string; type : string; arrayBuffer : Buffer }.
Definition size (f : t) : Z := Z.of_nat (length (arrayBuffer f)).
End File.

(** A value of the parsed multipart body: a string, a file, or the array
    of the values sent under one field name. *)
Inductive form_item :=
| FormString (s : string)
| FormFile (f : File.t).

Inductive form_value :=
| Single (v : form_item)
| Many (vs : list form_item).

(** *** The parsed body ([c.req.parseBody({ all: true })])

    The request carries fields, each a name with a string or a file, in
    the order sent. The framework (Hono) builds an object from them: a
    name met for the first time becomes a property with the value (an
    array of it when the name ends in [[]]), a name met again has its
    property turned into the array of its values. The handler then reads
    the object with [Object.entries], not the fields as they were sent. *)

Definition ends_with_brackets (key : string) : bool :=
  match rev (String.list_ascii_of_string key) with
  | "]"%char :: "["%char :: _ => true
  | _ => false
  end.

(** [handleParsingAllValues(form, key, value)]; the properties are kept in
    the order of their creation. *)
Fixpoint add_value (form : list (string * form_value)) (key : string)
    (value : form_item) : list (string * form_value) :=
  match form with
  | [] => [(key, if ends_with_brackets key then Many [value] else Single value)]
  | (k, v) :: form' =>
      if String.eqb k key
      then (k, match v with
               | Single first => Many [first; value]
               | Many values => Many (values ++ [value])%list
               end) :: form'
      else (k, v) :: add_value form' key value
  end.

Definition parseBody (fields : list (string * form_item))
  : list (string * form_value) :=
  foldl (fun form '(key, value) => add_value form key value) [] fields.

(** The array index a property name stands for: the decimal numeral,
    without sign or leading zero, of an integer below [2^32 - 1]. *)
Definition array_index (key : string) : option Z :=
  match String.list_ascii_of_string key with
  | [] => None
  | c :: l =>
      if (Ascii.eqb c "0" && negb (bool_decide (l = [])))%bool then None else
      match JS.digits 10 0 (c :: l) with
      | Some n => if n <? 2 ^ 32 - 1 then Some n else None
      | None => None
      end
  end.

(** Sorting by index, least first; of two entries with one index the one
    that came first stays first. *)
Fixpoint insert_by_index {A} (x : Z * A) (l : list (Z * A)) : list (Z * A) :=
  match l with
  | [] => [x]
  | y :: l' => if fst x <=? fst y then x :: l else y :: insert_by_index x l'
  end.

Definition sort_by_index {A} (l : list (Z * A)) : list (Z * A) :=
  foldr insert_by_index [] l.

(** [Object.entries(form)]: the properties whose names are array indices
    come first, by ascending index, the others follow in the order of
    their creation. *)
Definition Object_entries (form : list (string * form_value))
  : list (string * form_value) :=
  (map snd (sort_by_index
              (omap (fun e => (fun i => (i, e)) <$> array_index (fst e)) form))
   ++ filter (fun e => array_index (fst e) = None) form)%list.

Section Routes.

Variable E : env.

(** [filesDir], from [src/index.ts] *)
Definition filesDir : string := Path.join (homedir E) "bright-ants-files".

(** [path.join(filesDir, name)]; the library throws on an argument that
    is not a string. *)
Definition join_filesDir (name : option json) : M string :=
  match name with
  | Some (JStr s) => ret (Path.join filesDir s)
  | _ => throw "TypeError"
  end.

(** [zValidator(target, schema)] in front of a handler. *)
Definition zValidator (schema : Zod.object) (input : json)
    (handler : gmap string json -> M response) : M response :=
  match Zod.parse_object (format_ok E) schema input with
  | Some data => handler data
  | None => ret (c_json Json_issues 400)
  end.

(** The parameter object of a route with one path parameter. *)
Definition params (name value : string) : json := JObj [(name, JStr value)].

Definition number_of (v : option json) : JS.number :=
  match v with
  | Some (JNum n) => n
  | _ => JS.NaN
  end.

(** *** [src/routes/files.ts] *)

Definition generateSanitizedFilename (originalName : string) : M string :=
  fun w =>
    let ext := JS.toLowerCase (unicode_lower E) (Path.extname originalName) in
    let timestamp := Date_now E (draws w) in
    let randomString := Math_random_base36 E (draws w) in
    (Ok (pretty timestamp +:+ "-" +:+ randomString +:+ ext), tick w).

Definition processVideo (inputBuffer : Buffer) (outputPath : string) : M unit :=
  Fs.writeFile outputPath inputBuffer.

Definition getSingleVideoPath : string := Path.join filesDir "video.mp4".

(** [sharp(buffer).jpeg({ quality }).toFile(filePath)] *)
Definition sharp_jpeg_toFile (buffer : Buffer) (quality : Z) (filePath : string)
  : M unit :=
  match sharp_jpeg E quality buffer with
  | Some encoded => Fs.writeFile filePath encoded
  | None => throw "unsupported image format"
  end.

Definition is_file (v : form_item) : bool :=
  match v with FormFile _ => true | FormString _ => false end.

Definition files_of (vs : list form_item) : list File.t :=
  omap (fun v => match v with FormFile f => Some f | FormString _ => None end) vs.

(** The files collected from the entries of the form data. *)
Fixpoint collect_files (formData : list (string * form_value)) : list File.t :=
  match formData with
  | [] => []
  | (_, Single (FormFile f)) :: rest => f :: collect_files rest
  | (_, Single (FormString _)) :: rest => collect_files rest
  | (_, Many vs) :: rest =>
      (if from_option is_file false (head vs) then files_of vs else [])
        ++ collect_files rest
  end.

(** The body of the [try] block for one file: store it, then describe
    what was stored. *)
Definition store_file (file : File.t) (isImage : bool) : M processed :=
  if isImage then
    let* fileName := generateSanitizedFilename (File.name file) in
    let filePath := Path.join filesDir fileName in
    let buffer := File.arrayBuffer file in
    let* _ := sharp_jpeg_toFile buffer 80 filePath in
    let* size := Fs.stat_size filePath in
    ret {| processed_name := fileName; processed_size := size;
           processed_type := "image/jpeg" |}
  else
    let videoPath := getSingleVideoPath in
    let buffer := File.arrayBuffer file in
    let* _ := processVideo buffer videoPath in
    let* size := Fs.stat_size videoPath in
    ret {| processed_name := "video.mp4"; processed_size := size;
           processed_type := "video/mp4" |}.

(** The loop [for (const file of files)], with the files processed so
    far. *)
Fixpoint upload_loop (files : list File.t) (processedFiles : list processed)
  : M response :=
  match files with
  | [] =>
      ret (c_json (Json_files "Files uploaded and processed successfully"
                     processedFiles) 201)
  | file :: rest =>
      let isImage := JS.startsWith (File.type file) "image/" in
      let isVideo := JS.startsWith (File.type file) "video/" in
      if (negb isImage && negb isVideo)%bool then
        ret (c_json (Json_error ("Invalid file type for " +:+ File.name file +:+
                                 ". Only image and video files are allowed.")) 400)
      else
        let maxSize := if isImage then 50 * 1024 * 1024 else 1024 * 1024 * 1024 in
        let maxSizeStr := if isImage then "50MB" else "1GB" in
        if File.size file >? maxSize then
          ret (c_json (Json_error ("File " +:+ File.name file +:+ " exceeds the " +:+
                                   maxSizeStr +:+ " limit.")) 400)
        else
          let* stored :=
            try_catch
              (let* entry := store_file file isImage in ret (inl entry))
              (fun _ =>
                 ret (inr (c_json (Json_error ("Failed to process file " +:+
                                               File.name file)) 500))) in
          match stored with
          | inl entry => upload_loop rest (processedFiles ++ [entry])
          | inr failure => ret failure
          end
  end.

(** [POST /files] *)
Definition files_post (formData : list (string * form_value)) : M response :=
  upload_loop (collect_files formData) [].

Definition contentType_of (ext : string) : string :=
  if bool_decide (ext ∈ [".jpg"; ".jpeg"]) then "image/jpeg"
  else if bool_decide (ext = ".png") then "image/png"
  else if bool_decide (ext = ".gif") then "image/gif"
  else if bool_decide (ext = ".webp") then "image/webp"
  else if bool_decide (ext = ".svg") then "image/svg+xml"
  else if bool_decide (ext = ".mp4") then "video/mp4"
  else if bool_decide (ext = ".webm") then "video/webm"
  else if bool_decide (ext = ".ogg") then "video/ogg"
  else if bool_decide (ext = ".avi") then "video/x-msvideo"
  else if bool_decide (ext = ".mov") then "video/quicktime"
  else if bool_decide (ext = ".wmv") then "video/x-ms-wmv"
  else if bool_decide (ext = ".flv") then "video/x-flv"
  else if bool_decide (ext = ".mkv") then "video/x-matroska"
  else "application/octet-stream".

(** [GET /files/:filename] *)
Definition files_get (filename : string) : M response :=
  if bool_decide (filename = "video.mp4") then
    let videoPath := getSingleVideoPath in
    try_catch
      (let* _ := Fs.access videoPath in
       let* fileBuffer := Fs.readFile videoPath in
       ret (c_body "video/mp4" fileBuffer))
      (fun _ => ret (c_json (Json_error "Video file not found") 404))
  else if (JS.includes filename ".." || JS.includes filename "/" ||
           JS.includes filename "\")%bool then
    ret (c_json (Json_error "Invalid filename") 400)
  else
    let filePath := Path.join filesDir filename in
    try_catch
      (let* _ := Fs.access filePath in
       let* fileBuffer := Fs.readFile filePath in
       let ext := JS.toLowerCase (unicode_lower E) (Path.extname filename) in
       ret (c_body (contentType_of ext) fileBuffer))
      (fun _ => ret (c_json (Json_error "File not found") 404)).

(** *** [src/utils/emailTemplate.ts], [src/utils/email.ts],
    [src/routes/email.ts] *)

(** [message.replace(/\n/g, '<br>')] *)
Fixpoint replace_newlines (s : string) : string :=
  match s with
  | EmptyString => EmptyString
  | String c s' =>
      if Ascii.eqb c (ascii_of_nat 10) then "<br>" +:+ replace_newlines s'
      else String c (replace_newlines s')
  end.

(** [from.split('<')[1]?.split('>')[0] || from] *)
Definition reply_address (from : string) : string :=
  match JS.split_at (fun c => Ascii.eqb c "<") (String.list_ascii_of_string from) with
  | (_, None) => from
  | (_, Some rest) =>
      let second := fst (JS.split_at (fun c => Ascii.eqb c "<") rest) in
      match fst (JS.split_at (fun c => Ascii.eqb c ">") second) with
      | [] => from
      | address => String.string_of_list_ascii address
      end
  end.

Definition generateEmailTemplate (from subject message : string) : list markup :=
  [ Static 0; Inserted subject;
    Static 1; Inserted subject;
    Static 2; Inserted from;
    Static 3; Inserted (replace_newlines message);
    Static 4; Inserted (reply_address from);
    Static 5 ].

(** [transporter.sendMail(options)] *)
Definition sendEmail (options : EmailOptions) : M unit :=
  fun w =>
    let w := log (SendMail options) w in
    match sendMail_fails E options with
    | Some message => (Throw message, w)
    | None => (Ok tt, w)
    end.

(** [POST /email] *)
Definition email_post (body : json) : M response :=
  zValidator EmailSendSchema body (fun emailData =>
    let firstname := interpolate (emailData !! "firstname") in
    let lastname := interpolate (emailData !! "lastname") in
    let address := interpolate (emailData !! "email") in
    let message := interpolate (emailData !! "message") in
    try_catch
      (let subject :=
         "New Contact Form Message from " +:+ firstname +:+ " " +:+ lastname in
       let htmlContent :=
         generateEmailTemplate
           (firstname +:+ " " +:+ lastname +:+ " <" +:+ address +:+ ">")
           subject message in
       let* _ := sendEmail {| from := address; to := EMAIL_TO E; subject := subject;
                              text := message; html := htmlContent |} in
       ret (c_json (Json_notice "Email sent successfully") 200))
      (fun message =>
         ret (c_json (Json_error ("Failed to send email: " +:+ message)) 500))).

(** *** The entity routes

    Shared pieces: the existence check
    [try { await fs.access(p) } catch { return ... 404 }], and the
    values read from the validated payload. *)

Definition accessible (filePath : string) : M bool :=
  try_catch (let* _ := Fs.access filePath in ret true) (fun _ => ret false).

Definition plain (v : option json) : option param := Plain <$> v.

Definition elements (v : option json) : list json :=
  match v with
  | Some (JArr l) => l
  | _ => []
  end.

(** [for (const filename of images) { ... access ... }]: the first name
    whose file is missing. *)
Fixpoint first_missing (names : list json) : M (option string) :=
  match names with
  | [] => ret None
  | filename :: rest =>
      let* filePath := join_filesDir (Some filename) in
      let* found := accessible filePath in
      if found then first_missing rest
      else ret (Some (interpolate (Some filename)))
  end.

Definition not_found (what : string) : response :=
  c_json (Json_error (what +:+ " not found")) 404.

(** **** [src/routes/carouselImages.ts] *)

Definition carouselImages_post (body : json) : M response :=
  zValidator CarouselImageCreateSchema body (fun data =>
    let filename := data !! "filename" in
    let row := data !! "row" in
    let* filePath := join_filesDir filename in
    let* found := accessible filePath in
    if negb found then ret (c_json (Json_error "File not found") 404) else
    let* result :=
      Db.run E (Insert CarouselImage
                  (object_of [("filename", plain filename); ("row", plain row)])) in
    ret (c_json (Json_message "Carousel image created successfully" (head result)) 201)).

Definition carouselImages_patch (id : string) (body : json) : M response :=
  zValidator IdParamSchema (params "id" id) (fun param =>
  zValidator CarouselImageUpdateSchema body (fun data =>
    let id := number_of (param !! "id") in
    let filename := data !! "filename" in
    let row := data !! "row" in
    if (bool_decide (filename = None) && bool_decide (row = None))%bool then
      ret (c_json (Json_error "At least one field (filename or row) is required") 400)
    else
    let* missing :=
      if truthy filename then
        let* filePath := join_filesDir filename in
        let* found := accessible filePath in
        ret (negb found)
      else ret false in
    if (missing : bool) then ret (c_json (Json_error "File not found") 404) else
    let updates := object_of [("filename", plain filename); ("row", plain row)] in
    let* result := Db.run E (Update CarouselImage updates id) in
    match result with
    | [] => ret (not_found "Carousel image")
    | r :: _ => ret (c_json (Json_message "Carousel image updated successfully" (Some r)) 200)
    end)).

Definition carouselImages_delete (id : string) : M response :=
  zValidator IdParamSchema (params "id" id) (fun param =>
    let id := number_of (param !! "id") in
    let* result := Db.run E (Delete CarouselImage id) in
    match result with
    | [] => ret (not_found "Carousel image")
    | r :: _ => ret (c_json (Json_message "Carousel image deleted successfully" (Some r)) 200)
    end).

Definition carouselImages_list : M response :=
  let* images := Db.run E (Select CarouselImage) in
  ret (c_json (Json_data images) 200).

Definition carouselImages_get (id : string) : M response :=
  zValidator IdParamSchema (params "id" id) (fun param =>
    let id := number_of (param !! "id") in
    let* image := Db.run E (SelectById CarouselImage id) in
    match image with
    | [] => ret (not_found "Carousel image")
    | r :: _ => ret (c_json (Json_datum (Some r)) 200)
    end).

(** [GET /carousel-images/row/:rowId] *)
Definition carouselImages_get_row (rowId : string) : M response :=
  zValidator RowIdParamSchema (params "rowId" rowId) (fun param =>
    let rowId := number_of (param !! "rowId") in
    let* images := Db.run E (SelectByRowOrderByIndex rowId) in
    ret (c_json (Json_data images) 200)).

(** **** [src/routes/works.ts] *)

Definition works_post (body : json) : M response :=
  zValidator WorkCreateSchema body (fun data =>
    let title := data !! "title" in
    let image := data !! "image" in
    let* filePath := join_filesDir image in
    let* found := accessible filePath in
    if negb found then ret (c_json (Json_error "File not found") 404) else
    let* result :=
      Db.run E (Insert Work (object_of [("title", plain title); ("image", plain image)])) in
    ret (c_json (Json_message "Work created successfully" (head result)) 201)).

Definition works_patch (id : string) (body : json) : M response :=
  zValidator IdParamSchema (params "id" id) (fun param =>
  zValidator WorkUpdateSchema body (fun data =>
    let id := number_of (param !! "id") in
    let title := data !! "title" in
    let image := data !! "image" in
    if (bool_decide (title = None) && bool_decide (image = None))%bool then
      ret (c_json (Json_error "At least one field (title or image) is required") 400)
    else
    let* missing :=
      if truthy image then
        let* filePath := join_filesDir image in
        let* found := accessible filePath in
        ret (negb found)
      else ret false in
    if (missing : bool) then ret (c_json (Json_error "File not found") 404) else
    let updates := object_of [("title", plain title); ("image", plain image)] in
    let* result := Db.run E (Update Work updates id) in
    match result with
    | [] => ret (not_found "Work")
    | r :: _ => ret (c_json (Json_message "Work updated successfully" (Some r)) 200)
    end)).

Definition works_delete (id : string) : M response :=
  zValidator IdParamSchema (params "id" id) (fun param =>
    let id := number_of (param !! "id") in
    let* result := Db.run E (Delete Work id) in
    match result with
    | [] => ret (not_found "Work")
    | r :: _ => ret (c_json (Json_message "Work deleted successfully" (Some r)) 200)
    end).

Definition works_list : M response :=
  let* works := Db.run E (Select Work) in
  ret (c_json (Json_data works) 200).

Definition works_get (id : string) : M response :=
  zValidator IdParamSchema (params "id" id) (fun param =>
    let id := number_of (param !! "id") in
    let* work := Db.run E (SelectById Work id) in
    match work with
    | [] => ret (not_found "Work")
    | r :: _ => ret (c_json (Json_datum (Some r)) 200)
    end).

(** **** [src/routes/testimonials.ts] *)

Definition testimonials_post (body : json) : M response :=
  zValidator TestimonialCreateSchema body (fun testimonialData =>
    try_catch
      (let* result := Db.run E (Insert Testimonial (Plain <$> testimonialData)) in
       ret (c_json (Json_message "Testimonial created successfully" (head result)) 201))
      (fun _ => ret (c_json (Json_error "Failed to create testimonial") 500))).

Definition testimonials_patch (id : string) (body : json) : M response :=
  zValidator IdParamSchema (params "id" id) (fun param =>
  zValidator TestimonialUpdateSchema body (fun testimonialData =>
    let id := number_of (param !! "id") in
    if (length (Object_keys testimonialData) =? 0)%nat then
      ret (c_json (Json_error "At least one field is required for update") 400)
    else
    try_catch
      (let* result := Db.run E (Update Testimonial (Plain <$> testimonialData) id) in
       match result with
       | [] => ret (not_found "Testimonial")
       | r :: _ => ret (c_json (Json_message "Testimonial updated successfully" (Some r)) 200)
       end)
      (fun _ => ret (c_json (Json_error "Failed to update testimonial") 500)))).

Definition testimonials_delete (id : string) : M response :=
  zValidator IdParamSchema (params "id" id) (fun param =>
    let id := number_of (param !! "id") in
    try_catch
      (let* result := Db.run E (Delete Testimonial id) in
       match result with
       | [] => ret (not_found "Testimonial")
       | r :: _ => ret (c_json (Json_message "Testimonial deleted successfully" (Some r)) 200)
       end)
      (fun _ => ret (c_json (Json_error "Failed to delete testimonial") 500))).

Definition testimonials_list : M response :=
  try_catch
    (let* all := Db.run E (Select Testimonial) in
     ret (c_json (Json_data all) 200))
    (fun _ => ret (c_json (Json_error "Failed to fetch testimonials") 500)).

Definition testimonials_get (id : string) : M response :=
  zValidator IdParamSchema (params "id" id) (fun param =>
    let id := number_of (param !! "id") in
    try_catch
      (let* found := Db.run E (SelectById Testimonial id) in
       match found with
       | [] => ret (not_found "Testimonial")
       | r :: _ => ret (c_json (Json_datum (Some r)) 200)
       end)
      (fun _ => ret (c_json (Json_error "Failed to fetch testimonial") 500))).

(** **** [src/routes/promotionalOffers.ts] *)

Definition promotionalOffers_post (body : json) : M response :=
  zValidator PromotionalOfferCreateSchema body (fun offerData =>
    try_catch
      (let* missing := first_missing (elements (offerData !! "images")) in
       match missing with
       | Some filename => ret (c_json (Json_error ("File not found: " +:+ filename)) 404)
       | None =>
           let* result := Db.run E (Insert PromotionalOffer (Plain <$> offerData)) in
           ret (c_json (Json_message "Promotional offer created successfully"
                          (head result)) 201)
       end)
      (fun _ => ret (c_json (Json_error "Failed to create promotional offer") 500))).

Definition promotionalOffers_patch (id : string) (body : json) : M response :=
  zValidator IdParamSchema (params "id" id) (fun param =>
  zValidator PromotionalOfferUpdateSchema body (fun offerData =>
    let id := number_of (param !! "id") in
    if (length (Object_keys offerData) =? 0)%nat then
      ret (c_json (Json_error "At least one field is required for update") 400)
    else
    try_catch
      (let* missing :=
         if truthy (offerData !! "images")
         then first_missing (elements (offerData !! "images"))
         else ret None in
       match missing with
       | Some filename => ret (c_json (Json_error ("File not found: " +:+ filename)) 404)
       | None =>
           let* result := Db.run E (Update PromotionalOffer (Plain <$> offerData) id) in
           match result with
           | [] => ret (not_found "Promotional offer")
           | r :: _ =>
               ret (c_json (Json_message "Promotional offer updated successfully"
                              (Some r)) 200)
           end
       end)
      (fun _ => ret (c_json (Json_error "Failed to update promotional offer") 500)))).

Definition promotionalOffers_delete (id : string) : M response :=
  zValidator IdParamSchema (params "id" id) (fun param =>
    let id := number_of (param !! "id") in
    try_catch
      (let* result := Db.run E (Delete PromotionalOffer id) in
       match result with
       | [] => ret (not_found "Promotional offer")
       | r :: _ => ret (c_json (Json_message "Promotional offer deleted successfully" (Some r)) 200)
       end)
      (fun _ => ret (c_json (Json_error "Failed to delete promotional offer") 500))).

Definition promotionalOffers_list : M response :=
  try_catch
    (let* all := Db.run E (Select PromotionalOffer) in
     ret (c_json (Json_data all) 200))
    (fun _ => ret (c_json (Json_error "Failed to fetch promotional offers") 500)).

Definition promotionalOffers_get (id : string) : M response :=
  zValidator IdParamSchema (params "id" id) (fun param =>
    let id := number_of (param !! "id") in
    try_catch
      (let* found := Db.run E (SelectById PromotionalOffer id) in
       match found with
       | [] => ret (not_found "Promotional offer")
       | r :: _ => ret (c_json (Json_datum (Some r)) 200)
       end)
      (fun _ => ret (c_json (Json_error "Failed to fetch promotional offer") 500))).

(** **** [src/routes/attorneys.ts] *)

Definition attorneys_post (body : json) : M response :=
  zValidator AttorneyCreateSchema body (fun attorneyData =>
    let* filePath := join_filesDir (attorneyData !! "image") in
    let* found := accessible filePath in
    if negb found then ret (c_json (Json_error "File not found") 404) else
    try_catch
      (let* result := Db.run E (Insert Attorney (Plain <$> attorneyData)) in
       ret (c_json (Json_message "Attorney created successfully" (head result)) 201))
      (fun _ => ret (c_json (Json_error "Failed to create attorney") 500))).

Definition attorneys_patch (id : string) (body : json) : M response :=
  zValidator IdParamSchema (params "id" id) (fun param =>
  zValidator AttorneyUpdateSchema body (fun attorneyData =>
    let id := number_of (param !! "id") in
    if (length (Object_keys attorneyData) =? 0)%nat then
      ret (c_json (Json_error "At least one field is required for update") 400)
    else
    try_catch
      (let* missing :=
         if truthy (attorneyData !! "image") then
           let* filePath := join_filesDir (attorneyData !! "image") in
           let* found := accessible filePath in
           ret (negb found)
         else ret false in
       if (missing : bool) then ret (c_json (Json_error "File not found") 404) else
       let* result := Db.run E (Update Attorney (Plain <$> attorneyData) id) in
       match result with
       | [] => ret (not_found "Attorney")
       | r :: _ => ret (c_json (Json_message "Attorney updated successfully" (Some r)) 200)
       end)
      (fun _ => ret (c_json (Json_error "Failed to update attorney") 500)))).

Definition attorneys_delete (id : string) : M response :=
  zValidator IdParamSchema (params "id" id) (fun param =>
    let id := number_of (param !! "id") in
    try_catch
      (let* result := Db.run E (Delete Attorney id) in
       match result with
       | [] => ret (not_found "Attorney")
       | r :: _ => ret (c_json (Json_message "Attorney deleted successfully" (Some r)) 200)
       end)
      (fun _ => ret (c_json (Json_error "Failed to delete attorney") 500))).

Definition attorneys_list : M response :=
  try_catch
    (let* all := Db.run E (Select Attorney) in
     ret (c_json (Json_data all) 200))
    (fun _ => ret (c_json (Json_error "Failed to fetch attorneys") 500)).

Definition attorneys_get (id : string) : M response :=
  zValidator IdParamSchema (params "id" id) (fun param =>
    let id := number_of (param !! "id") in
    try_catch
      (let* found := Db.run E (SelectById Attorney id) in
       match found with
       | [] => ret (not_found "Attorney")
       | r :: _ => ret (c_json (Json_datum (Some r)) 200)
       end)
      (fun _ => ret (c_json (Json_error "Failed to fetch attorney") 500))).

(** **** The blog routes (in [src/routes/testimonials.ts]) *)

Definition blogs_post (body : json) : M response :=
  zValidator BlogCreateSchema body (fun blogData =>
    let* filePath := join_filesDir (blogData !! "image") in
    let* found := accessible filePath in
    if negb found then ret (c_json (Json_error "File not found") 404) else
    try_catch
      (let* result := Db.run E (Insert Blog (Plain <$> blogData)) in
       ret (c_json (Json_message "Blog created successfully" (head result)) 201))
      (fun _ => ret (c_json (Json_error "Failed to create blog") 500))).

(** [new Date()] *)
Definition new_Date : M Z :=
  fun w => (Ok (Date_now E (draws w)), tick w).

Definition blogs_patch (id : string) (body : json) : M response :=
  zValidator IdParamSchema (params "id" id) (fun param =>
  zValidator BlogUpdateSchema body (fun blogData =>
    let id := number_of (param !! "id") in
    if (length (Object_keys blogData) =? 0)%nat then
      ret (c_json (Json_error "At least one field is required for update") 400)
    else
    try_catch
      (let* missing :=
         if truthy (blogData !! "image") then
           let* filePath := join_filesDir (blogData !! "image") in
           let* found := accessible filePath in
           ret (negb found)
         else ret false in
       if (missing : bool) then ret (c_json (Json_error "File not found") 404) else
       let* now := new_Date in
       let* result :=
         Db.run E (Update Blog (<["updated_at" := DateValue now]> (Plain <$> blogData)) id) in
       match result with
       | [] => ret (not_found "Blog")
       | r :: _ => ret (c_json (Json_message "Blog updated successfully" (Some r)) 200)
       end)
      (fun _ => ret (c_json (Json_error "Failed to update blog") 500)))).

Definition blogs_delete (id : string) : M response :=
  zValidator IdParamSchema (params "id" id) (fun param =>
    let id := number_of (param !! "id") in
    try_catch
      (let* result := Db.run E (Delete Blog id) in
       match result with
       | [] => ret (not_found "Blog")
       | r :: _ => ret (c_json (Json_message "Blog deleted successfully" (Some r)) 200)
       end)
      (fun _ => ret (c_json (Json_error "Failed to delete blog") 500))).

Definition blogs_list : M response :=
  try_catch
    (let* all := Db.run E (Select Blog) in
     ret (c_json (Json_data all) 200))
    (fun _ => ret (c_json (Json_error "Failed to fetch blogs") 500)).

Definition blogs_get (id : string) : M response :=
  zValidator IdParamSchema (params "id" id) (fun param =>
    let id := number_of (param !! "id") in
    try_catch
      (let* found := Db.run E (SelectById Blog id) in
       match found with
       | [] => ret (not_found "Blog")
       | r :: _ => ret (c_json (Json_datum (Some r)) 200)
       end)
      (fun _ => ret (c_json (Json_error "Failed to fetch blog") 500))).

(** **** The offer routes (in [src/routes/files.ts]) *)

(** [sql`${v}::numeric`] *)
Definition sql_numeric (v : option json) : param :=
  SqlNumeric (default JNull v).

Definition offers_post (body : json) : M response :=
  zValidator OfferCreateSchema body (fun offerData =>
    try_catch
      (let* result :=
         Db.run E (Insert Offer
                     (object_of [("title", plain (offerData !! "title"));
                                 ("description", plain (offerData !! "description"));
                                 ("price", Some (sql_numeric (offerData !! "price")))])) in
       ret (c_json (Json_message "Offer created successfully" (head result)) 201))
      (fun _ => ret (c_json (Json_error "Failed to create offer") 500))).

Definition offers_patch (id : string) (body : json) : M response :=
  zValidator IdParamSchema (params "id" id) (fun param =>
  zValidator OfferUpdateSchema body (fun offerData =>
    let id := number_of (param !! "id") in
    if (length (Object_keys offerData) =? 0)%nat then
      ret (c_json (Json_error "At least one field is required for update") 400)
    else
    try_catch
      (let updates :=
         object_of [("title", plain (offerData !! "title"));
                    ("description", plain (offerData !! "description"));
                    ("price", (fun v => sql_numeric (Some v)) <$> offerData !! "price")] in
       let* result := Db.run E (Update Offer updates id) in
       match result with
       | [] => ret (not_found "Offer")
       | r :: _ => ret (c_json (Json_message "Offer updated successfully" (Some r)) 200)
       end)
      (fun _ => ret (c_json (Json_error "Failed to update offer") 500)))).

Definition offers_delete (id : string) : M response :=
  zValidator IdParamSchema (params "id" id) (fun param =>
    let id := number_of (param !! "id") in
    try_catch
      (let* result := Db.run E (Delete Offer id) in
       match result with
       | [] => ret (not_found "Offer")
       | r :: _ => ret (c_json (Json_message "Offer deleted successfully" (Some r)) 200)
       end)
      (fun _ => ret (c_json (Json_error "Failed to delete offer") 500))).

Definition offers_list : M response :=
  try_catch
    (let* all := Db.run E (Select Offer) in
     ret (c_json (Json_data all) 200))
    (fun _ => ret (c_json (Json_error "Failed to fetch offers") 500)).

Definition offers_get (id : string) : M response :=
  zValidator IdParamSchema (params "id" id) (fun param =>
    let id := number_of (param !! "id") in
    try_catch
      (let* found := Db.run E (SelectById Offer id) in
       match found with
       | [] => ret (not_found "Offer")
       | r :: _ => ret (c_json (Json_datum (Some r)) 200)
       end)
      (fun _ => ret (c_json (Json_error "Failed to fetch offer") 500))).

(** *** The routes by entity kind *)

Definition create_route (k : kind) : json -> M response :=
  match k with
  | CarouselImage => carouselImages_post
  | Testimonial => testimonials_post
  | PromotionalOffer => promotionalOffers_post
  | Attorney => attorneys_post
  | Work => works_post
  | Offer => offers_post
  | Blog => blogs_post
  end.

Definition update_route (k : kind) : string -> json -> M response :=
  match k with
  | CarouselImage => carouselImages_patch
  | Testimonial => testimonials_patch
  | PromotionalOffer => promotionalOffers_patch
  | Attorney => attorneys_patch
  | Work => works_patch
  | Offer => offers_patch
  | Blog => blogs_patch
  end.

Definition delete_route (k : kind) : string -> M response :=
  match k with
  | CarouselImage => carouselImages_delete
  | Testimonial => testimonials_delete
  | PromotionalOffer => promotionalOffers_delete
  | Attorney => attorneys_delete
  | Work => works_delete
  | Offer => offers_delete
  | Blog => blogs_delete
  end.

Definition get_route (k : kind) : string -> M response :=
  match k with
  | CarouselImage => carouselImages_get
  | Testimonial => testimonials_get
  | PromotionalOffer => promotionalOffers_get
  | Attorney => attorneys_get
  | Work => works_get
  | Offer => offers_get
  | Blog => blogs_get
  end.

End Routes.

(** ** A sample environment and world

    A host whose collaborators never fail: the clock advances by one
    millisecond per reading, the encoder puts a JPEG start-of-image marker
    before the input, every string passes the format checks, the new
    version of a row is put after the rows present. The texts of the
    examples are ASCII, so that the case table is not consulted. *)

Definition sample_env : env :=
  {| homedir := "/home/app";
     Date_now := fun n => 1700000000000 + Z.of_nat n;
     Math_random_base36 := fun _ => "k3j9x2ab";
     sharp_jpeg := fun _ b => Some (Byte.xff :: Byte.xd8 :: Byte.xff :: b);
     sql_fails := fun _ => false;
     sendMail_fails := fun _ => None;
     EMAIL_TO := "office@example.com";
     format_ok := fun _ _ => true;
     unicode_lower := fun s => s;
     tuple_slot := fun _ present _ => length present |}.

Definition empty_table : table := {| rows := []; next_id := 1; next_index := 1 |}.

(** The world after start-up: the blob directory exists and is empty. *)
Definition initial_world (E : env) : world :=
  {| fs := {[ filesDir E := Directory ]};
     db := fun _ => empty_table;
     trace := [];
     draws := 0 |}.

Definition photo_png : File.t :=
  {| File.name := "photo.png"; File.type := "image/png";
     File.arrayBuffer := [Byte.x89; Byte.x50; Byte.x4e; Byte.x47] |}.

Definition notes_txt : File.t :=
  {| File.name := "notes.txt"; File.type := "text/plain";
     File.arrayBuffer := [Byte.x68; Byte.x69] |}.

(** ** Notions used in the statements *)

(** No value of the form data is a file. *)
Definition no_file (v : form_value) : Prop :=
  match v with
  | Single item => is_file item = false
  | Many items => Forall (fun item => is_file item = false) items
  end.

(** The two checks an upload entry must pass, as the spec words them: the
    declared media type is an image or a video type, and the size is at
    most 50 MiB for an image and 1 GiB for a video. *)
Definition invalid_type (file : File.t) : bool :=
  (negb (JS.startsWith (File.type file) "image/") &&
   negb (JS.startsWith (File.type file) "video/"))%bool.

Definition too_large (file : File.t) : bool :=
  if JS.startsWith (File.type file) "image/"
  then 50 * 1024 * 1024 <? File.size file
  else 1024 * 1024 * 1024 <? File.size file.

(** The error reported for an entry that fails one of them. *)
Definition rejection (file : File.t) : string :=
  if invalid_type file
  then "Invalid file type for " +:+ File.name file +:+
       ". Only image and video files are allowed."
  else "File " +:+ File.name file +:+ " exceeds the " +:+
       (if JS.startsWith (File.type file) "image/" then "50MB" else "1GB") +:+
       " limit.".

(** A number the parameter validator accepts: finite and at least 1. *)
Definition accepted_id (n : JS.number) : bool :=
  (JS.isFinite n && JS.geq n 1)%bool.

(** The schemas of the routes, by entity kind. *)
Definition CreateSchema (k : kind) : Zod.object :=
  match k with
  | CarouselImage => CarouselImageCreateSchema
  | Testimonial => TestimonialCreateSchema
  | PromotionalOffer => PromotionalOfferCreateSchema
  | Attorney => AttorneyCreateSchema
  | Work => WorkCreateSchema
  | Offer => OfferCreateSchema
  | Blog => BlogCreateSchema
  end.

Definition UpdateSchema (k : kind) : Zod.object :=
  match k with
  | CarouselImage => CarouselImageUpdateSchema
  | Testimonial => TestimonialUpdateSchema
  | PromotionalOffer => PromotionalOfferUpdateSchema
  | Attorney => AttorneyUpdateSchema
  | Work => WorkUpdateSchema
  | Offer => OfferUpdateSchema
  | Blog => BlogUpdateSchema
  end.

(** The fields an Update of the kind recognizes. *)
Definition recognized (k : kind) : list string := map fst (Zod.shape (UpdateSchema k)).

(** An attorney on file, and the world that holds just this record. *)
Definition ann : row :=
  {[ "id" := DInt 1; "name" := DText "Ann"; "designation" := DText "Partner";
     "image" := DText "ann.jpg" ]}.

Definition attorney_world : world :=
  set_table Attorney {| rows := [ann]; next_id := 2; next_index := 1 |}
    (initial_world sample_env).

(** The field of a kind that names one file of the blob directory. *)
Definition single_reference (k : kind) : option string :=
  match k with
  | CarouselImage => Some "filename"
  | Attorney | Work | Blog => Some "image"
  | Testimonial | PromotionalOffer | Offer => None
  end.

(** The world after the existence checks of the given paths, in order. *)
Definition after_checks (paths : list string) (w : world) : world :=
  foldl (fun w p => log (FsAccess p) w) w paths.

(** The path under which the sample environment stores [photo_png]. *)
Definition stored_photo : string := "/home/app/bright-ants-files/1700000000000-k3j9x2ab.png".

(** Three carousel images inserted out of order of [index]. *)
Definition carousel_row (id r index : Z) : row :=
  {[ "id" := DInt id; "filename" := DText "a.jpg"; "row" := DInt r;
     "index" := DInt index ]}.

Definition carousel_world : world :=
  set_table CarouselImage
    {| rows := [carousel_row 1 2 30; carousel_row 2 1 20; carousel_row 3 2 10];
       next_id := 4; next_index := 31 |}
    (initial_world sample_env).

(** A Create of a carousel image that names a file the blob directory does
    not hold. *)
Definition carousel_missing : json :=
  JObj [("filename", JStr "missing.jpg"); ("row", JNum (JS.Fin 1))].

(** The JavaScript number of a price of [cents] hundredths: the binary64
    value a decimal with two fraction digits denotes. *)
Definition price_of_cents (cents : Z) : JS.number := JS.round (cents # 100).

(** An offer as the table holds it. *)
Definition offer_row (id : Z) (title description : string) (cents : Z) : row :=
  {[ "id" := DInt id; "title" := DText title; "description" := DText description;
     "price" := DNumeric cents ]}.

(** A Create of an offer priced 19.99. *)
Definition offer_1999 : list (string * json) :=
  [("title", JStr "Will"); ("description", JStr "Drafting a will");
   ("price", JNum (price_of_cents 1999))].

(** A record with the text of a column replaced, when a text is given. *)
Definition with_text (column : string) (text : option string) (r : row) : row :=
  match text with
  | Some s => <[ column := DText s ]> r
  | None => r
  end.

(** An Update that gives an offer a new title and the price 19.99, and a
    world that holds the offer at 25.00. *)
Definition offer_retitled : list (string * json) :=
  [("title", JStr "Last will"); ("price", JNum (price_of_cents 1999))].

Definition offer_world : world :=
  set_table Offer
    {| rows := [offer_row 1 "Will" "Drafting a will" 2500]; next_id := 2; next_index := 1 |}
    (initial_world sample_env).

(** ** The order of an upload

    The files of a request in the order in which the upload takes them,
    told from the fields of the request as they were sent. *)

(** The names of the fields, each once, in the order of first occurrence. *)
Definition field_names (request : list (string * form_item)) : list string :=
  foldl (fun names field =>
           if bool_decide (fst field ∈ names) then names
           else (names ++ [fst field])%list)
        [] request.

(** The values sent under a name, in the order sent. *)
Definition values_under (key : string) (request : list (string * form_item))
  : list form_item :=
  omap (fun field => if String.eqb (fst field) key then Some (snd field) else None)
       request.

(** The names in the order in which the upload visits them: the names
    that are array indices first, by ascending index, then the others in
    the order of first occurrence. *)
Definition names_in_order (request : list (string * form_item)) : list string :=
  let names := field_names request in
  (map snd (sort_by_index
              (omap (fun key => (fun i => (i, key)) <$> array_index key) names))
   ++ filter (fun key => array_index key = None) names)%list.

(** The files taken from under a name: the files sent under it, when the
    first value sent under it is a file; none of them otherwise. *)
Definition collected_under (key : string) (request : list (string * form_item))
  : list File.t :=
  let values := values_under key request in
  if from_option is_file false (head values) then files_of values else [].

Definition processing_order (request : list (string * form_item)) : list File.t :=
  concat (map (fun key => collected_under key request) (names_in_order request)).

(** A video, and a request that sends it after a file of a type that is
    not allowed, under the name of the first file. *)
Definition clip_mp4 : File.t :=
  {| File.name := "clip.MP4"; File.type := "video/mp4";
     File.arrayBuffer := [Byte.x00; Byte.x00; Byte.x00; Byte.x18] |}.

Definition mixed_request : list (string * form_item) :=
  [("files", FormFile photo_png); ("doc", FormFile notes_txt);
   ("files", FormFile clip_mp4)].

(** The property the parsed body holds for a name, from the values sent
    under it. *)
Definition property_of (key : string) (values : list form_item) : form_value :=
  match values with
  | [v] => if ends_with_brackets key then Many [v] else Single v
  | _ => Many values
  end.

(** ** [src/config/env.ts] and the transport of [src/utils/email.ts] *)

Module Config.

(** [process.env]: the variables that are set, each a text. *)
Abbreviation variables := (gmap string string).

Record EnvConfig := {
  DATABASE_URL : string;
  SMTP_HOST : string;
  SMTP_PORT : JS.number;
  SMTP_SECURE : bool;
  SMTP_USER : string;
  SMTP_PASS : string;
  EMAIL_FROM : option string;
  EMAIL_TO : string;
  EMAIL_TO_OVERRIDE : option string
}.

(** [v || d] for a text that may be missing. *)
Definition or_else (v : option string) (d : string) : string :=
  match v with
  | None | Some EmptyString => d
  | Some s => s
  end.

Section Validate.

Variable format_ok : string -> string -> bool.

(** A property whose schema gives a text. *)
Definition text (s : Zod.schema) (v : option string) : option string :=
  match Zod.parse format_ok s (JStr <$> v) with
  | Zod.Value (JStr x) => Some x
  | _ => None
  end.

(** A property whose schema gives a text or nothing. *)
Definition optional_text (s : Zod.schema) (v : option string) : option (option string) :=
  match Zod.parse format_ok (Zod.optional s) (JStr <$> v) with
  | Zod.Value (JStr x) => Some (Some x)
  | Zod.Undefined => Some None
  | _ => None
  end.

(** The function given to [z.preprocess] for [SMTP_PORT]: a text that
    [parseInt] reads becomes the number read. *)
Definition preprocess (val : option string) : option json :=
  match val with
  | Some s =>
      let num := JS.parseInt s 10 in
      Some (match num with JS.NaN => JStr s | _ => JNum num end)
  | None => None
  end.

(** [z.number().int().positive().min(1).max(65535)] *)
Definition port_number (v : option json) : option JS.number :=
  match v with
  | Some (JNum n) =>
      match JS.to_integer n with
      | Some z => if ((0 <? z) && (1 <=? z) && (z <=? 65535))%bool then Some n else None
      | None => None
      end
  | _ => None
  end.

(** [z.string().optional().default("false").transform((val) => val === "true")] *)
Definition secure_flag (v : option string) : option bool :=
  match Zod.parse format_ok
          (Zod.default (Zod.optional (Zod.string_min 0)) (JStr "false")) (JStr <$> v) with
  | Zod.Value (JStr x) => Some (bool_decide (x = "true"))
  | Zod.Value _ | Zod.Undefined => Some false
  | Zod.Invalid => None
  end.

(** [EnvSchema.parse(process.env)]; [None] when the schema reports an
    issue. The variables the schema does not name are dropped. *)
Definition EnvSchema_parse (env : variables) : option EnvConfig :=
  database_url ← text (Zod.string_min 1) (env !! "DATABASE_URL");
  smtp_host ← text (Zod.string_min 1) (env !! "SMTP_HOST");
  smtp_port ← port_number (preprocess (env !! "SMTP_PORT"));
  smtp_secure ← secure_flag (env !! "SMTP_SECURE");
  smtp_user ← text (Zod.string_min 1) (env !! "SMTP_USER");
  smtp_pass ← text (Zod.string_min 1) (env !! "SMTP_PASS");
  email_from ← optional_text (Zod.string_format "email") (env !! "EMAIL_FROM");
  email_to ← text (Zod.string_format "email") (env !! "EMAIL_TO");
  email_to_override ←
    optional_text (Zod.string_format "email") (env !! "EMAIL_TO_OVERRIDE");
  Some {| DATABASE_URL := database_url; SMTP_HOST := smtp_host;
          SMTP_PORT := smtp_port; SMTP_SECURE := smtp_secure;
          SMTP_USER := smtp_user; SMTP_PASS := smtp_pass;
          EMAIL_FROM := email_from; EMAIL_TO := email_to;
          EMAIL_TO_OVERRIDE := email_to_override |}.

(** [validateEnvVars()]; [None] stands for the error it throws, whose
    text is put together from the issues of the schema. *)
Definition validateEnvVars (env : variables) : option EnvConfig :=
  config ← EnvSchema_parse env;
  Some (match EMAIL_FROM config with
        | None | Some EmptyString =>
            {| DATABASE_URL := DATABASE_URL config; SMTP_HOST := SMTP_HOST config;
               SMTP_PORT := SMTP_PORT config; SMTP_SECURE := SMTP_SECURE config;
               SMTP_USER := SMTP_USER config; SMTP_PASS := SMTP_PASS config;
               EMAIL_FROM := Some (SMTP_USER config); EMAIL_TO := EMAIL_TO config;
               EMAIL_TO_OVERRIDE := EMAIL_TO_OVERRIDE config |}
        | Some _ => config
        end).

(** [getEnvConfig()], with the module's variable [envConfig] passed in
    and out: the variables are validated on the first call only. *)
Definition getEnvConfig (envConfig : option EnvConfig) (env : variables)
  : option EnvConfig * option EnvConfig :=
  match envConfig with
  | Some config => (Some config, envConfig)
  | None =>
      match validateEnvVars env with
      | Some config => (Some config, Some config)
      | None => (None, None)
      end
  end.

End Validate.

(** The configuration [createTransporter] of [src/utils/email.ts] hands
    to [nodemailer.createTransport]. *)
Record SMTPConfig := {
  host : string;
  port : JS.number;
  secure : bool;
  auth_user : string;
  auth_pass : string
}.

Definition createTransporter (env : variables) : SMTPConfig :=
  {| host := or_else (env !! "SMTP_HOST") "";
     port := JS.parseInt (or_else (env !! "SMTP_PORT") "587") 10;
     secure := bool_decide (env !! "SMTP_SECURE" = Some "true");
     auth_user := or_else (env !! "SMTP_USER") "";
     auth_pass := or_else (env !! "SMTP_PASS") "" |}.

End Config.

(** A complete set of variables; the port has a remark after its digits. *)
Definition sample_variables : Config.variables :=
  {[ "DATABASE_URL" := "postgres://localhost/app"; "SMTP_HOST" := "smtp.example.com";
     "SMTP_PORT" := "587 # submission"; "SMTP_USER" := "mailer";
     "SMTP_PASS" := "secret"; "EMAIL_TO" := "office@example.com" ]}.

(** ** Further notions used in the statements *)

(** [GET /] of each kind: the whole table. *)
Definition list_route (E : env) (k : kind) : M response :=
  match k with
  | CarouselImage => carouselImages_list E
  | Testimonial => testimonials_list E
  | PromotionalOffer => promotionalOffers_list E
  | Attorney => attorneys_list E
  | Work => works_list E
  | Offer => offers_list E
  | Blog => blogs_list E
  end.

(** The name the answers give to a record of the kind. *)
Definition label (k : kind) : string :=
  match k with
  | CarouselImage => "Carousel image"
  | Testimonial => "Testimonial"
  | PromotionalOffer => "Promotional offer"
  | Attorney => "Attorney"
  | Work => "Work"
  | Offer => "Offer"
  | Blog => "Blog"
  end.

(** The id of a stored record. *)
Definition id_of (r : row) : option Z :=
  match r !! "id" with
  | Some (DInt z) => Some z
  | _ => None
  end.

(** The ids of a table are in order when the identity sequence is
    positive, every record has an id below its next value, and no two
    records share an id. *)
Definition ids_in_order (t : table) : Prop :=
  1 <= next_id t
  /\ Forall (fun r => exists z, id_of r = Some z /\ z < next_id t) (rows t)
  /\ NoDup (map id_of (rows t)).

(** Two worlds with the same files and the same tables. *)
Definition same_store (w w' : world) : Prop := fs w' = fs w /\ db w' = db w.

(** A Create of a work whose image is in the blob directory, and the world
    in which it is. *)
Definition work_deed : json :=
  JObj [("title", JStr "Deed"); ("image", JStr "deed.jpg")].

Definition deed_world : world :=
  set_fs (<[ "/home/app/bright-ants-files/deed.jpg" := File [Byte.xff; Byte.xd8] ]>
            (fs (initial_world sample_env)))
    (initial_world sample_env).

(** The world after the Create of [work_deed]. *)
Definition deed_created : world :=
  snd (hono (create_route sample_env Work work_deed) deed_world).

Definition deed_row : row :=
  {[ "id" := DInt 1; "title" := DText "Deed"; "image" := DText "deed.jpg" ]}.

(** An environment whose encoder refuses every image. *)
Definition no_encoder : env :=
  {| homedir := homedir sample_env;
     Date_now := Date_now sample_env;
     Math_random_base36 := Math_random_base36 sample_env;
     sharp_jpeg := fun _ _ => None;
     sql_fails := sql_fails sample_env;
     sendMail_fails := sendMail_fails sample_env;
     EMAIL_TO := EMAIL_TO sample_env;
     format_ok := format_ok sample_env;
     unicode_lower := unicode_lower sample_env;
     tuple_slot := tuple_slot sample_env |}.

(** What the answer to an upload says of one file: an image is reported
    as JPEG with the size of the encoder's output, a video as [video.mp4]
    with its own size. *)
Definition reported (E : env) (file : File.t) (entry : processed) : Prop :=
  if JS.startsWith (File.type file) "image/"
  then exists encoded,
         sharp_jpeg E 80 (File.arrayBuffer file) = Some encoded
         /\ processed_size entry = Z.of_nat (length encoded)
         /\ processed_type entry = "image/jpeg"
  else processed_name entry = "video.mp4"
       /\ processed_size entry = File.size file
       /\ processed_type entry = "video/mp4".

(** The line feed, as a text. *)
Definition LF : string := String (ascii_of_nat 10) "".

(** A decimal digit. *)
Definition decimal_digit (c : ascii) : bool :=
  ((48 <=? nat_of_ascii c)%nat && (nat_of_ascii c <=? 57)%nat)%bool.


(** An environment whose store rejects every statement. *)
Definition broken_store : env :=
  {| homedir := homedir sample_env;
     Date_now := Date_now sample_env;
     Math_random_base36 := Math_random_base36 sample_env;
     sharp_jpeg := sharp_jpeg sample_env;
     sql_fails := fun _ => true;
     sendMail_fails := sendMail_fails sample_env;
     EMAIL_TO := EMAIL_TO sample_env;
     format_ok := format_ok sample_env;
     unicode_lower := unicode_lower sample_env;
     tuple_slot := tuple_slot sample_env |}.

(** The carousel of [carousel_world] with [deed.jpg] in the blob
    directory, and a Create of an image for row 2. *)
Definition carousel_with_deed : world := set_fs (fs deed_world) carousel_world.

Definition carousel_deed : json :=
  JObj [("filename", JStr "deed.jpg"); ("row", JNum (JS.Fin 2))].

(** An upload of an image and a video under one name, with a text and,
    under the name of the text, a further file in between. *)
Definition noted_request : list (string * form_item) :=
  [("files", FormFile photo_png); ("note", FormString "hello");
   ("note", FormFile notes_txt); ("files", FormFile clip_mp4)].

(** A contact request whose message is markup. *)
Definition contact_ann : list (string * json) :=
  [("firstname", JStr "Ann"); ("lastname", JStr "Lee");
   ("email", JStr "ann@example.com"); ("message", JStr "<b>hello</b>")].

(** * Properties *)

Lemma append_cons (c : ascii) (a b : string) : String c a +:+ b = String c (a +:+ b).
Proof. reflexivity. Qed.

Lemma append_nil (b : string) : "" +:+ b = b.
Proof. reflexivity. Qed.

Lemma prefix_spec (p s : string) :
  String.prefix p s = true <-> exists b, s = p +:+ b.
Proof.
  revert s. induction p as [|c p IH]; intros s.
  - split; [intros _; by exists s | intros _; by destruct s].
  - destruct s as [|c' s].
    { split; [discriminate | intros [b Hb]; discriminate]. }
    cbn [String.prefix].
    destruct (Ascii.ascii_dec c c') as [->|Hne].
    + rewrite IH. split; intros [b Hb]; exists b; rewrite append_cons in *; congruence.
    + split; [discriminate | intros [b Hb]; rewrite append_cons in Hb; congruence].
Qed.

(** [includes] finds exactly the substrings. *)
Lemma includes_spec (s sub : string) :
  JS.includes s sub = true <-> exists a b, s = a +:+ sub +:+ b.
Proof.
  induction s as [|c s IH]; cbn [JS.includes].
  - rewrite orb_false_r, prefix_spec. split.
    + intros [b Hb]. by exists "", b.
    + intros [a [b Hb]]. destruct a; [by exists b | discriminate].
  - rewrite orb_true_iff, prefix_spec, IH. split.
    + intros [[b Hb] | [a [b Hb]]]; [by exists "", b |].
      exists (String c a), b. by rewrite append_cons, Hb.
    + intros [a [b Hb]]. destruct a as [|c' a].
      * left. by exists b.
      * right. exists a, b. rewrite append_cons in Hb. congruence.
Qed.

Lemma includes_infix (a sub b : string) : JS.includes (a +:+ sub +:+ b) sub = true.
Proof. apply includes_spec. by exists a, b. Qed.

(** ** Binary64 rounding and decimal printing *)

Section Numbers.

Local Open Scope Q_scope.

Lemma pow_pos (b e : Z) : (0 < b)%Z -> 0 < JS.pow b e.
Proof.
  intros Hb. apply Qpower_0_lt. change 0 with (inject_Z 0). by rewrite <- Zlt_Qlt.
Qed.

Lemma pow_le (b e1 e2 : Z) : (1 <= b)%Z -> (e1 <= e2)%Z -> JS.pow b e1 <= JS.pow b e2.
Proof.
  intros Hb He. apply Qpower_le_compat_l; [done |].
  change 1 with (inject_Z 1). by rewrite <- Zle_Qle.
Qed.

Lemma pow_lt (b e1 e2 : Z) : (1 < b)%Z -> (e1 < e2)%Z -> JS.pow b e1 < JS.pow b e2.
Proof.
  intros Hb He. apply Qpower_lt_compat_l; [done |].
  change 1 with (inject_Z 1). by rewrite <- Zlt_Qlt.
Qed.

Lemma pow_lt_inv (b e1 e2 : Z) : (1 < b)%Z -> JS.pow b e1 < JS.pow b e2 -> (e1 < e2)%Z.
Proof.
  intros Hb He. eapply Qpower_lt_compat_l_inv; [exact He |].
  change 1 with (inject_Z 1). by rewrite <- Zlt_Qlt.
Qed.

Lemma pow_Z (b e : Z) : (0 <= e)%Z -> JS.pow b e == inject_Z (b ^ e).
Proof. intros He. unfold JS.pow. by rewrite Zpower_Qpower. Qed.

Lemma pow_add (b e1 e2 : Z) :
  (0 < b)%Z -> JS.pow b (e1 + e2) == JS.pow b e1 * JS.pow b e2.
Proof.
  intros Hb. apply Qpower_plus. intros H.
  assert (0 < inject_Z b) as Hlt
    by (change 0 with (inject_Z 0); by rewrite <- Zlt_Qlt).
  rewrite H in Hlt. by apply Qlt_irrefl in Hlt.
Qed.

Lemma pow_opp (b e : Z) : JS.pow b (- e) == / JS.pow b e.
Proof. apply Qpower_opp. Qed.

(** The downward search stops at the exponent of [x], when it starts above
    it and has fuel to reach it. *)
Lemma search_exponent_spec (b : Z) (x : Q) (fuel : nat) (t : Z) :
  x < JS.pow b (t + 1) ->
  JS.pow b (t - Z.of_nat fuel) <= x ->
  JS.pow b (JS.search_exponent b fuel x t) <= x
  /\ x < JS.pow b (JS.search_exponent b fuel x t + 1).
Proof.
  revert t. induction fuel as [|fuel IH]; intros t Hhi Hlo; cbn [JS.search_exponent].
  - by rewrite Z.sub_0_r in Hlo.
  - destruct (Qle_bool (JS.pow b t) x) eqn:Hle.
    + by apply Qle_bool_iff in Hle.
    + apply IH.
      * replace (t - 1 + 1)%Z with t by lia.
        apply Qnot_le_lt. intros H. apply Qle_bool_iff in H. congruence.
      * by replace (t - 1 - Z.of_nat fuel)%Z with (t - Z.of_nat (S fuel))%Z by lia.
Qed.

Lemma floor_log_spec (b : Z) (x : Q) :
  (2 <= b)%Z -> 0 < x ->
  JS.pow b (JS.floor_log b x) <= x /\ x < JS.pow b (JS.floor_log b x + 1).
Proof.
  intros Hb Hx. unfold JS.floor_log.
  destruct x as [n d]. cbn [Qnum Qden].
  assert (0 < n)%Z as Hn by (unfold Qlt in Hx; cbn in Hx; lia).
  set (ln := Z.log2 n). set (ld := Z.log2 (Z.pos d)).
  set (hi := Z.max 0 (ln - ld + 1)).
  pose proof (Z.log2_spec n Hn) as [Hn1 Hn2]. fold ln in Hn1, Hn2.
  pose proof (Z.log2_spec (Z.pos d) (Pos2Z.is_pos d)) as [Hd1 Hd2]. fold ld in Hd1, Hd2.
  pose proof (Z.log2_nonneg n) as Hln. fold ln in Hln.
  pose proof (Z.log2_nonneg (Z.pos d)) as Hld. fold ld in Hld.
  apply search_exponent_spec.
  - apply Qlt_le_trans with (JS.pow b hi); [| apply pow_le; lia].
    rewrite pow_Z by lia. unfold Qlt. cbn [Qnum Qden inject_Z].
    rewrite Z.mul_1_r.
    apply Z.lt_le_trans with (2 ^ hi * Z.pos d)%Z;
      [| apply Z.mul_le_mono_nonneg_r; [lia | apply Z.pow_le_mono_l; lia]].
    apply Z.lt_le_trans with (2 ^ hi * 2 ^ ld)%Z;
      [| apply Z.mul_le_mono_nonneg_l; [apply Z.pow_nonneg; lia | done]].
    rewrite <- Z.pow_add_r by lia.
    apply Z.lt_le_trans with (2 ^ Z.succ ln)%Z; [done |].
    apply Z.pow_le_mono_r; lia.
  - rewrite Z2Nat.id by lia.
    replace (hi - (hi + ld + 2))%Z with (- (ld + 2))%Z by lia.
    rewrite pow_opp, pow_Z by lia.
    assert (Z.pos d < b ^ (ld + 2))%Z as Hd.
    { apply Z.lt_le_trans with (2 ^ Z.succ ld)%Z; [done |].
      apply Z.le_trans with (2 ^ (ld + 2))%Z;
        [apply Z.pow_le_mono_r; lia | apply Z.pow_le_mono_l; lia]. }
    assert (0 < inject_Z (b ^ (ld + 2))) as Hpos.
    { change 0 with (inject_Z 0). rewrite <- Zlt_Qlt. lia. }
    apply Qle_shift_inv_r; [done |].
    unfold Qle, Qmult. cbn [Qnum Qden inject_Z]. nia.
Qed.

Lemma round_half_even_error (q : Q) :
  Qabs (inject_Z (JS.round_half_even q) - q) <= 1 # 2.
Proof.
  unfold JS.round_half_even.
  pose proof (Qfloor_le q) as Hlo. pose proof (Qlt_floor q) as Hhi.
  set (k := Qfloor q) in *. rewrite inject_Z_plus in Hhi.
  change (inject_Z 1) with 1 in Hhi.
  apply Qabs_Qle_condition.
  destruct (Qcompare_spec (q - inject_Z k) (1 # 2)) as [Heq | Hlt | Hgt];
    [destruct (Z.even k) | |];
    rewrite ?inject_Z_plus; change (inject_Z 1) with 1; lra.
Qed.

(** A positive value in the normal range below 2^31 rounds to a finite
    value at most 2^-23 away. *)
Lemma round_pos_error (q : Q) :
  1 # 1000 <= q -> q < inject_Z (2 ^ 31) ->
  exists x, JS.round_pos q = JS.Fin x /\ Qabs (x - q) <= 1 # 2 ^ 23.
Proof.
  intros Hlo Hhi.
  assert (0 < q) as Hpos by lra.
  destruct (floor_log_spec 2 q) as [He1 He2]; [lia | done |].
  unfold JS.round_pos. set (e := JS.floor_log 2 q) in *.
  assert (e < 31)%Z as Hemax.
  { apply (pow_lt_inv 2); [lia |]. rewrite (pow_Z 2 31) by lia. lra. }
  assert (- 11 < e)%Z as Hemin.
  { assert (- 10 < e + 1)%Z; [| lia].
    apply (pow_lt_inv 2); [lia |].
    apply Qle_lt_trans with q; [| done].
    apply Qle_trans with (1 # 1000); [| done]. by vm_compute. }
  rewrite Z.max_l by lia.
  set (ulp := JS.pow 2 (e - 52)).
  assert (0 < ulp) as Hulp by (apply pow_pos; lia).
  assert (ulp <= 1 # 2 ^ 22) as Hulp22.
  { apply Qle_trans with (JS.pow 2 (- 22)); [apply pow_le; lia | by vm_compute]. }
  pose proof (round_half_even_error (q / ulp)) as Hm.
  set (m := JS.round_half_even (q / ulp)) in *.
  apply Qabs_Qle_condition in Hm.
  assert (Qabs (inject_Z m * ulp - q) <= ulp * (1 # 2)) as Herr.
  { apply Qabs_Qle_condition.
    assert (q == q / ulp * ulp) as Hq by (field; lra).
    set (r := q / ulp) in *. rewrite Hq. nra. }
  apply Qabs_Qle_condition in Herr.
  destruct (Qle_bool (JS.pow 2 1024) (inject_Z m * ulp)) eqn:Hover.
  - apply Qle_bool_iff in Hover.
    assert (inject_Z (2 ^ 32) <= JS.pow 2 1024) as Hbig.
    { rewrite <- (pow_Z 2 32) by lia. apply pow_le; lia. }
    assert (inject_Z (2 ^ 31) + 1 <= inject_Z (2 ^ 32)) by by vm_compute.
    assert (1 # 2 ^ 22 <= 1) by by vm_compute.
    lra.
  - eexists. split; [reflexivity |].
    rewrite Qred_correct. apply Qabs_Qle_condition.
    assert ((1 # 2 ^ 22) * (1 # 2) == 1 # 2 ^ 23) as H23 by by vm_compute.
    nra.
Qed.

Lemma round_comp (p q : Q) : p == q -> JS.round p = JS.round q.
Proof. intros Heq. unfold JS.round. by rewrite (Qred_complete _ _ Heq). Qed.

Lemma Qnum_pos (q : Q) : 0 < q -> exists p, Qnum q = Z.pos p.
Proof.
  destruct q as [[|p|p] d]; unfold Qlt; cbn; intros H; try lia. by exists p.
Qed.

Lemma round_error (q : Q) :
  1 # 1000 <= q -> q < inject_Z (2 ^ 31) ->
  exists y, JS.round q = JS.Fin y /\ Qabs (y - q) <= 1 # 2 ^ 23.
Proof.
  intros Hlo Hhi. unfold JS.round.
  destruct (Qnum_pos (Qred q)) as [p Hp]; [rewrite Qred_correct; lra |].
  rewrite Hp.
  destruct (round_pos_error (Qred q)) as (y & Hy & Herr);
    [by rewrite Qred_correct | by rewrite Qred_correct |].
  exists y. split; [done |]. by rewrite <- (Qred_correct q).
Qed.

(** Two multiples of a thousandth less than a thousandth apart are equal. *)
Lemma thousandths_apart (a b : Z) :
  Qabs (inject_Z a * (1 # 1000) - inject_Z b * (1 # 1000)) < 1 # 1000 -> a = b.
Proof.
  intros H. apply Qabs_Qlt_condition in H as [H1 H2].
  assert (inject_Z a < inject_Z (b + 1)) as Ha
    by (rewrite inject_Z_plus; change (inject_Z 1) with 1; lra).
  assert (inject_Z b < inject_Z (a + 1)) as Hb
    by (rewrite inject_Z_plus; change (inject_Z 1) with 1; lra).
  rewrite <- Zlt_Qlt in Ha, Hb. lia.
Qed.

(** A positive integer is a digit string that does not end in zero,
    followed by zeros. *)
Lemma strip_zeros (n : nat) (c : Z) :
  (1 <= c < 10 ^ Z.of_nat n)%Z ->
  exists s0 j, (c = s0 * 10 ^ j /\ 0 <= j /\ s0 mod 10 <> 0 /\ 1 <= s0)%Z.
Proof.
  revert c. induction n as [|n IH]; intros c Hc.
  - cbn in Hc. lia.
  - destruct (decide (c mod 10 = 0)%Z) as [Hmod | Hmod].
    + destruct (IH (c / 10)%Z) as (s0 & j & Hs & Hj & Hs0 & Hpos).
      { rewrite Nat2Z.inj_succ, Z.pow_succ_r in Hc by lia.
        pose proof (Z.div_mod c 10). lia. }
      exists s0, (j + 1)%Z. repeat split; try lia.
      rewrite Z.pow_add_r, Z.pow_1_r by lia.
      pose proof (Z.div_mod c 10). lia.
    + exists c, 0%Z. repeat split; lia.
Qed.

Lemma digit_count (n : nat) (s : Z) :
  (1 <= s < 10 ^ Z.of_nat n)%Z ->
  exists k, (1 <= k <= Z.of_nat n /\ 10 ^ (k - 1) <= s < 10 ^ k)%Z.
Proof.
  induction n as [|n IH]; intros Hs.
  - cbn in Hs. lia.
  - destruct (decide (s < 10 ^ Z.of_nat n)%Z) as [Hlt | Hge].
    + destruct IH as (k & Hk & Hdig); [lia |]. exists k. lia.
    + exists (Z.of_nat (S n)). split; [lia |].
      replace (Z.of_nat (S n) - 1)%Z with (Z.of_nat n) by lia. lia.
Qed.

Lemma elem_of_pair {A} (a b x : A) : x ∈ [a; b] <-> x = a \/ x = b.
Proof.
  rewrite elem_of_cons, list_elem_of_singleton. tauto.
Qed.

(** What it takes to be one of the candidates with [k] digits. *)
Lemma candidate_iff (y : Q) (k s : Z) (v : Q) :
  (s, v) ∈ JS.candidates y k <->
  exists n z,
    (n = JS.floor_log 10 y + 1 \/ n = JS.floor_log 10 y + 1 + 1)%Z
    /\ (s = Qfloor (y / JS.pow 10 (n - k)) \/ s = Qfloor (y / JS.pow 10 (n - k)) + 1)%Z
    /\ (10 ^ (k - 1) <= s < 10 ^ k)%Z
    /\ JS.round (inject_Z s * JS.pow 10 (n - k)) = JS.Fin z
    /\ z == y
    /\ v = Qred (inject_Z s * JS.pow 10 (n - k)).
Proof.
  unfold JS.candidates. rewrite list_elem_of_bind. split.
  - intros (n & Hin & Hn). apply list_elem_of_bind in Hin as (s' & Hin & Hs').
    destruct ((10 ^ (k - 1) <=? s') && (s' <? 10 ^ k))%bool eqn:Hdig;
      [| by apply elem_of_nil in Hin].
    destruct (JS.round _) as [| |z] eqn:Hz; try by apply elem_of_nil in Hin.
    destruct (Qeq_bool z y) eqn:Heq; [| by apply elem_of_nil in Hin].
    apply list_elem_of_singleton in Hin as [= -> ->].
    exists n, z. apply Qeq_bool_iff in Heq.
    apply andb_true_iff in Hdig as [?%Z.leb_le ?%Z.ltb_lt].
    apply elem_of_pair in Hn. apply elem_of_pair in Hs'. repeat split; done.
  - intros (n & z & Hn & Hs & Hdig & Hz & Heq & ->).
    exists n. split; [| by apply elem_of_pair].
    apply list_elem_of_bind. exists s. split; [| by apply elem_of_pair].
    rewrite (proj2 (andb_true_iff _ _)) by (split; [apply Z.leb_le | apply Z.ltb_lt]; lia).
    rewrite Hz, (proj2 (Qeq_bool_iff _ _) Heq). by apply list_elem_of_singleton.
Qed.

Lemma closer_cases (y : Q) (a b : Z * Q) : JS.closer y a b = a \/ JS.closer y a b = b.
Proof.
  unfold JS.closer. destruct (_ ?= _); [destruct (Z.even _) | |]; auto.
Qed.

Lemma closest_all (P : Z * Q -> Prop) (y : Q) (a : Z * Q) (l : list (Z * Q)) :
  P a -> Forall P l -> P (foldl (JS.closer y) a l).
Proof.
  revert a. induction l as [|b l IH]; intros a Ha Hl; [done |].
  apply Forall_cons in Hl as [Hb Hl]. cbn [foldl]. apply IH; [| done].
  by destruct (closer_cases y a b) as [-> | ->].
Qed.

(** *** The decimal printed for a price

    [c] cents, written [s0] followed by [j] zeros with [s0] of [k0]
    digits, is the decimal [D = s0 * 10^(j-2)]; [x] is its binary64
    value. *)
Section Price.

Variables (c s0 j k0 : Z) (x : Q).
Hypothesis Hc : (c = s0 * 10 ^ j)%Z.
Hypothesis Hj : (0 <= j)%Z.
Hypothesis Hs0 : (s0 mod 10 <> 0)%Z.
Hypothesis Hk0 : (1 <= k0 <= 10)%Z.
Hypothesis Hdigits : (10 ^ (k0 - 1) <= s0 < 10 ^ k0)%Z.
Hypothesis Hrange : (c < 10 ^ 10)%Z.
Hypothesis Hround : JS.round (c # 100) = JS.Fin x.
Hypothesis Herr : Qabs (x - (c # 100)) <= 1 # 2 ^ 23.

Let D : Q := c # 100.

Lemma pow10_pos (e : Z) : 0 < JS.pow 10 e.
Proof. apply pow_pos. lia. Qed.

Lemma pow10_succ (e : Z) : JS.pow 10 (e + 1) == JS.pow 10 e * 10.
Proof. rewrite pow_add by lia. reflexivity. Qed.

Lemma price_decimal : D == inject_Z s0 * JS.pow 10 (j - 2).
Proof.
  unfold D. replace (j - 2)%Z with (j + - 2)%Z by lia.
  rewrite pow_add, pow_Z by lia.
  change (JS.pow 10 (- 2)) with (1 # 100). rewrite Hc.
  unfold Qeq, Qmult. cbn [Qnum Qden inject_Z]. lia.
Qed.

Lemma price_bounds :
  JS.pow 10 (k0 + j - 3) <= D /\ D + JS.pow 10 (j - 2) <= JS.pow 10 (k0 + j - 2).
Proof.
  rewrite price_decimal.
  replace (k0 + j - 3)%Z with ((k0 - 1) + (j - 2))%Z by lia.
  replace (k0 + j - 2)%Z with (k0 + (j - 2))%Z by lia.
  rewrite !pow_add, (pow_Z 10 (k0 - 1)), (pow_Z 10 k0) by lia.
  pose proof (pow10_pos (j - 2)) as Hg.
  destruct Hdigits as [Hlo Hhi].
  assert (inject_Z s0 + 1 <= inject_Z (10 ^ k0)) as Hhi'.
  { change 1 with (inject_Z 1). rewrite <- inject_Z_plus, <- Zle_Qle. lia. }
  rewrite Zle_Qle in Hlo. split; nra.
Qed.

Lemma small_error : (1 # 2 ^ 23) < 1 # 2000.
Proof. by vm_compute. Qed.

Lemma pow10_thousandth (e : Z) : (- 3 <= e)%Z -> 1 # 1000 <= JS.pow 10 e.
Proof.
  intros He. change (1 # 1000) with (JS.pow 10 (- 3)). apply pow_le; lia.
Qed.

(** The decimal exponent the printer computes for [x] is the one of [D]
    or one less. *)
Lemma printed_exponent :
  (k0 + j - 4 <= JS.floor_log 10 x <= k0 + j - 3)%Z.
Proof.
  apply Qabs_Qle_condition in Herr as [Herr1 Herr2]. fold D in Herr1, Herr2.
  pose proof small_error as Hsmall.
  destruct price_bounds as [Hlo Hhi].
  pose proof (pow10_thousandth (j - 2) ltac:(lia)) as Hg.
  pose proof (pow10_thousandth (k0 + j - 4) ltac:(lia)) as Hg'.
  pose proof (pow10_succ (k0 + j - 4)) as Hsucc.
  replace (k0 + j - 4 + 1)%Z with (k0 + j - 3)%Z in Hsucc by lia.
  destruct (floor_log_spec 10 x) as [Ht1 Ht2]; [lia | lra |].
  set (t := JS.floor_log 10 x) in *.
  split.
  - assert (k0 + j - 4 < t + 1)%Z; [| lia].
    apply (pow_lt_inv 10); [lia |]. lra.
  - assert (t < k0 + j - 2)%Z; [| lia].
    apply (pow_lt_inv 10); [lia |]. lra.
Qed.

Lemma price_below : D < inject_Z (10 ^ 8).
Proof.
  unfold D, Qlt. cbn [Qnum Qden inject_Z]. lia.
Qed.

(** A candidate with at most [k0] digits has the value [D], and its digit
    string, followed by zeros, is that of ten times [c]. *)
Lemma candidate_value (k s : Z) (v : Q) :
  (1 <= k <= k0)%Z ->
  (s, v) ∈ JS.candidates x k ->
  v == D
  /\ (10 ^ (k - 1) <= s < 10 ^ k)%Z
  /\ exists e, (0 <= e)%Z /\ (s * 10 ^ e = 10 * c)%Z.
Proof.
  intros Hk Hin.
  apply candidate_iff in Hin as (n & z & Hn & Hs & Hdig & Hz & Heq & ->).
  pose proof printed_exponent as Ht.
  pose proof Herr as Herr'.
  apply Qabs_Qle_condition in Herr' as [Herr1 Herr2]. fold D in Herr1, Herr2.
  pose proof price_below as Hbelow. pose proof small_error as Hsmall.
  destruct price_bounds as [HDlo _].
  pose proof (pow10_thousandth (k0 + j - 3) ltac:(lia)) as HD3.
  destruct (floor_log_spec 10 x) as [Ht1 _]; [lia | lra |].
  set (t := JS.floor_log 10 x) in *.
  set (g := JS.pow 10 (n - k)) in *.
  assert (1 # 1000 <= g) as Hg by (apply pow10_thousandth; lia).
  assert (g <= 10 * x) as Hg10.
  { apply Qle_trans with (JS.pow 10 (t + 1)); [apply pow_le; lia |].
    rewrite pow10_succ. lra. }
  assert (inject_Z s <= x / g + 1) as Hsx.
  { pose proof (Qfloor_le (x / g)) as Hfl.
    destruct Hs as [-> | ->]; rewrite ?inject_Z_plus; change (inject_Z 1) with 1; lra. }
  assert (1 <= inject_Z s) as Hs1.
  { change 1 with (inject_Z 1). rewrite <- Zle_Qle.
    pose proof (Z.pow_pos_nonneg 10 (k - 1)). lia. }
  assert (inject_Z s * g <= x + g) as Hvx.
  { assert (x == x / g * g) as Hx by (field; lra).
    set (r := x / g) in *. rewrite Hx. nra. }
  destruct (round_error (inject_Z s * g)) as (y & Hy & Hyerr).
  { nra. }
  { assert (11 * (inject_Z (10 ^ 8) + 1) <= inject_Z (2 ^ 31)) by by vm_compute. lra. }
  rewrite Hz in Hy. injection Hy as <-.
  apply Qabs_Qle_condition in Hyerr as [Hy1 Hy2].
  assert (g == inject_Z (10 ^ (n - k + 3)) * (1 # 1000)) as Hgrid.
  { unfold g. replace (n - k)%Z with ((n - k + 3) + - 3)%Z at 1 by lia.
    rewrite pow_add, pow_Z by lia. reflexivity. }
  assert (D == inject_Z (10 * c) * (1 # 1000)) as HDgrid.
  { unfold D, Qeq, Qmult. cbn [Qnum Qden inject_Z]. lia. }
  assert (s * 10 ^ (n - k + 3) = 10 * c)%Z as Hdigits'.
  { apply thousandths_apart. rewrite <- HDgrid, inject_Z_mult, <- Qmult_assoc, <- Hgrid.
    apply Qabs_Qlt_condition. lra. }
  split; [| split; [done | exists (n - k + 3)%Z; split; [lia | done]]].
  rewrite Qred_correct, Hgrid, Qmult_assoc, <- inject_Z_mult, Hdigits'. by rewrite HDgrid.
Qed.

(** No digit string shorter than [s0] prints [x]. *)
Lemma no_shorter_candidate (k : Z) :
  (1 <= k < k0)%Z -> JS.candidates x k = [].
Proof.
  intros Hk. destruct (JS.candidates x k) as [|[s v] l] eqn:Hcands; [done |].
  exfalso.
  destruct (candidate_value k s v) as (_ & Hdig & e & He & Hse);
    [lia | rewrite Hcands; by left |].
  assert (s < s0)%Z as Hlt.
  { apply Z.lt_le_trans with (10 ^ k)%Z; [lia |].
    apply Z.le_trans with (10 ^ (k0 - 1))%Z; [apply Z.pow_le_mono_r; lia | lia]. }
  assert (0 < s0)%Z as Hs0pos.
  { pose proof (Z.pow_pos_nonneg 10 (k0 - 1)). lia. }
  rewrite Hc in Hse.
  replace (10 * (s0 * 10 ^ j))%Z with (s0 * 10 ^ (j + 1))%Z in Hse
    by (rewrite Z.pow_add_r, Z.pow_1_r by lia; lia).
  destruct (decide (e <= j + 1)%Z) as [Hle | Hgt].
  - replace (j + 1)%Z with (e + (j + 1 - e))%Z in Hse by lia.
    rewrite Z.pow_add_r in Hse by lia.
    pose proof (Z.pow_pos_nonneg 10 e) as Hpe.
    pose proof (Z.pow_pos_nonneg 10 (j + 1 - e)) as Hpj.
    assert (s = s0 * 10 ^ (j + 1 - e))%Z by nia. nia.
  - replace e with ((j + 1) + (e - (j + 1) - 1) + 1)%Z in Hse by lia.
    rewrite !Z.pow_add_r, Z.pow_1_r in Hse by lia.
    pose proof (Z.pow_pos_nonneg 10 (j + 1)) as Hpj.
    assert (s0 = s * 10 ^ (e - (j + 1) - 1) * 10)%Z as Hs by nia.
    apply Hs0. rewrite Hs. apply Z.mod_mul. lia.
Qed.

(** The digit string [s0] is a candidate with [k0] digits. *)
Lemma price_is_candidate :
  (s0, Qred (inject_Z s0 * JS.pow 10 (j - 2))) ∈ JS.candidates x k0.
Proof.
  apply candidate_iff. exists (k0 + j - 2)%Z, x.
  pose proof printed_exponent as Ht.
  replace (k0 + j - 2 - k0)%Z with (j - 2)%Z by lia.
  pose proof Herr as Herr'.
  apply Qabs_Qle_condition in Herr' as [Herr1 Herr2]. fold D in Herr1, Herr2.
  pose proof small_error as Hsmall.
  pose proof (pow10_thousandth (j - 2) ltac:(lia)) as Hg.
  pose proof price_decimal as HD.
  set (g := JS.pow 10 (j - 2)) in *.
  split; [lia |]. split; [| split; [done | split; [| done]]].
  - pose proof (Qfloor_le (x / g)) as Hfl1. pose proof (Qlt_floor (x / g)) as Hfl2.
    set (fl := Qfloor (x / g)) in *.
    rewrite inject_Z_plus in Hfl2. change (inject_Z 1) with 1 in Hfl2.
    assert (x == x / g * g) as Hx by (field; lra).
    set (r := x / g) in *.
    assert (inject_Z fl < inject_Z (s0 + 1)) as H1.
    { rewrite inject_Z_plus. change (inject_Z 1) with 1. nra. }
    assert (inject_Z s0 < inject_Z (fl + 1 + 1)) as H2.
    { rewrite !inject_Z_plus. change (inject_Z 1) with 1. nra. }
    rewrite <- Zlt_Qlt in H1, H2. lia.
  - rewrite <- Hround. apply round_comp. by rewrite <- HD.
Qed.

Lemma shortest_skip (ks rest : list Z) :
  Forall (fun k => JS.candidates x k = []) ks ->
  JS.shortest x (ks ++ rest) = JS.shortest x rest.
Proof.
  induction 1 as [|k ks Hk _ IH]; [done |].
  cbn [app JS.shortest]. by rewrite Hk.
Qed.

(** The printer stops at [k0] digits, with the value [D]. *)
Lemma printed_price :
  exists v, JS.toString_value (JS.Fin x) = Some v /\ v == D.
Proof.
  pose proof Herr as Herr'.
  apply Qabs_Qle_condition in Herr' as [Herr1 Herr2]. fold D in Herr1, Herr2.
  destruct price_bounds as [HDlo _].
  pose proof (pow10_thousandth (k0 + j - 3) ltac:(lia)) as HD3.
  pose proof small_error as Hsmall.
  destruct (Qnum_pos x) as [p Hp]; [lra |].
  cbn [JS.toString_value]. rewrite Hp.
  replace 17%Z with ((k0 - 1) + (17 - (k0 - 1)))%Z by lia.
  rewrite seqZ_app by lia.
  rewrite shortest_skip; cycle 1.
  { apply Forall_forall. intros k Hk%elem_of_seqZ.
    apply no_shorter_candidate. lia. }
  rewrite seqZ_cons by lia. replace (1 + (k0 - 1))%Z with k0 by lia.
  cbn [JS.shortest].
  pose proof price_is_candidate as Hin.
  destruct (JS.candidates x k0) as [|a l] eqn:Hcands; [by apply elem_of_nil in Hin |].
  eexists. split; [reflexivity |].
  apply (closest_all (fun p => snd p == D)).
  - destruct a as [s v]. apply (candidate_value k0 s v); [lia |].
    rewrite Hcands. by left.
  - apply Forall_forall. intros [s v] Hsv.
    apply (candidate_value k0 s v); [lia |]. rewrite Hcands. by right.
Qed.

End Price.

Lemma Qfloor_half (c : Z) : Qfloor (inject_Z c + (1 # 2)) = c.
Proof.
  pose proof (Qfloor_le (inject_Z c + (1 # 2))) as H1.
  pose proof (Qlt_floor (inject_Z c + (1 # 2))) as H2.
  set (fl := Qfloor _) in *.
  assert (inject_Z fl < inject_Z (c + 1)) as H3
    by (rewrite inject_Z_plus; change (inject_Z 1) with 1; lra).
  assert (inject_Z c < inject_Z (fl + 1)) as H4
    by (revert H2; rewrite !inject_Z_plus; change (inject_Z 1) with 1; lra).
  rewrite <- Zlt_Qlt in H3, H4. lia.
Qed.

(** The number of a price of [c] cents, cast to [numeric(10, 2)], is [c]
    cents again. *)
Lemma numeric_of_price (c : Z) :
  (0 <= c < 10 ^ 10)%Z ->
  Db.pg_numeric_10_2 (JS.round (c # 100)) = Some c.
Proof.
  intros [Hc0 Hc10].
  destruct (decide (c = 0%Z)) as [-> | Hne]; [by vm_compute |].
  destruct (strip_zeros 10 c) as (s0 & j & Hc & Hj & Hs0 & Hs0pos); [lia |].
  destruct (digit_count 10 s0) as (k0 & Hk0 & Hdigits).
  { pose proof (Z.pow_pos_nonneg 10 j). nia. }
  destruct (round_error (c # 100)) as (x & Hround & Herr).
  { unfold Qle. cbn [Qnum Qden]. lia. }
  { unfold Qlt. cbn [Qnum Qden inject_Z]. lia. }
  destruct (printed_price c s0 j k0 x Hc Hj Hs0 ltac:(lia) Hdigits Hc10 Hround Herr)
    as (v & Hv & HvD).
  unfold Db.pg_numeric_10_2. rewrite Hround, Hv. cbn [mbind option_bind].
  assert (Db.round_half_away (v * 100) = c) as ->.
  { assert (v * 100 + (1 # 2) == inject_Z c + (1 # 2)) as Heq.
    { rewrite HvD. unfold Qeq, Qmult, Qplus. cbn [Qnum Qden inject_Z]. lia. }
    assert (0 < v * 100) as Hpos.
    { rewrite HvD. unfold Qlt, Qmult. cbn [Qnum Qden]. lia. }
    unfold Db.round_half_away.
    destruct (Qnum (v * 100)) eqn:Hnum.
    - by rewrite (Qfloor_comp _ _ Heq), Qfloor_half.
    - by rewrite (Qfloor_comp _ _ Heq), Qfloor_half.
    - unfold Qlt in Hpos. rewrite Hnum in Hpos. cbn in Hpos. lia. }
  rewrite (proj2 (Z.ltb_lt _ _)) by lia. reflexivity.
Qed.

(** The number of a price passes the schema of [price]. *)
Lemma price_accepted (c : Z) :
  (0 <= c < 10 ^ 10)%Z ->
  (JS.isFinite (JS.round (c # 100)) && JS.geq (JS.round (c # 100)) 0)%bool = true.
Proof.
  intros [Hc0 Hc10].
  destruct (decide (c = 0%Z)) as [-> | Hne]; [by vm_compute |].
  destruct (round_error (c # 100)) as (x & -> & Herr).
  { unfold Qle. cbn [Qnum Qden]. lia. }
  { unfold Qlt. cbn [Qnum Qden inject_Z]. lia. }
  cbn. apply Qle_bool_iff.
  apply Qabs_Qle_condition in Herr as [Herr _].
  assert (1 # 100 <= c # 100) by (unfold Qle; cbn [Qnum Qden]; lia).
  pose proof small_error. lra.
Qed.

End Numbers.

(** ** The world under the primitive effects *)

Lemma fs_log e w : fs (log e w) = fs w.
Proof. reflexivity. Qed.
Lemma db_log e w : db (log e w) = db w.
Proof. reflexivity. Qed.
Lemma draws_log e w : draws (log e w) = draws w.
Proof. reflexivity. Qed.
Lemma trace_log e w : trace (log e w) = (trace w ++ [e])%list.
Proof. reflexivity. Qed.
Lemma fs_tick w : fs (tick w) = fs w.
Proof. reflexivity. Qed.
Lemma db_tick w : db (tick w) = db w.
Proof. reflexivity. Qed.
Lemma trace_tick w : trace (tick w) = trace w.
Proof. reflexivity. Qed.
Lemma fs_set_fs f w : fs (set_fs f w) = f.
Proof. reflexivity. Qed.
Lemma db_set_fs f w : db (set_fs f w) = db w.
Proof. reflexivity. Qed.
Lemma trace_set_fs f w : trace (set_fs f w) = trace w.
Proof. reflexivity. Qed.
Lemma fs_set_table k t w : fs (set_table k t w) = fs w.
Proof. reflexivity. Qed.
Lemma trace_set_table k t w : trace (set_table k t w) = trace w.
Proof. reflexivity. Qed.

Create Rewrite HintDb world.
#[local] Hint Rewrite fs_log db_log draws_log trace_log fs_tick db_tick trace_tick
  fs_set_fs db_set_fs trace_set_fs fs_set_table trace_set_table : world.

(** Unfold the monad of a handler and simplify. *)
Ltac run :=
  repeat (progress unfold hono, try_catch, bind, ret, throw, accessible,
            Fs.access, Fs.readFile, Fs.writeFile, Fs.stat_size);
  cbn beta iota zeta;
  autorewrite with world.

(** ** Serving files *)

(** C4. A requested name that contains [..], [/] or a backslash is answered
    with the client error "Invalid filename" and the world is left as it
    was: the trace gains no event, so nothing is read from the file system.
    The name [video.mp4] contains none of the three and is handled before
    the guard: it is answered from the one path [getSingleVideoPath], with
    the content of the file there, or with "Video file not found". *)
Theorem serve_guards_traversal (E : env) (w : world) (filename : string) :
  (JS.includes filename ".." = true \/ JS.includes filename "/" = true \/
   JS.includes filename "\" = true ->
   hono (files_get E filename) w = (c_json (Json_error "Invalid filename") 400, w))
  /\ hono (files_get E "video.mp4") w =
       match Fs.resolve (fs w) (getSingleVideoPath E) with
       | Some (File content) =>
           (c_body "video/mp4" content,
            log (FsReadFile (getSingleVideoPath E))
              (log (FsAccess (getSingleVideoPath E)) w))
       | Some Directory =>
           (c_json (Json_error "Video file not found") 404,
            log (FsReadFile (getSingleVideoPath E))
              (log (FsAccess (getSingleVideoPath E)) w))
       | None =>
           (c_json (Json_error "Video file not found") 404,
            log (FsAccess (getSingleVideoPath E)) w)
       end.
Proof.
  split.
  - intros Hbad. unfold files_get.
    case_bool_decide as Hvideo.
    + subst filename. by destruct Hbad as [H | [H | H]]; vm_compute in H.
    + assert (JS.includes filename ".." || JS.includes filename "/"
              || JS.includes filename "\" = true)%bool as ->.
      { destruct Hbad as [-> | [-> | ->]]; by rewrite ?orb_true_r. }
      reflexivity.
  - unfold files_get. rewrite bool_decide_eq_true_2 by reflexivity. run.
    destruct (Fs.resolve (fs w) (getSingleVideoPath E)) as [[content|]|] eqn:Hres;
      cbn; autorewrite with world; rewrite ?Hres; reflexivity.
Qed.

Lemma serve_guards_traversal_witness :
  JS.includes "../secret" ".." = true /\
  hono (files_get sample_env "../secret") (initial_world sample_env)
  = (c_json (Json_error "Invalid filename") 400, initial_world sample_env).
Proof.
  split; [reflexivity |].
  apply (proj1 (serve_guards_traversal sample_env (initial_world sample_env) "../secret")).
  left. reflexivity.
Defined.

(** ** Uploads *)

Lemma collect_files_none (formData : list (string * form_value)) :
  Forall (fun entry => no_file (snd entry)) formData ->
  collect_files formData = [].
Proof.
  induction 1 as [|[key v] rest Hv _ IH]; [done |].
  simpl in *. destruct v as [[s|f] | items]; simpl in Hv; try done.
  rewrite IH. destruct items as [|[s|f] items]; simpl; try done.
  by inversion Hv.
Qed.

(** C10. An upload whose form data holds no file is answered with 201 and
    an empty list of processed files; the world is left as it was, so
    nothing is validated away and nothing is written. *)
Theorem upload_without_files (E : env) (w : world)
    (formData : list (string * form_value)) :
  Forall (fun entry => no_file (snd entry)) formData ->
  hono (files_post E formData) w =
    (c_json (Json_files "Files uploaded and processed successfully" []) 201, w).
Proof.
  intros Hnone. unfold files_post. by rewrite collect_files_none.
Qed.

Lemma upload_without_files_witness :
  hono (files_post sample_env [("note", Single (FormString "hello"))])
       (initial_world sample_env) =
    (c_json (Json_files "Files uploaded and processed successfully" []) 201,
     initial_world sample_env).
Proof.
  apply upload_without_files. repeat constructor.
Defined.

(** ** The order of an upload *)

Lemma values_under_snoc (key : string) (request : list (string * form_item))
    (k : string) (v : form_item) :
  values_under key (request ++ [(k, v)])
  = (values_under key request ++ (if String.eqb k key then [v] else []))%list.
Proof.
  unfold values_under. rewrite omap_app. cbn. by destruct (String.eqb k key).
Qed.

Lemma field_names_snoc (request : list (string * form_item)) (k : string)
    (v : form_item) :
  field_names (request ++ [(k, v)])
  = if bool_decide (k ∈ field_names request) then field_names request
    else (field_names request ++ [k])%list.
Proof. unfold field_names. by rewrite foldl_app. Qed.

Lemma parseBody_snoc (request : list (string * form_item)) (k : string)
    (v : form_item) :
  parseBody (request ++ [(k, v)]) = add_value (parseBody request) k v.
Proof. unfold parseBody. by rewrite foldl_app. Qed.

(** The names are distinct, and a name is among them exactly when a value
    was sent under it. *)
Lemma field_names_spec (request : list (string * form_item)) :
  NoDup (field_names request)
  /\ forall key, key ∈ field_names request <-> values_under key request <> [].
Proof.
  induction request as [|[k v] request [IHn IHv]] using rev_ind.
  - split; [constructor |]. intros key. cbn. split; [by intros ?%elem_of_nil | done].
  - rewrite field_names_snoc. split.
    + case_bool_decide; [done |].
      apply NoDup_app. repeat split; [done | | apply NoDup_singleton].
      intros x Hx ->%list_elem_of_singleton. done.
    + intros key. rewrite values_under_snoc.
      destruct (String.eqb k key) eqn:Hk.
      * apply String.eqb_eq in Hk as ->. split.
        -- intros _. by destruct (values_under key request).
        -- intros _. case_bool_decide; [done |].
           apply elem_of_app. right. by apply list_elem_of_singleton.
      * apply String.eqb_neq in Hk. rewrite app_nil_r, <- IHv.
        case_bool_decide; [done |]. rewrite elem_of_app, list_elem_of_singleton.
        intuition congruence.
Qed.

(** A further value turns the property of a name into the property of
    the values sent so far with the new one. *)
Lemma property_of_snoc (key : string) (values : list form_item) (v : form_item) :
  values <> [] ->
  match property_of key values with
  | Single first => Many [first; v]
  | Many values' => Many (values' ++ [v])
  end = property_of key (values ++ [v]).
Proof.
  destruct values as [|a [|b values]]; [done | |]; intros _; cbn.
  - by destruct (ends_with_brackets key).
  - done.
Qed.

Lemma add_value_spec (request : list (string * form_item)) (names : list string)
    (k : string) (v : form_item) :
  NoDup names ->
  (k ∈ names -> values_under k request <> []) ->
  (k ∉ names -> values_under k request = []) ->
  add_value (map (fun key => (key, property_of key (values_under key request))) names) k v
  = (map (fun key => (key, property_of key (values_under key (request ++ [(k, v)]))))
       names
     ++ (if bool_decide (k ∈ names) then []
         else [(k, property_of k (values_under k (request ++ [(k, v)])))]))%list.
Proof.
  induction names as [|k' names IH]; intros Hdup Hin Hout.
  - cbn. rewrite values_under_snoc, String.eqb_refl, Hout by apply not_elem_of_nil.
    reflexivity.
  - apply NoDup_cons in Hdup as [Hk' Hdup]. cbn [map add_value].
    destruct (String.eqb k' k) eqn:Hk.
    + apply String.eqb_eq in Hk as ->.
      rewrite bool_decide_eq_true_2 by apply list_elem_of_here.
      rewrite app_nil_r. cbn [map]. f_equal.
      * rewrite values_under_snoc, String.eqb_refl.
        rewrite property_of_snoc; [done |]. apply Hin, list_elem_of_here.
      * apply map_ext_in. intros key Hkey%list_elem_of_In.
        rewrite values_under_snoc.
        destruct (String.eqb k key) eqn:Hkk; [| by rewrite app_nil_r].
        apply String.eqb_eq in Hkk as ->. done.
    + apply String.eqb_neq in Hk.
      rewrite IH; [| done | |].
      * cbn [app]. f_equal.
        -- rewrite values_under_snoc.
           destruct (String.eqb k k') eqn:Hkk; [| by rewrite app_nil_r].
           apply String.eqb_eq in Hkk as ->. done.
        -- f_equal. assert (Hiff : k ∈ k' :: names <-> k ∈ names).
           { rewrite elem_of_cons. intuition congruence. }
           by rewrite (bool_decide_ext _ _ Hiff).
      * intros Hm. apply Hin. by apply list_elem_of_further.
      * intros Hm. apply Hout. rewrite elem_of_cons. intuition congruence.
Qed.

(** The parsed body has one property for each name, with the values sent
    under the name. *)
Lemma parseBody_spec (request : list (string * form_item)) :
  parseBody request
  = map (fun key => (key, property_of key (values_under key request)))
      (field_names request).
Proof.
  induction request as [|[k v] request IH] using rev_ind; [done |].
  destruct (field_names_spec request) as [Hdup Hval].
  rewrite parseBody_snoc, IH, add_value_spec, field_names_snoc.
  - case_bool_decide; [by rewrite app_nil_r |]. by rewrite map_app.
  - done.
  - by intros ?%Hval.
  - intros Hk. destruct (values_under k request) eqn:Hv; [done |].
    exfalso. apply Hk, Hval. by rewrite Hv.
Qed.

Lemma insert_by_index_map {A B} (g : A -> B) (x : Z * A) (l : list (Z * A)) :
  insert_by_index (prod_map id g x) (map (prod_map id g) l)
  = map (prod_map id g) (insert_by_index x l).
Proof.
  destruct x as [i a]. induction l as [|[j b] l IH]; [done |]. cbn.
  destruct (i <=? j); [done |]. cbn. f_equal. apply IH.
Qed.

Lemma sort_by_index_map {A B} (g : A -> B) (l : list (Z * A)) :
  sort_by_index (map (prod_map id g) l) = map (prod_map id g) (sort_by_index l).
Proof.
  induction l as [|x l IH]; [done |]. cbn [map sort_by_index foldr].
  fold (sort_by_index (map (prod_map id g) l)). rewrite IH.
  apply insert_by_index_map.
Qed.

(** The sorting sorts. *)
Lemma insert_by_index_sorted {A} (x : Z * A) (l : list (Z * A)) :
  Sorted (fun a b => fst a <= fst b) l ->
  Sorted (fun a b => fst a <= fst b) (insert_by_index x l).
Proof.
  induction 1 as [|y l Hl IH Hy]; cbn; [by repeat constructor |].
  destruct (Z.leb_spec (fst x) (fst y)).
  - by repeat constructor.
  - constructor; [done |]. destruct Hy as [|z l Hz]; cbn.
    + constructor. lia.
    + destruct (fst x <=? fst z); constructor; lia.
Qed.

Lemma sort_by_index_sorted {A} (l : list (Z * A)) :
  Sorted (fun a b => fst a <= fst b) (sort_by_index l).
Proof.
  induction l as [|x l IH]; [constructor |]. by apply insert_by_index_sorted.
Qed.

(** The entries of an object with one property for each name are taken
    name by name, array indices first. *)
Lemma Object_entries_map (F : string -> form_value) (names : list string) :
  Object_entries (map (fun key => (key, F key)) names)
  = map (fun key => (key, F key))
      (map snd (sort_by_index
                  (omap (fun key => (fun i => (i, key)) <$> array_index key) names))
       ++ filter (fun key => array_index key = None) names).
Proof.
  unfold Object_entries. rewrite map_app. f_equal.
  - assert (Homap :
      omap (fun e : string * form_value => (fun i => (i, e)) <$> array_index (fst e))
           (map (fun key => (key, F key)) names)
      = map (prod_map id (fun key => (key, F key)))
          (omap (fun key => (fun i => (i, key)) <$> array_index key) names)).
    { induction names as [|key names IH]; [done |]. cbn.
      destruct (array_index key); cbn; by rewrite IH. }
    rewrite Homap, sort_by_index_map, !map_map. done.
  - induction names as [|key names IH]; [done |]. cbn [map].
    rewrite !filter_cons. cbn [fst].
    destruct (decide (array_index key = None)); cbn [map]; by rewrite IH.
Qed.

Lemma collect_files_app (a b : list (string * form_value)) :
  collect_files (a ++ b) = (collect_files a ++ collect_files b)%list.
Proof.
  induction a as [|[key [[s|f]|vs]] a IH]; cbn; [done | done | by rewrite IH |].
  by rewrite IH, app_assoc.
Qed.

Lemma collect_files_properties (request : list (string * form_item))
    (order : list string) :
  collect_files (map (fun key => (key, property_of key (values_under key request))) order)
  = concat (map (fun key => collected_under key request) order).
Proof.
  induction order as [|key order IH]; [done |]. cbn [map concat].
  rewrite <- IH. change (?x :: ?l) with ([x] ++ l)%list at 1.
  rewrite collect_files_app. f_equal.
  unfold collected_under.
  destruct (values_under key request) as [|[s|f] [|b values]]; cbn;
    try done; destruct (ends_with_brackets key); cbn; by rewrite ?app_nil_r.
Qed.

(** The upload takes the files of a request in the processing order. *)
Lemma upload_order (request : list (string * form_item)) :
  collect_files (Object_entries (parseBody request)) = processing_order request.
Proof.
  rewrite parseBody_spec.
  rewrite (Object_entries_map (fun key => property_of key (values_under key request))).
  apply collect_files_properties.
Qed.

Lemma rejection_names_file (file : File.t) :
  JS.includes (rejection file) (File.name file) = true.
Proof.
  unfold rejection. destruct (invalid_type file); apply includes_infix.
Qed.

(** Names that are array indices are visited first, by ascending index;
    the files sent under one name are taken together. *)
Example array_index_names_come_first :
  processing_order
    [("b", FormFile photo_png); ("10", FormFile clip_mp4); ("2", FormFile notes_txt);
     ("b", FormFile clip_mp4)]
  = [notes_txt; clip_mp4; photo_png; clip_mp4].
Proof. vm_compute. reflexivity. Qed.

(** An entry that fails validation ends the loop with its error, whatever
    follows it; the world is the one the loop was entered with. *)
Lemma upload_loop_rejects (E : env) (bad : File.t) (post : list File.t)
    (processedFiles : list processed) (w : world) :
  invalid_type bad = true \/ too_large bad = true ->
  upload_loop E (bad :: post) processedFiles w =
    (Ok (c_json (Json_error (rejection bad)) 400), w).
Proof.
  unfold rejection, invalid_type, too_large. cbn [upload_loop].
  rewrite Z.gtb_ltb.
  destruct (JS.startsWith (File.type bad) "image/"),
           (JS.startsWith (File.type bad) "video/");
    cbn [negb andb]; intros [H | H]; try discriminate H; try reflexivity;
    by rewrite H.
Qed.

(** When the loop over a list of entries ends in success, the loop over a
    longer list continues from there. *)
Lemma upload_loop_app (E : env) (pre rest : list File.t)
    (acc stored : list processed) (message : string) (w w1 : world) :
  upload_loop E pre acc w = (Ok (c_json (Json_files message stored) 201), w1) ->
  upload_loop E (pre ++ rest) acc w = upload_loop E rest stored w1.
Proof.
  revert acc w. induction pre as [|file pre IH]; intros acc w.
  - cbn. unfold ret. intros [= <- <- <-]. reflexivity.
  - cbn [upload_loop app].
    destruct (negb _ && negb _)%bool; [unfold ret; intros [=] |].
    destruct (File.size file >? _); [unfold ret; intros [=] |].
    unfold bind, try_catch.
    destruct (store_file E file _ w) as [[entry|e] w']; unfold ret;
      [apply IH | intros [=]].
Qed.

(** C3 (amended). The upload takes the files of a request in the
    processing order: name by name (array indices first, then the names
    in the order of their first occurrence in the request), under a name
    the files in the order sent, and no file of a name whose first value
    is a text. When the files before an invalid one in this order have
    all been stored (the upload of those alone succeeds and leaves the
    world [w1]), the request is answered with the client error that names
    the invalid file, in the world [w1]: the files before it are stored,
    the invalid file and the ones after it are never written. *)
Theorem upload_rejects_at_first_invalid (E : env) (w w1 : world)
    (request : list (string * form_item)) (pre post : list File.t)
    (bad : File.t) (stored : list processed) :
  processing_order request = (pre ++ bad :: post)%list ->
  upload_loop E pre [] w =
    (Ok (c_json (Json_files "Files uploaded and processed successfully" stored) 201),
     w1) ->
  invalid_type bad = true \/ too_large bad = true ->
  hono (files_post E (Object_entries (parseBody request))) w =
    (c_json (Json_error (rejection bad)) 400, w1)
  /\ JS.includes (rejection bad) (File.name bad) = true.
Proof.
  intros Hfiles Hpre Hbad. split; [| apply rejection_names_file].
  unfold hono, files_post. rewrite upload_order, Hfiles.
  rewrite (upload_loop_app _ _ _ _ _ _ _ _ Hpre).
  by rewrite upload_loop_rejects.
Qed.

Lemma upload_rejects_at_first_invalid_witness :
  exists w1,
    (fs w1 !! stored_photo =
       Some (File [Byte.xff; Byte.xd8; Byte.xff; Byte.x89; Byte.x50; Byte.x4e; Byte.x47])
     /\ fs w1 !! "/home/app/bright-ants-files/video.mp4" =
          Some (File (File.arrayBuffer clip_mp4)))
    /\ hono (files_post sample_env (Object_entries (parseBody mixed_request)))
             (initial_world sample_env)
       = (c_json (Json_error (rejection notes_txt)) 400, w1).
Proof.
  eexists. split; cycle 1.
  - eapply (upload_rejects_at_first_invalid sample_env (initial_world sample_env) _
              mixed_request [photo_png; clip_mp4] [] notes_txt).
    + vm_compute. reflexivity.
    + vm_compute. reflexivity.
    + left. reflexivity.
  - vm_compute. split; reflexivity.
Defined.

(** C3, as stated, fails: with a valid image before an entry of a type
    that is not allowed, the request is answered with the client error
    after the image has been written to the blob directory. *)
Lemma upload_not_atomic :
  let w := initial_world sample_env in
  let request := [("files", Many [FormFile photo_png; FormFile notes_txt])] in
  let '(answer, w') := hono (files_post sample_env request) w in
  status answer = 400
  /\ fs w !! stored_photo = None
  /\ fs w' !! stored_photo =
       Some (File [Byte.xff; Byte.xd8; Byte.xff; Byte.x89; Byte.x50; Byte.x4e; Byte.x47])
  /\ trace w' = [FsWriteFile stored_photo; FsStat stored_photo].
Proof. vm_compute. repeat split; reflexivity. Qed.

(** C1 (the code at the failing input). An upload declared [image/png]
    and named [photo.png] is stored as JPEG under a generated name that
    keeps the extension [.png]; the upload reports the type [image/jpeg],
    and serving the stored name answers with [Content-Type: image/png]. *)
Theorem png_upload_served_as_png :
  let w := initial_world sample_env in
  let '(created, w1) :=
    hono (files_post sample_env [("file", Single (FormFile photo_png))]) w in
  created =
    c_json (Json_files "Files uploaded and processed successfully"
              [ {| processed_name := "1700000000000-k3j9x2ab.png";
                   processed_size := 7;
                   processed_type := "image/jpeg" |} ]) 201
  /\ fst (hono (files_get sample_env "1700000000000-k3j9x2ab.png") w1) =
       c_body "image/png"
         [Byte.xff; Byte.xd8; Byte.xff; Byte.x89; Byte.x50; Byte.x4e; Byte.x47].
Proof. vm_compute. split; reflexivity. Qed.

(** ** Validation *)

Lemma members_singleton (k : string) (v : json) : members [(k, v)] = {[ k := v ]}.
Proof. unfold members. cbn. by rewrite insert_empty. Qed.

(** The parameter validator accepts a text exactly when the number it
    denotes is finite and at least 1, and hands that number on. *)
Lemma id_param_parse (f : string -> string -> bool) (id : string) :
  Zod.parse_object f IdParamSchema (params "id" id) =
    if accepted_id (JS.Number_of_string id)
    then Some {[ "id" := JNum (JS.Number_of_string id) ]}
    else None.
Proof.
  unfold Zod.parse_object, params, IdParamSchema, accepted_id.
  cbn [Zod.strict Zod.shape andb Zod.parse_shape].
  rewrite members_singleton, lookup_singleton_eq.
  cbn [Zod.parse Number].
  destruct (JS.isFinite _ && JS.geq _ 1)%bool; [| reflexivity].
  by rewrite insert_empty.
Qed.

Lemma rowId_param_parse (f : string -> string -> bool) (rowId : string) :
  Zod.parse_object f RowIdParamSchema (params "rowId" rowId) =
    if accepted_id (JS.Number_of_string rowId)
    then Some {[ "rowId" := JNum (JS.Number_of_string rowId) ]}
    else None.
Proof.
  unfold Zod.parse_object, params, RowIdParamSchema, accepted_id.
  cbn [Zod.strict Zod.shape andb Zod.parse_shape].
  rewrite members_singleton, lookup_singleton_eq.
  cbn [Zod.parse Number].
  destruct (JS.isFinite _ && JS.geq _ 1)%bool; [| reflexivity].
  by rewrite insert_empty.
Qed.

Lemma zValidator_id (E : env) (id : string) (handler : gmap string json -> M response) :
  zValidator E IdParamSchema (params "id" id) handler =
    if accepted_id (JS.Number_of_string id)
    then handler {[ "id" := JNum (JS.Number_of_string id) ]}
    else ret (c_json Json_issues 400).
Proof.
  unfold zValidator. rewrite id_param_parse.
  by destruct (accepted_id _).
Qed.

Lemma number_of_id (n : JS.number) :
  number_of (({[ "id" := JNum n ]} : gmap string json) !! "id") = n.
Proof. by rewrite lookup_singleton_eq. Qed.

(** ** The store *)

(** Whatever a statement does, it is recorded, and nothing else is. *)
Lemma run_trace (E : env) (q : statement) (w : world) :
  trace (snd (Db.run E q w)) = (trace w ++ [Sql q])%list.
Proof.
  unfold Db.run.
  destruct (sql_fails E q); [reflexivity |].
  destruct q; cbn;
    repeat match goal with
      | |- context [match ?x with _ => _ end] => destruct x; cbn
      end; reflexivity.
Qed.

Lemma run_fs (E : env) (q : statement) (w : world) :
  fs (snd (Db.run E q w)) = fs w.
Proof.
  unfold Db.run.
  destruct (sql_fails E q); [reflexivity |].
  destruct q; cbn;
    repeat match goal with
      | |- context [match ?x with _ => _ end] => destruct x; cbn
      end; reflexivity.
Qed.

(** ** White space around a numeral *)

Lemma strip_prefix_length (p l l' : list ascii) :
  JS.strip_prefix p l = Some l' -> length l = (length p + length l')%nat.
Proof.
  revert l. induction p as [|a p IH]; intros [|b l]; cbn; try done.
  - by intros [= <-].
  - by intros [= <-].
  - destruct (Ascii.eqb a b); [| done]. intros H%IH. lia.
Qed.

Lemma skip_one_shorter (patterns : list (list ascii)) (l l' : list ascii) :
  Forall (fun p => p <> []) patterns ->
  JS.skip_one patterns l = Some l' -> (length l' < length l)%nat.
Proof.
  unfold JS.skip_one. induction 1 as [|p patterns Hp _ IH]; [done |]. cbn.
  destruct (JS.strip_prefix p l) as [l''|] eqn:Hs; [| done].
  cbn. intros [= <-]. apply strip_prefix_length in Hs.
  destruct p; [done |]. cbn in Hs. lia.
Qed.

(** The length of the text is fuel enough: nothing is left to skip. *)
Lemma skip_all_done (patterns : list (list ascii)) (fuel : nat) (l : list ascii) :
  Forall (fun p => p <> []) patterns ->
  (length l <= fuel)%nat ->
  JS.skip_one patterns (JS.skip_all patterns fuel l) = None.
Proof.
  intros Hp. revert l. induction fuel as [|fuel IH]; intros l Hl.
  - destruct l; [| cbn in Hl; lia]. cbn. unfold JS.skip_one.
    induction Hp as [|p patterns Hne _ IHp]; [done |]. cbn.
    by destruct p.
  - cbn. destruct (JS.skip_one patterns l) as [l'|] eqn:Hs; [| done].
    apply IH. apply skip_one_shorter in Hs; [lia | done].
Qed.

Lemma white_space_nonempty : Forall (fun p => p <> []) JS.white_space.
Proof. unfold JS.white_space. cbn. repeat constructor; done. Qed.

Lemma trim_start_done (l : list ascii) :
  JS.skip_one JS.white_space (JS.trim_start l) = None.
Proof. apply skip_all_done; [apply white_space_nonempty | done]. Qed.

(** A no-break space before the numeral is skipped, as a space is. *)
Example number_skips_white_space :
  JS.Number_of_string (String (ascii_of_nat 194) (String (ascii_of_nat 160) "1"))
  = JS.Fin 1
  /\ JS.Number_of_string " 12 " = JS.Fin 12
  /\ JS.Number_of_string (String (ascii_of_nat 194) "1") = JS.NaN.
Proof. vm_compute. repeat split; reflexivity. Qed.

(** ** Identifiers *)

Lemma accepted_id_spec (n : JS.number) :
  accepted_id n = true <-> exists q, n = JS.Fin q /\ (1 <= q)%Q.
Proof.
  unfold accepted_id. destruct n as [| b | q]; cbn.
  - split; [done | by intros (q & ? & _)].
  - split; [done | by intros (q & ? & _)].
  - rewrite Qle_bool_iff. split; [intros H; by exists q |].
    by intros (q' & [= <-] & H).
Qed.

(** After the validators, a route that only reads or deletes by id sends
    exactly one statement. *)
Ltac one_statement E q w :=
  let Hrun := fresh "Hrun" in
  let Ht := fresh "Ht" in
  unfold hono, try_catch, bind, ret;
  pose proof (run_trace E q w) as Ht;
  destruct (Db.run E q w) as [[[|r rs]|e] w'] eqn:Hrun; cbn in *; exact Ht.

(** C9 (amended). A Get, Update or Delete request is rejected by the
    parameter validator, with the 400 answer of the validator and the
    world left as it was (no statement is sent), exactly when the number
    its id denotes is not a finite number of at least 1: ids that are not
    numeric, zero or negative. Every other id is accepted, integer or not:
    the validator hands the number on, and Get and Delete send their
    statement to the store with it. *)
Theorem id_accepted_when_at_least_one (E : env) (k : kind) (id : string)
    (body : json) (w : world) :
  let n := JS.Number_of_string id in
  (accepted_id n = false ->
   hono (get_route E k id) w = (c_json Json_issues 400, w)
   /\ hono (update_route E k id body) w = (c_json Json_issues 400, w)
   /\ hono (delete_route E k id) w = (c_json Json_issues 400, w))
  /\ (accepted_id n = true ->
      Zod.parse_object (format_ok E) IdParamSchema (params "id" id)
        = Some {[ "id" := JNum n ]}
      /\ trace (snd (hono (get_route E k id) w))
         = (trace w ++ [Sql (SelectById k n)])%list
      /\ trace (snd (hono (delete_route E k id) w))
         = (trace w ++ [Sql (Delete k n)])%list).
Proof.
  intros n. subst n. split; intros Hid.
  - repeat split; destruct k; cbn [get_route update_route delete_route];
      unfold carouselImages_get, testimonials_get, promotionalOffers_get,
        attorneys_get, works_get, offers_get, blogs_get,
        carouselImages_patch, testimonials_patch, promotionalOffers_patch,
        attorneys_patch, works_patch, offers_patch, blogs_patch,
        carouselImages_delete, testimonials_delete, promotionalOffers_delete,
        attorneys_delete, works_delete, offers_delete, blogs_delete;
      rewrite zValidator_id, Hid; reflexivity.
  - split; [by rewrite id_param_parse, Hid |].
    split; destruct k; cbn [get_route delete_route];
      unfold carouselImages_get, testimonials_get, promotionalOffers_get,
        attorneys_get, works_get, offers_get, blogs_get,
        carouselImages_delete, testimonials_delete, promotionalOffers_delete,
        attorneys_delete, works_delete, offers_delete, blogs_delete;
      rewrite zValidator_id, Hid, number_of_id;
      match goal with
      | |- context [Db.run E ?q] => one_statement E q w
      end.
Qed.

Lemma id_accepted_when_at_least_one_witness :
  hono (get_route sample_env Work "0") (initial_world sample_env)
    = (c_json Json_issues 400, initial_world sample_env)
  /\ trace (snd (hono (delete_route sample_env Offer "7") (initial_world sample_env)))
     = [Sql (Delete Offer (JS.Fin 7))].
Proof.
  split.
  - apply (proj1 (id_accepted_when_at_least_one sample_env Work "0" JNull
                    (initial_world sample_env))).
    reflexivity.
  - apply (proj2 (id_accepted_when_at_least_one sample_env Offer "7" JNull
                    (initial_world sample_env))).
    reflexivity.
Defined.

(** C9, as stated, fails: the id [1.5] is not an integer, yet the validator
    accepts it and the statement is sent to the store; the answer is not
    the client error. *)
Lemma fractional_id_reaches_store :
  let '(answer, w') :=
    hono (get_route sample_env Testimonial "1.5") (initial_world sample_env) in
  JS.to_integer (JS.Number_of_string "1.5") = None
  /\ trace w' = [Sql (SelectById Testimonial (JS.Fin (3 # 2)))]
  /\ status answer = 500.
Proof. vm_compute. repeat split; reflexivity. Qed.

(** ** Carousel images of a row *)

#[local] Instance index_le_total : Total Db.index_le.
Proof. intros r1 r2. unfold Db.index_le. lia. Qed.

Lemma has_row_spec (z : Z) (r : row) :
  Db.has_row z r = true <-> r !! "row" = Some (DInt z).
Proof.
  unfold Db.has_row. destruct (r !! "row") as [[z'| | | | |]|]; try (split; congruence).
  rewrite Z.eqb_eq. split; congruence.
Qed.

Lemma to_integer_value (q : Q) (z : Z) :
  JS.to_integer (JS.Fin q) = Some z -> (q == inject_Z z)%Q.
Proof.
  unfold JS.to_integer.
  destruct (Z.eqb_spec (Z.pos (Qden (Qred q))) 1) as [Hden|]; [| done].
  intros [= <-]. rewrite <- (Qred_correct q) at 1.
  destruct (Qred q) as [num den]. cbn in *. injection Hden as ->. reflexivity.
Qed.

(** A text that denotes an integer of at least 1 passes the validator. *)
Lemma integer_accepted (n : JS.number) (z : Z) :
  Db.pg_int4 n = Some z -> 1 <= z -> accepted_id n = true.
Proof.
  unfold Db.pg_int4. destruct (JS.to_integer n) as [z'|] eqn:Hint; [| done].
  cbn. case_match; [| done]. intros [= ->] Hz.
  destruct n as [| |q]; try done.
  apply accepted_id_spec. exists q. split; [done |].
  rewrite (to_integer_value _ _ Hint).
  change (inject_Z 1 <= inject_Z z)%Q. by rewrite <- Zle_Qle.
Qed.

(** C5. For a row number [z] given as the path parameter, and whatever
    the order in which the records were inserted, the answer lists the
    records of the table whose [row] is [z], each as often as it is
    stored, in ascending order of [index]. *)
Theorem carousel_row_sorted_by_index (E : env) (w : world) (rowId : string) (z : Z) :
  let n := JS.Number_of_string rowId in
  Db.pg_int4 n = Some z ->
  1 <= z ->
  sql_fails E (SelectByRowOrderByIndex n) = false ->
  exists images,
    hono (carouselImages_get_row E rowId) w =
      (c_json (Json_data images) 200, log (Sql (SelectByRowOrderByIndex n)) w)
    /\ Sorted Db.index_le images
    /\ images ≡ₚ filter (fun r => Db.has_row z r) (rows (db w CarouselImage))
    /\ (forall r, r ∈ images <->
                  r ∈ rows (db w CarouselImage) /\ r !! "row" = Some (DInt z)).
Proof.
  intros n Hint Hz Hok.
  exists (merge_sort Db.index_le
            (filter (fun r => Db.has_row z r) (rows (db w CarouselImage)))).
  split; [| split; [| split]].
  - unfold carouselImages_get_row, zValidator.
    rewrite rowId_param_parse. fold n. rewrite (integer_accepted _ _ Hint Hz).
    rewrite lookup_singleton_eq. cbn [number_of].
    unfold hono, bind, ret, Db.run. rewrite Hok, Hint. reflexivity.
  - apply (Sorted_merge_sort _).
  - apply merge_sort_Permutation.
  - intros r. rewrite merge_sort_Permutation, list_elem_of_filter.
    rewrite <- has_row_spec. unfold Is_true.
    destruct (Db.has_row z r); cbn; intuition congruence.
Qed.

Lemma carousel_row_sorted_by_index_witness :
  exists images,
    hono (carouselImages_get_row sample_env "2") carousel_world =
      (c_json (Json_data images) 200,
       log (Sql (SelectByRowOrderByIndex (JS.Fin 2))) carousel_world)
    /\ Sorted Db.index_le images
    /\ images ≡ₚ filter (fun r => Db.has_row 2 r) (rows (db carousel_world CarouselImage))
    /\ (forall r, r ∈ images <->
                  r ∈ rows (db carousel_world CarouselImage)
                  /\ r !! "row" = Some (DInt 2)).
Proof.
  apply (carousel_row_sorted_by_index sample_env carousel_world "2" 2);
    [reflexivity | lia | reflexivity].
Defined.

Example carousel_row_2 :
  fst (hono (carouselImages_get_row sample_env "2") carousel_world) =
    c_json (Json_data [carousel_row 3 2 10; carousel_row 1 2 30]) 200.
Proof. vm_compute. reflexivity. Qed.

(** ** Strict objects *)

Lemma unrecognized_nil (o : Zod.object) (input : gmap string json) :
  (forall k, is_Some (input !! k) -> k ∈ map fst (Zod.shape o)) ->
  Zod.unrecognized o input = [].
Proof.
  intros Hkeys. unfold Zod.unrecognized.
  assert (Forall (fun k => k ∈ map fst (Zod.shape o)) (map fst (map_to_list input)))
    as Hall.
  { apply Forall_forall. intros k Hk.
    apply list_elem_of_In, in_map_iff in Hk as ([k' v] & <- & Hin).
    apply Hkeys. exists v. by apply elem_of_map_to_list, list_elem_of_In. }
  induction Hall as [|k ks Hk _ IH]; [done |].
  rewrite filter_cons. by case_decide.
Qed.

Lemma members_key (kvs : list (string * json)) (k : string) :
  is_Some (members kvs !! k) -> k ∈ map fst kvs.
Proof.
  intros [v Hv]. apply elem_of_list_to_map_2 in Hv.
  apply list_elem_of_In, in_map_iff. exists (k, v). split; [done |].
  apply in_rev. by apply list_elem_of_In.
Qed.

Lemma unrecognized_none (o : Zod.object) (kvs : list (string * json)) :
  Forall (fun member => fst member ∈ map fst (Zod.shape o)) kvs ->
  Zod.unrecognized o (members kvs) = [].
Proof.
  intros Hall. apply unrecognized_nil. intros k Hk.
  apply members_key, list_elem_of_In, in_map_iff in Hk as (member & <- & Hin).
  rewrite Forall_forall in Hall. by apply Hall, list_elem_of_In.
Qed.

Lemma append_empty_r (a : string) : a +:+ "" = a.
Proof. induction a as [|c a IH]; [done |]. by rewrite append_cons, IH. Qed.

Lemma nonempty_length (s : string) : s <> "" -> (1 <=? String.length s)%nat = true.
Proof. by destruct s. Qed.

(** ** The contact form *)

(** C7. A contact-form request whose four fields are valid (non-empty
    names and message, an address the validator accepts, no other member)
    makes exactly one call of the mail transport. Its [from] is the
    sender's address, its [to] is the configured [EMAIL_TO], and its
    subject contains "firstname lastname". The answer is 200 when the
    transport accepts the message and 500 with its reason otherwise. *)
Theorem contact_mail_envelope (E : env) (w : world) (kvs : list (string * json))
    (firstname lastname address message : string) :
  members kvs !! "firstname" = Some (JStr firstname) ->
  members kvs !! "lastname" = Some (JStr lastname) ->
  members kvs !! "email" = Some (JStr address) ->
  members kvs !! "message" = Some (JStr message) ->
  Forall (fun member => fst member ∈ ["firstname"; "lastname"; "email"; "message"])
    kvs ->
  firstname <> "" -> lastname <> "" -> message <> "" ->
  format_ok E "email" address = true ->
  exists mail,
    hono (email_post E (JObj kvs)) w =
      (match sendMail_fails E mail with
       | None => c_json (Json_notice "Email sent successfully") 200
       | Some reason => c_json (Json_error ("Failed to send email: " +:+ reason)) 500
       end,
       log (SendMail mail) w)
    /\ from mail = address
    /\ to mail = EMAIL_TO E
    /\ JS.includes (subject mail) (firstname +:+ " " +:+ lastname) = true.
Proof.
  intros Hf Hl Ha Hm Hkeys Hf1 Hl1 Hm1 Hfmt.
  set (title := "New Contact Form Message from " +:+ firstname +:+ " " +:+ lastname).
  exists {| from := address; to := EMAIL_TO E; subject := title; text := message;
            html := generateEmailTemplate
                      (firstname +:+ " " +:+ lastname +:+ " <" +:+ address +:+ ">")
                      title message |}.
  split; [| split; [reflexivity | split; [reflexivity |]]].
  - unfold email_post, zValidator, Zod.parse_object, EmailSendSchema, EmailSchema,
      strict_object.
    cbn [Zod.strict Zod.shape andb].
    rewrite unrecognized_none by exact Hkeys.
    rewrite bool_decide_eq_true_2 by reflexivity.
    cbn [negb Zod.parse_shape]. rewrite Hf, Hl, Ha, Hm.
    cbn [Zod.parse]. rewrite Hfmt, !nonempty_length by assumption.
    rewrite !lookup_insert_eq, !lookup_insert_ne, !lookup_insert_eq by done.
    cbn [interpolate].
    unfold hono, try_catch, bind, ret, sendEmail. cbn beta iota. fold title.
    destruct (sendMail_fails E _); reflexivity.
  - cbn [subject]. apply includes_spec.
    exists "New Contact Form Message from ", "". unfold title.
    by rewrite append_empty_r.
Qed.

Lemma contact_mail_envelope_witness :
  exists mail,
    hono (email_post sample_env
            (JObj [("email", JStr "a@b.com"); ("firstname", JStr "A");
                   ("lastname", JStr "B"); ("message", JStr "hi")]))
         (initial_world sample_env) =
      (match sendMail_fails sample_env mail with
       | None => c_json (Json_notice "Email sent successfully") 200
       | Some reason => c_json (Json_error ("Failed to send email: " +:+ reason)) 500
       end,
       log (SendMail mail) (initial_world sample_env))
    /\ from mail = "a@b.com"
    /\ to mail = EMAIL_TO sample_env
    /\ JS.includes (subject mail) ("A" +:+ " " +:+ "B") = true.
Proof.
  apply (contact_mail_envelope sample_env (initial_world sample_env) _ "A" "B"
           "a@b.com" "hi"); try done.
  by apply (bool_decide_unpack _).
Defined.

(** ** Updates without fields *)

Lemma update_shapes :
  Zod.shape CarouselImageUpdateSchema =
    [("filename", Zod.optional (Zod.string_min 1));
     ("row", Zod.optional (Zod.coerce_number_min 1))]
  /\ Zod.shape TestimonialUpdateSchema =
    [("name", Zod.optional (Zod.string_min 1));
     ("designation", Zod.optional (Zod.string_min 1));
     ("company", Zod.optional (Zod.string_min 1));
     ("image", Zod.optional (Zod.string_min 1));
     ("content", Zod.optional (Zod.string_min 1))]
  /\ Zod.shape PromotionalOfferUpdateSchema =
    [("title", Zod.optional (Zod.string_min 1));
     ("description", Zod.optional (Zod.string_min 1));
     ("images", Zod.optional (Zod.array_min (Zod.string_min 0) 1));
     ("link", Zod.optional (Zod.optional (Zod.string_min 0)))]
  /\ Zod.shape AttorneyUpdateSchema =
    [("name", Zod.optional (Zod.string_min 1));
     ("designation",
      Zod.optional (Zod.default (Zod.optional (Zod.string_min 1)) (JStr "Attorney")));
     ("image", Zod.optional (Zod.string_min 1))]
  /\ Zod.shape WorkUpdateSchema =
    [("title", Zod.optional (Zod.string_min 1));
     ("image", Zod.optional (Zod.string_min 1))]
  /\ Zod.shape OfferUpdateSchema =
    [("title", Zod.optional (Zod.string_min 1));
     ("description", Zod.optional (Zod.string_min 1));
     ("price", Zod.optional (Zod.coerce_number_min 0))]
  /\ Zod.shape BlogUpdateSchema =
    [("title", Zod.optional (Zod.string_min 1));
     ("author", Zod.optional (Zod.string_min 1));
     ("content", Zod.optional (Zod.string_min 1));
     ("image", Zod.optional (Zod.string_min 1))].
Proof. repeat split; vm_compute; reflexivity. Qed.

(** A payload without any recognized field, parsed by the update schema
    of a kind other than attorney: rejected when it has some other member,
    the empty object otherwise. *)
Lemma parse_update_without_fields (f : string -> string -> bool) (k : kind)
    (kvs : list (string * json)) :
  k <> Attorney ->
  Forall (fun key => members kvs !! key = None) (recognized k) ->
  Zod.parse_object f (UpdateSchema k) (JObj kvs) = None
  \/ Zod.parse_object f (UpdateSchema k) (JObj kvs) = Some ∅.
Proof.
  intros Hk Hnone. unfold Zod.parse_object.
  destruct (Zod.strict _ && negb _)%bool; [by left | right].
  unfold recognized in Hnone.
  destruct update_shapes as (Hc & Ht & Hp & Ha & Hw & Ho & Hb).
  destruct k; try done; cbn [UpdateSchema] in *;
    rewrite ?Hc, ?Ht, ?Hp, ?Hw, ?Ho, ?Hb in *; cbn [map fst] in Hnone;
    repeat match goal with
      | H : Forall _ (_ :: _) |- _ => apply Forall_cons in H as [? H]
      end;
    cbn [Zod.parse_shape];
    repeat match goal with
      | H : members kvs !! _ = None |- _ => rewrite H; clear H
      end;
    reflexivity.
Qed.

Lemma Object_keys_empty {A} : length (Object_keys (∅ : gmap string A)) = 0%nat.
Proof. unfold Object_keys. by rewrite map_to_list_empty. Qed.

(** For the six kinds other than attorney, an Update whose payload has no
    recognized field is answered with a client error and leaves the world
    as it was, whether the id exists or not. *)
Lemma update_without_fields_rejected (E : env) (k : kind) (id : string)
    (kvs : list (string * json)) (w : world) :
  k <> Attorney ->
  Forall (fun key => members kvs !! key = None) (recognized k) ->
  exists b, hono (update_route E k id (JObj kvs)) w = (c_json b 400, w).
Proof.
  intros Hk Hnone.
  pose proof (parse_update_without_fields (format_ok E) k kvs Hk Hnone) as Hparse.
  destruct k; try done; cbn [update_route UpdateSchema] in *;
    unfold carouselImages_patch, testimonials_patch, promotionalOffers_patch,
      works_patch, offers_patch, blogs_patch;
    rewrite zValidator_id; (destruct (accepted_id _); [| by eexists]);
    unfold zValidator; destruct Hparse as [-> | ->];
    try (by eexists);
    rewrite ?Object_keys_empty, ?lookup_empty; cbn; by eexists.
Qed.

(** C8 (the code at the failing input). An Update of an attorney with the
    empty payload is not rejected: the schema gives the absent
    [designation] its default, so the validated payload has one field.
    With no such attorney the answer is "not found", after an update
    statement was sent; with the attorney on file the statement
    overwrites the designation and the answer is 200. *)
Theorem attorney_update_with_empty_payload :
  (let '(answer, w') :=
     hono (update_route sample_env Attorney "1" (JObj [])) (initial_world sample_env) in
   answer = c_json (Json_error "Attorney not found") 404
   /\ trace w' =
        [Sql (Update Attorney {[ "designation" := Plain (JStr "Attorney") ]} (JS.Fin 1))])
  /\ (let '(answer, w') :=
        hono (update_route sample_env Attorney "1" (JObj [])) attorney_world in
      answer =
        c_json (Json_message "Attorney updated successfully"
                  (Some (<[ "designation" := DText "Attorney" ]> ann))) 200
      /\ rows (db attorney_world Attorney) = [ann]
      /\ rows (db w' Attorney) = [<[ "designation" := DText "Attorney" ]> ann]).
Proof. split; vm_compute; repeat split; reflexivity. Qed.

(** ** Blob references *)

(** A property of a validated object comes from the schema of its key. *)
Lemma parse_shape_lookup (f : string -> string -> bool)
    (sh : list (string * Zod.schema)) (input out : gmap string json)
    (k : string) (v : json) :
  Zod.parse_shape f sh input = Some out ->
  out !! k = Some v ->
  exists s, (k, s) ∈ sh /\ Zod.parse f s (input !! k) = Zod.Value v.
Proof.
  revert out. induction sh as [|[k' s'] sh IH]; intros out; cbn.
  - intros [= <-]. by rewrite lookup_empty.
  - destruct (Zod.parse f s' (input !! k')) as [| |v'] eqn:Hparse; [done | |];
      destruct (Zod.parse_shape f sh input) as [out'|]; try done; intros [= <-].
    + intros Hk. destruct (IH _ eq_refl Hk) as (s & Hin & Hs).
      exists s. split; [by right | done].
    + destruct (decide (k' = k)) as [-> | Hne].
      * rewrite lookup_insert_eq. intros [= <-]. exists s'. split; [by left | done].
      * rewrite lookup_insert_ne by done. intros Hk.
        destruct (IH _ eq_refl Hk) as (s & Hin & Hs).
        exists s. split; [by right | done].
Qed.

Lemma optional_string_value (f : string -> string -> bool) (input : option json)
    (name : string) :
  Zod.parse f (Zod.optional (Zod.string_min 1)) input = Zod.Value (JStr name) ->
  name <> "".
Proof.
  cbn. destruct input as [[| | |s| |]|]; try done.
  destruct s; [done |]. by intros [= <-].
Qed.

(** The name in the reference field of a validated Update is not empty. *)
Lemma update_reference_nonempty (f : string -> string -> bool) (k : kind)
    (field name : string) (body : json) (data : gmap string json) :
  single_reference k = Some field ->
  Zod.parse_object f (UpdateSchema k) body = Some data ->
  data !! field = Some (JStr name) ->
  name <> "".
Proof.
  intros Hfield Hparse Hname. unfold Zod.parse_object in Hparse.
  destruct body as [| | | | |kvs]; try done.
  destruct (Zod.strict _ && negb _)%bool; [done |].
  destruct (parse_shape_lookup _ _ _ _ _ _ Hparse Hname) as (s & Hin & Hs).
  destruct update_shapes as (Hc & Ht & Hp & Ha & Hw & Ho & Hb).
  destruct k; try done; cbn [UpdateSchema] in *; injection Hfield as <-;
    rewrite ?Hc, ?Ha, ?Hw, ?Hb in Hin;
    repeat (apply elem_of_cons in Hin as [Heq | Hin];
            [try discriminate Heq; injection Heq as ->;
             exact (optional_string_value _ _ _ Hs) |]);
    by apply elem_of_nil in Hin.
Qed.

Lemma Object_keys_nonempty {A} (o : gmap string A) (k : string) (v : A) :
  o !! k = Some v -> (length (Object_keys o) =? 0)%nat = false.
Proof.
  intros Hk. apply Nat.eqb_neq. unfold Object_keys. rewrite length_map.
  intros Hlen. apply nil_length_inv, map_to_list_empty_iff in Hlen.
  by rewrite Hlen, lookup_empty in Hk.
Qed.

(** The check of one name whose file is missing. *)
Lemma missing_file_check (E : env) (name : string) (w : world) :
  Fs.resolve (fs w) (Path.join (filesDir E) name) = None ->
  bind (join_filesDir E (Some (JStr name))) (fun filePath => accessible filePath) w
  = (Ok false, log (FsAccess (Path.join (filesDir E) name)) w).
Proof.
  intros Hres. unfold join_filesDir. run. by rewrite Hres.
Qed.

(** The loop over the images of a promotional offer stops at the first
    name whose file is missing, after checking the names before it. *)
Lemma first_missing_stops (E : env) (present : list string) (missing : string)
    (rest : list json) (w : world) :
  Forall (fun name => Fs.resolve (fs w) (Path.join (filesDir E) name) <> None) present ->
  Fs.resolve (fs w) (Path.join (filesDir E) missing) = None ->
  first_missing E (map JStr present ++ JStr missing :: rest) w =
    (Ok (Some missing),
     after_checks (map (Path.join (filesDir E)) (present ++ [missing])) w).
Proof.
  revert w. induction present as [|name present IH]; intros w Hpresent Hmissing.
  - cbn [map app first_missing]. unfold join_filesDir. run. by rewrite Hmissing.
  - apply Forall_cons in Hpresent as [Hname Hpresent].
    cbn [map app first_missing]. unfold join_filesDir. run.
    destruct (Fs.resolve (fs w) (Path.join (filesDir E) name)); [| done].
    rewrite IH by (autorewrite with world; done). reflexivity.
Qed.

Lemma after_checks_keeps (paths : list string) (w : world) :
  fs (after_checks paths w) = fs w
  /\ db (after_checks paths w) = db w
  /\ trace (after_checks paths w) = (trace w ++ map FsAccess paths)%list.
Proof.
  revert w. induction paths as [|p paths IH]; intros w.
  - cbn. by rewrite app_nil_r.
  - change (after_checks (p :: paths) w) with (after_checks paths (log (FsAccess p) w)).
    destruct (IH (log (FsAccess p) w)) as (-> & -> & ->).
    autorewrite with world. cbn [map]. by rewrite <- app_assoc.
Qed.

(** C2 (amended). A Create or Update of a carousel image, work, attorney
    or blog whose reference names a file that cannot be accessed in the
    blob directory is answered with 404 and the message "File not found";
    a Create or Update of a promotional offer is answered with 404 and
    "File not found: " followed by the first of its image names whose file
    cannot be accessed. In each case the world afterwards is the world
    before with the existence checks added to the trace: no statement was
    sent, no record was created or modified. *)
Theorem missing_blob_is_not_found (E : env) (w : world) :
  (forall k field name body data,
     single_reference k = Some field ->
     Zod.parse_object (format_ok E) (CreateSchema k) body = Some data ->
     data !! field = Some (JStr name) ->
     Fs.resolve (fs w) (Path.join (filesDir E) name) = None ->
     hono (create_route E k body) w =
       (c_json (Json_error "File not found") 404,
        after_checks [Path.join (filesDir E) name] w))
  /\ (forall k field name id body data,
        single_reference k = Some field ->
        accepted_id (JS.Number_of_string id) = true ->
        Zod.parse_object (format_ok E) (UpdateSchema k) body = Some data ->
        data !! field = Some (JStr name) ->
        Fs.resolve (fs w) (Path.join (filesDir E) name) = None ->
        hono (update_route E k id body) w =
          (c_json (Json_error "File not found") 404,
           after_checks [Path.join (filesDir E) name] w))
  /\ (forall present missing rest body data,
        Zod.parse_object (format_ok E) PromotionalOfferCreateSchema body = Some data ->
        data !! "images" = Some (JArr (map JStr present ++ JStr missing :: rest)) ->
        Forall (fun name => Fs.resolve (fs w) (Path.join (filesDir E) name) <> None)
          present ->
        Fs.resolve (fs w) (Path.join (filesDir E) missing) = None ->
        hono (create_route E PromotionalOffer body) w =
          (c_json (Json_error ("File not found: " +:+ missing)) 404,
           after_checks (map (Path.join (filesDir E)) (present ++ [missing])) w))
  /\ (forall present missing rest id body data,
        accepted_id (JS.Number_of_string id) = true ->
        Zod.parse_object (format_ok E) PromotionalOfferUpdateSchema body = Some data ->
        data !! "images" = Some (JArr (map JStr present ++ JStr missing :: rest)) ->
        Forall (fun name => Fs.resolve (fs w) (Path.join (filesDir E) name) <> None)
          present ->
        Fs.resolve (fs w) (Path.join (filesDir E) missing) = None ->
        hono (update_route E PromotionalOffer id body) w =
          (c_json (Json_error ("File not found: " +:+ missing)) 404,
           after_checks (map (Path.join (filesDir E)) (present ++ [missing])) w)).
Proof.
  split; [| split; [| split]].
  - intros k field name body data Hfield Hparse Hname Hres.
    destruct k; try done; cbn [create_route CreateSchema] in *;
      injection Hfield as <-;
      unfold carouselImages_post, attorneys_post, works_post, blogs_post, zValidator;
      rewrite Hparse; cbn beta iota zeta; rewrite Hname;
      unfold join_filesDir; run; by rewrite Hres.
  - intros k field name id body data Hfield Hid Hparse Hname Hres.
    pose proof (update_reference_nonempty _ _ _ _ _ _ Hfield Hparse Hname) as Hne.
    pose proof (Object_keys_nonempty _ _ _ Hname) as Hkeys.
    destruct k; try done; cbn [update_route UpdateSchema] in *;
      injection Hfield as <-;
      unfold carouselImages_patch, attorneys_patch, works_patch, blogs_patch;
      rewrite zValidator_id, Hid; unfold zValidator;
      rewrite Hparse; cbn beta iota zeta; rewrite ?Hkeys, Hname; cbn [truthy];
      rewrite (bool_decide_eq_false_2 _ Hne);
      rewrite ?(bool_decide_eq_false_2 (Some (JStr name) = None)) by done;
      rewrite ?andb_false_r; cbn [negb andb];
      unfold join_filesDir; run; by rewrite Hres.
  - intros present missing rest body data Hparse Himages Hpresent Hres.
    cbn [create_route]. unfold promotionalOffers_post, zValidator.
    rewrite Hparse; cbn beta iota zeta. rewrite Himages. cbn [elements].
    unfold hono, try_catch, bind at 1.
    by rewrite first_missing_stops.
  - intros present missing rest id body data Hid Hparse Himages Hpresent Hres.
    cbn [update_route]. unfold promotionalOffers_patch.
    rewrite zValidator_id, Hid. unfold zValidator.
    rewrite Hparse; cbn beta iota zeta.
    rewrite (Object_keys_nonempty _ _ _ Himages), Himages. cbn [elements truthy].
    unfold hono, try_catch, bind at 1.
    by rewrite first_missing_stops.
Qed.

Lemma missing_blob_is_not_found_witness :
  hono (create_route sample_env CarouselImage carousel_missing)
       (initial_world sample_env) =
    (c_json (Json_error "File not found") 404,
     after_checks [Path.join (filesDir sample_env) "missing.jpg"]
       (initial_world sample_env)).
Proof.
  eapply (proj1 (missing_blob_is_not_found sample_env (initial_world sample_env))
            CarouselImage "filename" "missing.jpg" carousel_missing).
  - reflexivity.
  - vm_compute. reflexivity.
  - vm_compute. reflexivity.
  - vm_compute. reflexivity.
Defined.

(** C2, as stated, fails: the answer for a carousel image whose file is
    missing is the not-found error, but its message does not name the
    file. *)
Lemma missing_blob_not_named :
  let answer :=
    fst (hono (create_route sample_env CarouselImage carousel_missing)
           (initial_world sample_env)) in
  status answer = 404
  /\ payload answer = Json_error "File not found"
  /\ JS.includes "File not found" "missing.jpg" = false.
Proof. vm_compute. repeat split; reflexivity. Qed.

(** ** Prices *)

Example price_literal : JS.Number_of_string "19.99" = price_of_cents 1999.
Proof. vm_compute. reflexivity. Qed.

Lemma object_of_offer (title description price : param) :
  object_of [("title", Some title); ("description", Some description);
             ("price", Some price)]
  = {[ "title" := title; "description" := description; "price" := price ]}.
Proof. reflexivity. Qed.

Ltac map_lookups :=
  repeat first
    [ rewrite lookup_insert_eq
    | rewrite lookup_insert_ne by done
    | rewrite lookup_singleton_eq
    | rewrite lookup_singleton_ne by done
    | rewrite lookup_empty ].

(** The row an accepted Insert of an offer stores. *)
Lemma insert_offer_row (title description title' description' : string) (cents : Z)
    (t : table) (now : Z) :
  Db.pg_varchar 255 title = Some title' ->
  Db.pg_varchar 255 description = Some description' ->
  0 <= cents < 10 ^ 10 ->
  next_id t <= 2 ^ 31 - 1 ->
  Db.insert_row
    {[ "title" := Plain (JStr title); "description" := Plain (JStr description);
       "price" := SqlNumeric (JNum (price_of_cents cents)) ]}
    t now offersTable
  = Some (offer_row (next_id t) title' description' cents).
Proof.
  intros Ht Hd Hcents Hid. unfold offersTable, offer_row, price_of_cents.
  cbn -[Db.pg_numeric_10_2 Db.pg_varchar Z.pow]. map_lookups.
  cbn -[Db.pg_numeric_10_2 Db.pg_varchar Z.pow].
  rewrite Ht, Hd, numeric_of_price by done.
  rewrite (proj2 (Z.leb_le _ _)) by done.
  reflexivity.
Qed.

Lemma offer_create_shape :
  Zod.shape OfferCreateSchema =
    [("title", Zod.string_min 1); ("description", Zod.string_min 1);
     ("price", Zod.coerce_number_min 0)]
  /\ Zod.strict OfferCreateSchema = true
  /\ Zod.strict OfferUpdateSchema = true.
Proof. repeat split; vm_compute; reflexivity. Qed.

Lemma filter_none {A} (P : A -> bool) (l : list A) :
  Forall (fun a => P a = false) l -> filter (fun a => P a) l = [].
Proof.
  induction 1 as [|a l Ha _ IH]; [done |].
  rewrite filter_cons. rewrite Ha. by case_decide.
Qed.

Lemma filter_one {A} (P : A -> bool) (pre post : list A) (a : A) :
  Forall (fun a => P a = false) pre ->
  P a = true ->
  Forall (fun a => P a = false) post ->
  filter (fun a => P a) (pre ++ a :: post)%list = [a].
Proof.
  intros Hpre Ha Hpost.
  rewrite filter_app, filter_cons, !filter_none by done.
  rewrite Ha. by case_decide.
Qed.

Lemma has_id_offer_row (z : Z) (title description : string) (cents : Z) :
  Db.has_id z (offer_row z title description cents) = true.
Proof.
  unfold Db.has_id, offer_row. map_lookups. apply Z.eqb_refl.
Qed.

(** Creating an offer stores its price in cents. *)
Lemma offers_post_stores (E : env) (w : world) (kvs : list (string * json))
    (title description title' description' : string) (cents : Z) :
  members kvs !! "title" = Some (JStr title) ->
  members kvs !! "description" = Some (JStr description) ->
  members kvs !! "price" = Some (JNum (price_of_cents cents)) ->
  Forall (fun member => fst member ∈ ["title"; "description"; "price"]) kvs ->
  title <> "" -> description <> "" ->
  Db.pg_varchar 255 title = Some title' ->
  Db.pg_varchar 255 description = Some description' ->
  0 <= cents < 10 ^ 10 ->
  next_id (db w Offer) <= 2 ^ 31 - 1 ->
  (forall q, sql_fails E q = false) ->
  let created := offer_row (next_id (db w Offer)) title' description' cents in
  exists w1,
    hono (offers_post E (JObj kvs)) w =
      (c_json (Json_message "Offer created successfully" (Some created)) 201, w1)
    /\ rows (db w1 Offer) = (rows (db w Offer) ++ [created])%list.
Proof.
  intros Ht Hd Hp Hkeys Ht1 Hd1 Ht2 Hd2 Hcents Hid Hok created.
  destruct offer_create_shape as (Hshape & Hstrict & _).
  eexists. split.
  - unfold offers_post, zValidator, Zod.parse_object.
    rewrite Hstrict, unrecognized_none by (by rewrite Hshape).
    rewrite bool_decide_eq_true_2 by reflexivity.
    cbn [negb andb]. rewrite Hshape. cbn [Zod.parse_shape]. rewrite Ht, Hd, Hp.
    cbn [Zod.parse Number]. rewrite !nonempty_length by assumption.
    unfold price_of_cents. rewrite price_accepted by done.
    map_lookups. cbn [plain sql_numeric fmap option_fmap option_map default].
    rewrite object_of_offer.
    unfold hono, try_catch, bind, ret, Db.run. rewrite Hok.
    cbn [columns]. autorewrite with world.
    rewrite (insert_offer_row title description title' description' cents) by done.
    reflexivity.
  - cbn. by rewrite decide_True.
Qed.

(** Reading an offer by the id of a stored row returns the row. *)
Lemma offers_get_returns (E : env) (w : world) (id : string) (z : Z) (r : row)
    (rest : list row) :
  Db.pg_int4 (JS.Number_of_string id) = Some z ->
  1 <= z ->
  (forall q, sql_fails E q = false) ->
  filter (fun r => Db.has_id z r) (rows (db w Offer)) = r :: rest ->
  fst (hono (offers_get E id) w) = c_json (Json_datum (Some r)) 200.
Proof.
  intros Hint Hz Hok Hrows. unfold offers_get.
  rewrite zValidator_id, (integer_accepted _ _ Hint Hz), number_of_id.
  unfold hono, try_catch, bind, ret, Db.run. rewrite Hok, Hint.
  autorewrite with world. by rewrite Hrows.
Qed.

Lemma filter_others (z : Z) (pre post : list row) (r : row) :
  Forall (fun r => Db.has_id z r = false) pre ->
  Db.has_id z r = true ->
  Forall (fun r => Db.has_id z r = false) post ->
  filter (fun r => negb (Db.has_id z r)) (pre ++ r :: post)%list = (pre ++ post)%list.
Proof.
  intros Hpre Hr Hpost.
  assert (Hall : forall l, Forall (fun r => Db.has_id z r = false) l ->
                           filter (fun r => negb (Db.has_id z r)) l = l).
  { induction 1 as [|a l Ha _ IH]; [done |].
    rewrite filter_cons, Ha. cbn. by rewrite IH. }
  rewrite filter_app, filter_cons, Hr. cbn. by rewrite !Hall.
Qed.

(** Among rows with other ids, the row put in is the one found by its id. *)
Lemma filter_place (z : Z) (slot : nat) (r : row) (l : list row) :
  Forall (fun r => Db.has_id z r = false) l ->
  Db.has_id z r = true ->
  filter (fun r => Db.has_id z r) (Db.place slot r l) = [r].
Proof.
  intros Hl Hr. unfold Db.place.
  apply filter_one; [by apply Forall_take | done | by apply Forall_drop].
Qed.

Lemma has_id_with_text (z : Z) (column : string) (text : option string) (r : row) :
  column <> "id" -> Db.has_id z (with_text column text r) = Db.has_id z r.
Proof.
  intros Hc. destruct text; [| done]. unfold Db.has_id. cbn.
  by rewrite lookup_insert_ne.
Qed.

Lemma has_id_insert_price (z cents : Z) (r : row) :
  Db.has_id z (<[ "price" := DNumeric cents ]> r) = Db.has_id z r.
Proof. unfold Db.has_id. by rewrite lookup_insert_ne. Qed.

Lemma stored_text (n : nat) (text text' : option string) :
  Db.pg_varchar n <$> text = Some <$> text' ->
  match text with
  | Some t => exists t', text' = Some t' /\ Db.pg_varchar n t = Some t'
  | None => text' = None
  end.
Proof.
  destruct text as [t|], text' as [t'|]; cbn; intros H; simplify_eq; eauto.
Qed.

(** Updating an offer with a price stores the new price in cents. *)
Lemma offers_patch_stores (E : env) (w : world) (kvs : list (string * json))
    (title description title' description' : option string)
    (id : string) (z cents : Z) (pre post : list row) (r : row) :
  members kvs !! "title" = JStr <$> title ->
  members kvs !! "description" = JStr <$> description ->
  members kvs !! "price" = Some (JNum (price_of_cents cents)) ->
  Forall (fun member => fst member ∈ ["title"; "description"; "price"]) kvs ->
  title <> Some "" -> description <> Some "" ->
  Db.pg_varchar 255 <$> title = Some <$> title' ->
  Db.pg_varchar 255 <$> description = Some <$> description' ->
  0 <= cents < 10 ^ 10 ->
  Db.pg_int4 (JS.Number_of_string id) = Some z ->
  1 <= z ->
  rows (db w Offer) = (pre ++ r :: post)%list ->
  Forall (fun r => Db.has_id z r = false) pre ->
  Db.has_id z r = true ->
  Forall (fun r => Db.has_id z r = false) post ->
  (forall q, sql_fails E q = false) ->
  let updated :=
    with_text "title" title'
      (with_text "description" description' (<[ "price" := DNumeric cents ]> r)) in
  exists w1 slot,
    hono (offers_patch E id (JObj kvs)) w =
      (c_json (Json_message "Offer updated successfully" (Some updated)) 200, w1)
    /\ rows (db w1 Offer) = Db.place slot updated (pre ++ post)%list.
Proof.
  intros Ht Hd Hp Hkeys Ht1 Hd1 Ht2 Hd2 Hcents Hint Hz Hrows Hpre Hr Hpost Hok updated.
  destruct offer_create_shape as (_ & _ & Hstrict).
  destruct update_shapes as (_ & _ & _ & _ & _ & Hshape & _).
  apply stored_text in Ht2, Hd2.
  assert (Hsize : forall (m : gmap string param) p,
             bool_decide (size (<[ "price" := p ]> m) = 0%nat) = false).
  { intros m p. apply bool_decide_eq_false_2. intros H0%map_size_empty_iff.
    by apply (insert_non_empty m "price" p). }
  assert (Hsize' : forall (m : gmap string param) k1 p1 p,
             bool_decide (size (<[ k1 := p1 ]> (<[ "price" := p ]> m)) = 0%nat) = false).
  { intros m k1 p1 p. apply bool_decide_eq_false_2. intros H0%map_size_empty_iff.
    by apply (insert_non_empty (<[ "price" := p ]> m) k1 p1). }
  assert (Hsize'' : forall (m : gmap string param) k1 p1 k2 p2 p,
             bool_decide (size (<[ k2 := p2 ]> (<[ k1 := p1 ]> (<[ "price" := p ]> m)))
                          = 0%nat) = false).
  { intros m k1 p1 k2 p2 p. apply bool_decide_eq_false_2. intros H0%map_size_empty_iff.
    by apply (insert_non_empty (<[ k1 := p1 ]> (<[ "price" := p ]> m)) k2 p2). }
  assert (Hkept : filter (fun r => negb (Db.has_id z r)) (pre ++ r :: post)%list
                  = (pre ++ post)%list) by by apply filter_others.
  destruct title as [t|], description as [d|];
    repeat match goal with
           | H : exists _, _ |- _ => destruct H as (? & -> & ?)
           | H : ?o = None |- _ => is_var o; subst o
           end;
    subst updated;
    (eexists _, _; split;
     [ unfold offers_patch;
       rewrite zValidator_id, (integer_accepted _ _ Hint Hz), number_of_id;
       unfold zValidator, Zod.parse_object;
       rewrite Hstrict, unrecognized_none by (by rewrite Hshape);
       rewrite bool_decide_eq_true_2 by reflexivity;
       cbn [negb andb]; rewrite Hshape; cbn [Zod.parse_shape]; rewrite Ht, Hd, Hp;
       cbn [fmap option_fmap option_map Zod.parse Zod.optin Number];
       rewrite ?nonempty_length by congruence;
       unfold price_of_cents; rewrite price_accepted by done;
       (erewrite (Object_keys_nonempty _ "price" (JNum (JS.round (cents # 100))))
          by (by map_lookups));
       map_lookups;
       cbn [plain sql_numeric fmap option_fmap option_map default object_of];
       unfold hono, try_catch, bind, ret, Db.run; rewrite Hok, Hint;
       rewrite ?Hsize, ?Hsize', ?Hsize'';
       cbn [columns offersTable Db.bind_set col identity_col col_name col_type];
       cbn -[Db.pg_numeric_10_2 Db.pg_varchar Z.pow]; map_lookups;
       cbn -[Db.pg_numeric_10_2 Db.pg_varchar Z.pow];
       rewrite numeric_of_price by done;
       repeat match goal with
              | H : Db.pg_varchar _ _ = Some _ |- _ => rewrite H; clear H
              end;
       cbn [fmap option_fmap option_map mbind option_bind];
       autorewrite with world; rewrite Hrows, filter_one by done; cbn [map];
       rewrite <- ?insert_union_l, (left_id_L ∅ (∪)); reflexivity
     | cbn; rewrite decide_True by done; cbn;
       unfold Db.store_versions; cbn [foldl]; by rewrite Hkept ]).
Qed.

(** C6. A price that is a decimal with two fraction digits, [cents / 100]
    with at most eight integer digits, arrives as the binary64 number
    nearest to it; the store receives the decimal text of that number and
    keeps it as [numeric(10, 2)]. The requests are the valid ones the
    store accepts: the title and the description are not empty and fit
    their columns of 255 characters, which store them as [title'] and
    [description']. The record a Create returns and the record read back
    by its id have exactly [cents] hundredths as price. So has the record
    an Update with this price returns, stores and gives back on reading,
    whether or not the Update also carries a title or a description. *)
Theorem price_round_trip (E : env) (w : world) (cents : Z) :
  0 <= cents < 10 ^ 10 ->
  (forall q, sql_fails E q = false) ->
  (forall kvs title description title' description' id,
     members kvs !! "title" = Some (JStr title) ->
     members kvs !! "description" = Some (JStr description) ->
     members kvs !! "price" = Some (JNum (price_of_cents cents)) ->
     Forall (fun member => fst member ∈ ["title"; "description"; "price"]) kvs ->
     title <> "" -> description <> "" ->
     Db.pg_varchar 255 title = Some title' ->
     Db.pg_varchar 255 description = Some description' ->
     1 <= next_id (db w Offer) <= 2 ^ 31 - 1 ->
     Forall (fun r => Db.has_id (next_id (db w Offer)) r = false) (rows (db w Offer)) ->
     Db.pg_int4 (JS.Number_of_string id) = Some (next_id (db w Offer)) ->
     let created := offer_row (next_id (db w Offer)) title' description' cents in
     exists w1,
       hono (offers_post E (JObj kvs)) w =
         (c_json (Json_message "Offer created successfully" (Some created)) 201, w1)
       /\ created !! "price" = Some (DNumeric cents)
       /\ fst (hono (offers_get E id) w1) = c_json (Json_datum (Some created)) 200)
  /\ (forall kvs (title description title' description' : option string) id z pre r post,
        members kvs !! "title" = JStr <$> title ->
        members kvs !! "description" = JStr <$> description ->
        members kvs !! "price" = Some (JNum (price_of_cents cents)) ->
        Forall (fun member => fst member ∈ ["title"; "description"; "price"]) kvs ->
        title <> Some "" -> description <> Some "" ->
        Db.pg_varchar 255 <$> title = Some <$> title' ->
        Db.pg_varchar 255 <$> description = Some <$> description' ->
        Db.pg_int4 (JS.Number_of_string id) = Some z ->
        1 <= z ->
        rows (db w Offer) = (pre ++ r :: post)%list ->
        Forall (fun r => Db.has_id z r = false) pre ->
        Db.has_id z r = true ->
        Forall (fun r => Db.has_id z r = false) post ->
        let updated :=
          with_text "title" title'
            (with_text "description" description' (<[ "price" := DNumeric cents ]> r)) in
        exists w1,
          hono (offers_patch E id (JObj kvs)) w =
            (c_json (Json_message "Offer updated successfully" (Some updated)) 200, w1)
          /\ updated !! "price" = Some (DNumeric cents)
          /\ fst (hono (offers_get E id) w1) = c_json (Json_datum (Some updated)) 200).
Proof.
  intros Hcents Hok. split.
  - intros kvs title description title' description' id
      Ht Hd Hp Hkeys Ht1 Hd1 Ht2 Hd2 Hid Hfresh Hint created.
    destruct (offers_post_stores E w kvs title description title' description' cents)
      as (w1 & Hpost & Hrows); try done; [lia |].
    exists w1. split; [done |]. split.
    + unfold created, offer_row. by map_lookups.
    + apply (offers_get_returns E w1 id (next_id (db w Offer)) created []);
        try done; [lia |].
      rewrite Hrows.
      apply (filter_one _ _ []); [done | apply has_id_offer_row | done].
  - intros kvs title description title' description' id z pre r post
      Ht Hd Hp Hkeys Ht1 Hd1 Ht2 Hd2 Hint Hz Hrows Hpre Hr Hpost updated.
    destruct (offers_patch_stores E w kvs title description title' description'
                id z cents pre post r)
      as (w1 & slot & Hpatch & Hrows1); try done.
    exists w1. split; [done |]. split.
    + unfold updated. destruct title', description'; cbn; by map_lookups.
    + apply (offers_get_returns E w1 id z updated []); try done.
      rewrite Hrows1.
      apply filter_place; [by apply Forall_app |].
      unfold updated. by rewrite !has_id_with_text, has_id_insert_price.
Qed.

Lemma price_round_trip_witness :
  (exists w1,
    hono (offers_post sample_env (JObj offer_1999)) (initial_world sample_env) =
      (c_json (Json_message "Offer created successfully"
                 (Some (offer_row 1 "Will" "Drafting a will" 1999))) 201, w1)
    /\ offer_row 1 "Will" "Drafting a will" 1999 !! "price" = Some (DNumeric 1999)
    /\ fst (hono (offers_get sample_env "1") w1) =
         c_json (Json_datum (Some (offer_row 1 "Will" "Drafting a will" 1999))) 200)
  /\ (let updated :=
        with_text "title" (Some "Last will")
          (with_text "description" None
             (<[ "price" := DNumeric 1999 ]> (offer_row 1 "Will" "Drafting a will" 2500))) in
      exists w1,
        hono (offers_patch sample_env "1" (JObj offer_retitled)) offer_world =
          (c_json (Json_message "Offer updated successfully" (Some updated)) 200, w1)
        /\ updated !! "price" = Some (DNumeric 1999)
        /\ fst (hono (offers_get sample_env "1") w1) =
             c_json (Json_datum (Some updated)) 200).
Proof.
  split.
  - apply (proj1 (price_round_trip sample_env (initial_world sample_env) 1999
                    ltac:(lia) ltac:(done))
             offer_1999 "Will" "Drafting a will" "Will" "Drafting a will" "1"); try done.
    by apply (bool_decide_unpack _).
  - apply (proj2 (price_round_trip sample_env offer_world 1999 ltac:(lia) ltac:(done))
             offer_retitled (Some "Last will") None (Some "Last will") None "1" 1
             [] (offer_row 1 "Will" "Drafting a will" 2500) []); try done.
    by apply (bool_decide_unpack _).
Defined.

(** ** The store under one statement *)

Lemma run_failure (E : env) (q : statement) (w w' : world) (e : string) :
  Db.run E q w = (Throw e, w') -> w' = log (Sql q) w.
Proof.
  unfold Db.run. destruct (sql_fails E q); [by intros [= _ <-] |].
  destruct q; cbn;
    repeat match goal with
      | |- context [match ?x with _ => _ end] => destruct x; cbn
      end; by intros [= <-] || by intros [= _ <-].
Qed.

Lemma run_read (E : env) (q : statement) (w : world) :
  match q with Select _ | SelectById _ _ | SelectByRowOrderByIndex _ => True | _ => False end ->
  snd (Db.run E q w) = log (Sql q) w.
Proof.
  unfold Db.run. destruct (sql_fails E q); [done |].
  destruct q; try done; cbn; intros _;
    repeat match goal with
      | |- context [match ?x with _ => _ end] => destruct x; cbn
      end; done.
Qed.

Lemma run_insert (E : env) (k : kind) (values : gmap string param) (w w' : world)
    (result : list row) :
  Db.run E (Insert k values) w = (Ok result, w') ->
  exists r, result = [r]
    /\ Db.insert_row values (db w k) (Date_now E (draws w)) (columns k) = Some r
    /\ fs w' = fs w
    /\ rows (db w' k) = (rows (db w k) ++ [r])%list
    /\ next_id (db w' k) = next_id (db w k) + 1
    /\ forall k', k' <> k -> db w' k' = db w k'.
Proof.
  unfold Db.run. destruct (sql_fails E _); [done |].
  autorewrite with world.
  destruct (Db.insert_row _ _ _ _) as [r|] eqn:Hrow; [| done].
  intros [= <- <-]. exists r. repeat split; try done.
  - cbn. by rewrite decide_True.
  - cbn. by rewrite decide_True.
  - intros k' Hk. cbn. by rewrite decide_False.
Qed.

(** A new version is put among the rows present: the rows are the ones
    present and the new one. *)
Lemma place_perm (slot : nat) (r : row) (l : list row) : Db.place slot r l ≡ₚ r :: l.
Proof.
  unfold Db.place. rewrite <- Permutation_middle. by rewrite take_drop.
Qed.

Lemma store_versions_perm (slot : list row -> row -> nat) (kept versions : list row) :
  Db.store_versions slot kept versions ≡ₚ (kept ++ versions)%list.
Proof.
  unfold Db.store_versions. revert kept.
  induction versions as [|r versions IH]; intros kept; cbn [foldl].
  - by rewrite app_nil_r.
  - rewrite IH, place_perm. apply Permutation_middle.
Qed.

(** The rows that are not new versions stay in their order. *)
Lemma store_versions_filter (slot : list row -> row -> nat) (P : row -> Prop)
    `{!forall r, Decision (P r)} (kept versions : list row) :
  Forall (fun r => ~ P r) versions ->
  filter P (Db.store_versions slot kept versions) = filter P kept.
Proof.
  unfold Db.store_versions. intros Hv. revert kept.
  induction Hv as [|r versions Hr _ IH]; intros kept; cbn [foldl]; [done |].
  rewrite IH. unfold Db.place.
  rewrite filter_app, filter_cons, decide_False by done.
  by rewrite <- filter_app, take_drop.
Qed.

Lemma update_perm (z : Z) (changes : row) (l : list row) :
  (filter (fun r => negb (Db.has_id z r)) l
   ++ map (fun r => changes ∪ r) (filter (fun r => Db.has_id z r) l))%list
  ≡ₚ map (fun r => if Db.has_id z r then changes ∪ r else r) l.
Proof.
  induction l as [|r l IH]; [done |]. rewrite !filter_cons. cbn [map].
  destruct (Db.has_id z r); cbn.
  - rewrite decide_False by (by intros []). rewrite decide_True by done. cbn [map].
    by rewrite <- Permutation_middle, IH.
  - rewrite decide_True by done. rewrite decide_False by (by intros []). cbn.
    by rewrite IH.
Qed.

Lemma run_update (E : env) (k : kind) (set : gmap string param) (id : JS.number)
    (w w' : world) (result : list row) :
  Db.run E (Update k set id) w = (Ok result, w') ->
  exists z changes,
    Db.pg_int4 id = Some z
    /\ Db.bind_set set (columns k) = Some changes
    /\ result = map (fun r => changes ∪ r) (filter (fun r => Db.has_id z r) (rows (db w k)))
    /\ fs w' = fs w
    /\ rows (db w' k) =
         Db.store_versions (tuple_slot E (trace w ++ [Sql (Update k set id)])%list)
           (filter (fun r => negb (Db.has_id z r)) (rows (db w k))) result
    /\ rows (db w' k) ≡ₚ
         map (fun r => if Db.has_id z r then changes ∪ r else r) (rows (db w k))
    /\ next_id (db w' k) = next_id (db w k)
    /\ next_index (db w' k) = next_index (db w k)
    /\ forall k', k' <> k -> db w' k' = db w k'.
Proof.
  unfold Db.run. destruct (sql_fails E _); [done |].
  case_bool_decide; [done |]. autorewrite with world.
  destruct (Db.pg_int4 id) as [z|]; [| done].
  destruct (Db.bind_set _ _) as [changes|]; [| done].
  intros [= <- <-]. exists z, changes. repeat split; try done.
  - cbn. by rewrite decide_True.
  - cbn. rewrite decide_True by done. cbn.
    by rewrite store_versions_perm, update_perm.
  - cbn. by rewrite decide_True.
  - cbn. by rewrite decide_True.
  - intros k' Hk. cbn. by rewrite decide_False.
Qed.

Lemma run_delete (E : env) (k : kind) (id : JS.number) (w w' : world)
    (result : list row) :
  Db.run E (Delete k id) w = (Ok result, w') ->
  exists z,
    Db.pg_int4 id = Some z
    /\ result = filter (fun r => Db.has_id z r) (rows (db w k))
    /\ fs w' = fs w
    /\ rows (db w' k) = filter (fun r => negb (Db.has_id z r)) (rows (db w k))
    /\ next_id (db w' k) = next_id (db w k)
    /\ next_index (db w' k) = next_index (db w k)
    /\ forall k', k' <> k -> db w' k' = db w k'.
Proof.
  unfold Db.run. destruct (sql_fails E _); [done |].
  autorewrite with world.
  destruct (Db.pg_int4 id) as [z|]; [| done].
  intros [= <- <-]. exists z. repeat split; try done.
  - cbn. by rewrite decide_True.
  - cbn. by rewrite decide_True.
  - cbn. by rewrite decide_True.
  - intros k' Hk. cbn. by rewrite decide_False.
Qed.

(** *** Records and their ids *)

Lemma has_id_spec (z : Z) (r : row) : Db.has_id z r = true <-> id_of r = Some z.
Proof.
  unfold Db.has_id, id_of. destruct (r !! "id") as [[z'| | | | |]|]; try (split; congruence).
  rewrite Z.eqb_eq. split; congruence.
Qed.

Lemma has_id_false (z : Z) (r : row) : Db.has_id z r = false <-> id_of r <> Some z.
Proof. rewrite <- has_id_spec. by destruct (Db.has_id z r). Qed.

(** The columns a [.set(...)] changes are columns it names. *)
Lemma bind_set_lookup (set : gmap string param) (cols : list column)
    (changes : gmap string dbval) (c : string) :
  Db.bind_set set cols = Some changes -> set !! c = None -> changes !! c = None.
Proof.
  revert changes. induction cols as [|column cols IH]; intros changes; cbn.
  - by intros [= <-].
  - destruct (Db.bind_set set cols) as [changes'|]; [| done]. cbn.
    destruct (set !! col_name column) as [p|] eqn:Hp.
    + destruct (Db.bind_param _ p) as [v|]; [| done]. cbn. intros [= <-] Hc.
      rewrite lookup_insert_ne by congruence. by apply IH.
    + intros [= <-]. by apply IH.
Qed.

Lemma id_of_union (changes r : row) :
  changes !! "id" = None -> id_of (changes ∪ r) = id_of r.
Proof.
  intros Hc. unfold id_of. by rewrite lookup_union_r.
Qed.

(** Every table starts with its identity column: the inserted record gets
    the next value of the sequence as its id. *)
Lemma insert_row_id (values : gmap string param) (t : table) (now : Z) (k : kind)
    (r : row) :
  Db.insert_row values t now (columns k) = Some r ->
  id_of r = Some (next_id t) /\ next_id t <= 2 ^ 31 - 1.
Proof.
  assert (exists cols, columns k = identity_col "id" :: cols) as [cols ->]
    by (destruct k; by eexists).
  cbn [Db.insert_row]. unfold Db.insert_column at 1. cbn [col_identity identity_col col_name].
  destruct (values !! "id"); [done |].
  destruct (Z.leb_spec (next_id t) (2 ^ 31 - 1)); [| done]. cbn.
  destruct (Db.insert_row _ _ _ cols); [| done]. cbn. intros [= <-].
  split; [| done]. unfold id_of. by rewrite lookup_insert_eq.
Qed.

(** ** The checks before a statement *)

Lemma join_filesDir_world (E : env) (name : option json) (w w' : world)
    (o : outcome string) :
  join_filesDir E name w = (o, w') -> w' = w.
Proof.
  unfold join_filesDir, ret, throw.
  destruct name as [[| | |s| |]|]; by intros [= _ <-].
Qed.

Lemma accessible_world (filePath : string) (w w' : world) (o : outcome bool) :
  accessible filePath w = (o, w') ->
  w' = log (FsAccess filePath) w /\ exists found, o = Ok found.
Proof.
  unfold accessible, try_catch, bind, ret, Fs.access.
  destruct (Fs.resolve _ _); intros [= <- <-]; eauto.
Qed.

Lemma first_missing_world (E : env) (names : list json) (w w' : world)
    (o : outcome (option string)) :
  first_missing E names w = (o, w') -> same_store w w'.
Proof.
  revert w. induction names as [|name names IH]; intros w; cbn [first_missing].
  - unfold ret. by intros [= _ <-].
  - unfold bind at 1.
    destruct (join_filesDir E (Some name) w) as [[p|e] w1] eqn:Hj;
      apply join_filesDir_world in Hj as ->.
    2: { by intros [= _ <-]. }
    unfold bind at 1.
    destruct (accessible p w) as [o1 w1] eqn:Ha.
    apply accessible_world in Ha as (-> & found & ->).
    destruct found.
    + intros H. apply IH in H. by destruct H.
    + unfold ret. by intros [= _ <-].
Qed.

(** Walk through the checks of a handler, up to its statement. *)
Ltac checks E :=
  repeat (match goal with
    | |- context [join_filesDir E ?x ?w] =>
        let H := fresh "Hjoin" in
        destruct (join_filesDir E x w) as [[?filePath|?] ?w] eqn:H;
        apply join_filesDir_world in H as ->
    | |- context [accessible ?p ?w] =>
        let H := fresh "Haccess" in
        destruct (accessible p w) as [? ?w] eqn:H;
        apply accessible_world in H as (-> & [|] & ->)
    | |- context [first_missing E ?l ?w] =>
        let H := fresh "Hmissing" in
        destruct (first_missing E l w) as [[[?|]|?] ?w] eqn:H;
        apply first_missing_world in H
    | |- context [if ?b then _ else _] => destruct b eqn:?
    end; cbn [negb]).

Ltac store :=
  unfold same_store in *; autorewrite with world; intuition congruence.

Ltac settle E :=
  first
    [ left; eexists _, _; split; [reflexivity | split; [by cbn | store]]
    | match goal with
      | |- context [Db.run E ?q ?wc] =>
          match q with
          | Insert _ ?values => right; exists values, wc; eexists _, _
          | Update _ ?set _ => right; exists set, wc; eexists _, _
          | _ => right; exists wc; eexists _, _
          end;
          (split; [| split]);
          [ .. | destruct (Db.run E q wc) as [[[|? ?]|?] ?]; reflexivity ];
          [ store | by cbn ]
      end ].

(** A Create either ends in its checks, with an answer that is not 201 and
    the store as it was, or sends one insert statement. *)
Lemma create_cases (E : env) (k : kind) (body : json) (w : world) :
  (exists answer wc,
     hono (create_route E k body) w = (answer, wc)
     /\ status answer <> 201 /\ same_store w wc)
  \/ (exists values wc message failure,
        same_store w wc /\ status failure <> 201
        /\ hono (create_route E k body) w =
             match Db.run E (Insert k values) wc with
             | (Ok result, w') => (c_json (Json_message message (head result)) 201, w')
             | (Throw _, w') => (failure, w')
             end).
Proof.
  destruct k; cbn [create_route];
    unfold carouselImages_post, testimonials_post, promotionalOffers_post,
      attorneys_post, works_post, offers_post, blogs_post, zValidator;
    (destruct (Zod.parse_object _ _ _) as [data|]; [| left; by eexists _, _]);
    unfold hono, bind, try_catch, ret; checks E; settle E.
Qed.

(** The validated payload has no property outside the shape. *)
Lemma parse_shape_keys (f : string -> string -> bool)
    (sh : list (string * Zod.schema)) (input out : gmap string json) (k : string) :
  Zod.parse_shape f sh input = Some out ->
  k ∉ map fst sh ->
  out !! k = None.
Proof.
  intros Hparse Hk. destruct (out !! k) as [v|] eqn:Hv; [| done].
  destruct (parse_shape_lookup _ _ _ _ _ _ Hparse Hv) as (s & Hin & _).
  destruct Hk. apply list_elem_of_fmap. by exists (k, s).
Qed.

Lemma parse_object_keys (f : string -> string -> bool) (o : Zod.object) (body : json)
    (data : gmap string json) (k : string) :
  Zod.parse_object f o body = Some data ->
  k ∉ map fst (Zod.shape o) ->
  data !! k = None.
Proof.
  unfold Zod.parse_object. destruct body as [| | | | |kvs]; try done.
  destruct (Zod.strict _ && negb _)%bool; [done |].
  apply parse_shape_keys.
Qed.

Lemma object_of_lookup_None (l : list (string * option param)) (k : string) :
  k ∉ map fst l -> object_of l !! k = None.
Proof.
  induction l as [|[k' [v|]] l IH]; cbn; [done | |].
  - intros Hk. apply not_elem_of_cons in Hk as [Hne Hk].
    rewrite lookup_insert_ne by done. by apply IH.
  - intros Hk. apply not_elem_of_cons in Hk as [_ Hk]. by apply IH.
Qed.

Ltac no_id :=
  first
    [ apply object_of_lookup_None; by apply (bool_decide_unpack _)
    | rewrite ?lookup_insert_ne by done; rewrite lookup_fmap;
      erewrite parse_object_keys;
      [reflexivity | eassumption | by apply (bool_decide_unpack _)] ].

(** An Update either ends in its checks, with an answer that is not 200
    and the store as it was, or sends one update statement, which does not
    set the id. *)
Lemma update_cases (E : env) (k : kind) (id : string) (body : json) (w : world) :
  (exists answer wc,
     hono (update_route E k id body) w = (answer, wc)
     /\ status answer <> 200 /\ same_store w wc)
  \/ (exists set wc message failure,
        same_store w wc /\ status failure <> 200
        /\ set !! "id" = None
        /\ hono (update_route E k id body) w =
             match Db.run E (Update k set (JS.Number_of_string id)) wc with
             | (Ok [], w') => (not_found (label k), w')
             | (Ok (r :: _), w') => (c_json (Json_message message (Some r)) 200, w')
             | (Throw _, w') => (failure, w')
             end).
Proof.
  destruct k; cbn [update_route label];
    unfold carouselImages_patch, testimonials_patch, promotionalOffers_patch,
      attorneys_patch, works_patch, offers_patch, blogs_patch;
    rewrite zValidator_id;
    (destruct (accepted_id _); [| left; by eexists _, _]);
    unfold zValidator;
    (destruct (Zod.parse_object _ _ _) as [data|] eqn:Hparse; [| left; by eexists _, _]);
    rewrite number_of_id;
    unfold hono, bind, try_catch, ret, new_Date; checks E;
    first
      [ left; eexists _, _; split; [reflexivity | split; [by cbn | store]]
      | match goal with
        | |- context [Db.run E (Update _ ?set _) ?wc] =>
            right; exists set, wc; eexists _, _;
            (split; [| split; [| split]]);
            [ .. | destruct (Db.run E _ wc) as [[[|? ?]|?] ?]; reflexivity ];
            [ store | by cbn | no_id ]
        end ].
Qed.

(** A Delete, a Get and a List send one statement when the id passes the
    validator. *)
Lemma delete_cases (E : env) (k : kind) (id : string) (w : world) :
  exists message failure,
    status failure <> 200
    /\ hono (delete_route E k id) w =
         if accepted_id (JS.Number_of_string id) then
           match Db.run E (Delete k (JS.Number_of_string id)) w with
           | (Ok [], w') => (not_found (label k), w')
           | (Ok (r :: _), w') => (c_json (Json_message message (Some r)) 200, w')
           | (Throw _, w') => (failure, w')
           end
         else (c_json Json_issues 400, w).
Proof.
  destruct k; cbn [delete_route label];
    unfold carouselImages_delete, testimonials_delete, promotionalOffers_delete,
      attorneys_delete, works_delete, offers_delete, blogs_delete;
    rewrite zValidator_id, number_of_id;
    eexists _, _;
    (split;
     [| destruct (accepted_id _); [| reflexivity];
        unfold hono, bind, try_catch, ret;
        destruct (Db.run E _ w) as [[[|? ?]|?] ?]; reflexivity ]);
    by cbn.
Qed.

Lemma get_cases (E : env) (k : kind) (id : string) (w : world) :
  exists failure,
    status failure = 500
    /\ hono (get_route E k id) w =
         if accepted_id (JS.Number_of_string id) then
           match Db.run E (SelectById k (JS.Number_of_string id)) w with
           | (Ok [], w') => (not_found (label k), w')
           | (Ok (r :: _), w') => (c_json (Json_datum (Some r)) 200, w')
           | (Throw _, w') => (failure, w')
           end
         else (c_json Json_issues 400, w).
Proof.
  destruct k; cbn [get_route label];
    unfold carouselImages_get, testimonials_get, promotionalOffers_get,
      attorneys_get, works_get, offers_get, blogs_get;
    rewrite zValidator_id, number_of_id;
    eexists;
    (split;
     [| destruct (accepted_id _); [| reflexivity];
        unfold hono, bind, try_catch, ret;
        destruct (Db.run E _ w) as [[[|? ?]|?] ?]; reflexivity ]);
    by cbn.
Qed.

Lemma list_cases (E : env) (k : kind) (w : world) :
  exists failure,
    status failure = 500
    /\ hono (list_route E k) w =
         match Db.run E (Select k) w with
         | (Ok all, w') => (c_json (Json_data all) 200, w')
         | (Throw _, w') => (failure, w')
         end.
Proof.
  destruct k; cbn [list_route];
    unfold carouselImages_list, testimonials_list, promotionalOffers_list,
      attorneys_list, works_list, offers_list, blogs_list;
    eexists;
    (split;
     [| unfold hono, bind, try_catch, ret;
        destruct (Db.run E _ w) as [[?|?] ?]; reflexivity ]);
    by cbn.
Qed.

(** ** What the entity routes do to the store *)

Lemma table_eq (t t' : table) :
  rows t = rows t' -> next_id t = next_id t' -> next_index t = next_index t' -> t = t'.
Proof. destruct t, t'. cbn. congruence. Qed.

Lemma filter_negb_all {A} (P : A -> bool) (l : list A) :
  filter (fun a => P a) l = [] -> filter (fun a => negb (P a)) l = l.
Proof.
  induction l as [|a l IH]; [done |]. rewrite !filter_cons.
  destruct (P a); cbn.
  - by rewrite decide_True.
  - rewrite decide_False by (by intros []). rewrite decide_True by done.
    intros Hl. by rewrite IH.
Qed.

(** X1. The routes that read (a record by id, a whole table, the carousel
    images of a row, a stored file) leave the files and every table as
    they were, whatever they answer. *)
Theorem reads_change_nothing (E : env) (w : world) :
  (forall k id, same_store w (snd (hono (get_route E k id) w)))
  /\ (forall k, same_store w (snd (hono (list_route E k) w)))
  /\ (forall rowId, same_store w (snd (hono (carouselImages_get_row E rowId) w)))
  /\ (forall filename, same_store w (snd (hono (files_get E filename) w))).
Proof.
  split; [| split; [| split]].
  - intros k id. destruct (get_cases E k id w) as (failure & _ & ->).
    destruct (accepted_id _); [| done].
    pose proof (run_read E (SelectById k (JS.Number_of_string id)) w I) as Hw.
    destruct (Db.run E _ w) as [[[|r rs]|e] w']; cbn in *; by subst.
  - intros k. destruct (list_cases E k w) as (failure & _ & ->).
    pose proof (run_read E (Select k) w I) as Hw.
    destruct (Db.run E _ w) as [[all|e] w']; cbn in *; by subst.
  - intros rowId. unfold carouselImages_get_row, zValidator.
    destruct (Zod.parse_object _ _ _) as [param|]; [| done].
    unfold hono, bind, ret.
    pose proof (run_read E (SelectByRowOrderByIndex (number_of (param !! "rowId")))
                  w I) as Hw.
    destruct (Db.run E _ w) as [[all|e] w']; cbn in *; by subst.
  - intros filename. unfold files_get.
    repeat match goal with
      | |- context [if ?b then _ else _] => destruct b
      end; run;
      repeat match goal with
        | |- context [Fs.resolve ?f ?p] => destruct (Fs.resolve f p) as [[?|]|]
        end; done.
Qed.

(** X2. The routes that write records never change the files. When a
    Create is not answered with 201, or an Update or Delete not with 200,
    every table is as it was before the request. *)
Theorem refused_write_changes_nothing (E : env) (w : world) :
  (forall k body,
     let '(answer, w') := hono (create_route E k body) w in
     fs w' = fs w /\ (status answer <> 201 -> forall k', db w' k' = db w k'))
  /\ (forall k id body,
        let '(answer, w') := hono (update_route E k id body) w in
        fs w' = fs w /\ (status answer <> 200 -> forall k', db w' k' = db w k'))
  /\ (forall k id,
        let '(answer, w') := hono (delete_route E k id) w in
        fs w' = fs w /\ (status answer <> 200 -> forall k', db w' k' = db w k')).
Proof.
  split; [| split].
  - intros k body.
    destruct (create_cases E k body w)
      as [(answer & wc & -> & _ & Hfs & Hdb)
         | (values & wc & message & failure & (Hfs & Hdb) & _ & ->)].
    { split; [done | intros _ k'; by rewrite Hdb]. }
    destruct (Db.run E _ wc) as [[result|e] w'] eqn:Hrun.
    + apply run_insert in Hrun as (r & -> & _ & Hfs' & _).
      split; [congruence | by intros []].
    + apply run_failure in Hrun as ->.
      split; [done | intros _ k'; cbn; by rewrite Hdb].
  - intros k id body.
    destruct (update_cases E k id body w)
      as [(answer & wc & -> & _ & Hfs & Hdb)
         | (set & wc & message & failure & (Hfs & Hdb) & _ & _ & ->)].
    { split; [done | intros _ k'; by rewrite Hdb]. }
    destruct (Db.run E _ wc) as [[result|e] w'] eqn:Hrun.
    + apply run_update in Hrun
        as (z & changes & _ & _ & -> & Hfs' & Hrows & _ & Hnext & Hindex & Hother).
      destruct (filter (fun r => Db.has_id z r) _) as [|r rs] eqn:Hfilter; cbn [map].
      * split; [congruence |]. intros _ k'. rewrite <- Hdb.
        destruct (decide (k' = k)) as [-> | Hk]; [| by apply Hother].
        apply table_eq; [| done | done].
        rewrite Hrows. cbn. by apply filter_negb_all.
      * split; [congruence | by intros []].
    + apply run_failure in Hrun as ->.
      split; [done | intros _ k'; cbn; by rewrite Hdb].
  - intros k id.
    destruct (delete_cases E k id w) as (message & failure & _ & ->).
    destruct (accepted_id _); [| done].
    destruct (Db.run E _ w) as [[result|e] w'] eqn:Hrun.
    + apply run_delete in Hrun as (z & _ & -> & Hfs' & Hrows & Hnext & Hindex & Hother).
      destruct (filter (fun r => Db.has_id z r) _) as [|r rs] eqn:Hfilter.
      * split; [done |]. intros _ k'.
        destruct (decide (k' = k)) as [-> | Hk]; [| by apply Hother].
        apply table_eq; [| done | done].
        rewrite Hrows. by apply filter_negb_all.
      * split; [done | by intros []].
    + apply run_failure in Hrun as ->. done.
Qed.

Lemma refused_write_changes_nothing_witness :
  let '(answer, w') :=
    hono (create_route sample_env CarouselImage carousel_missing)
      (initial_world sample_env) in
  fs w' = fs (initial_world sample_env)
  /\ (status answer <> 201 ->
      forall k', db w' k' = db (initial_world sample_env) k').
Proof.
  exact (proj1 (refused_write_changes_nothing sample_env (initial_world sample_env))
           CarouselImage carousel_missing).
Defined.



(** X4. A Delete answered with 200 returns a record that was stored under
    the id of the request; afterwards the table holds the records with
    another id, in their order, and no record with that id. The other
    tables and the files are as before. *)
Theorem deleted_record_is_removed (E : env) (k : kind) (id : string)
    (w w' : world) (answer : response) :
  hono (delete_route E k id) w = (answer, w') ->
  status answer = 200 ->
  exists z message r,
    Db.pg_int4 (JS.Number_of_string id) = Some z
    /\ answer = c_json (Json_message message (Some r)) 200
    /\ r ∈ rows (db w k) /\ id_of r = Some z
    /\ rows (db w' k) = filter (fun r => id_of r <> Some z) (rows (db w k))
    /\ (forall k', k' <> k -> db w' k' = db w k')
    /\ fs w' = fs w.
Proof.
  destruct (delete_cases E k id w) as (message & failure & Hf & ->).
  destruct (accepted_id _); [| by intros [= <- <-]].
  destruct (Db.run E _ w) as [[result|e] w1] eqn:Hrun; cycle 1.
  { by intros [= <- <-]. }
  apply run_delete in Hrun as (z & Hz & -> & Hfs' & Hrows & Hnext & Hindex & Hother).
  destruct (filter (fun r => Db.has_id z r) _) as [|r rs] eqn:Hfilter;
    intros [= <- <-]; [done |]. intros _.
  assert (r ∈ filter (fun r => Db.has_id z r) (rows (db w k))) as Hr
    by (rewrite Hfilter; left).
  apply list_elem_of_filter in Hr as [Hid Hr].
  exists z, message, r. repeat split; try done.
  - by apply has_id_spec, Is_true_true.
  - rewrite Hrows. apply list_filter_iff. intros r'.
    rewrite <- has_id_false. by destruct (Db.has_id z r').
Qed.

Lemma deleted_record_is_removed_witness :
  exists z message r,
    Db.pg_int4 (JS.Number_of_string "1") = Some z
    /\ fst (hono (delete_route sample_env Attorney "1") attorney_world)
       = c_json (Json_message message (Some r)) 200
    /\ r ∈ rows (db attorney_world Attorney) /\ id_of r = Some z
    /\ rows (db (snd (hono (delete_route sample_env Attorney "1") attorney_world))
               Attorney)
       = filter (fun r => id_of r <> Some z) (rows (db attorney_world Attorney))
    /\ (forall k', k' <> Attorney ->
          db (snd (hono (delete_route sample_env Attorney "1") attorney_world)) k'
          = db attorney_world k')
    /\ fs (snd (hono (delete_route sample_env Attorney "1") attorney_world))
       = fs attorney_world.
Proof.
  apply (deleted_record_is_removed sample_env Attorney "1" attorney_world).
  - by destruct (hono _ _).
  - vm_compute. reflexivity.
Defined.

Lemma filter_has_id_removed (z : Z) (l : list row) :
  filter (fun r => Db.has_id z r) (filter (fun r => negb (Db.has_id z r)) l) = [].
Proof.
  apply filter_none, Forall_forall. intros r Hr.
  apply list_elem_of_filter in Hr as [Hr _]. by destruct (Db.has_id z r).
Qed.

(** X5. After a Delete answered with 200, a Get of the same id is answered
    with "not found", and so is a second Delete (when the store accepts
    the statements). *)
Theorem deleted_record_is_not_found (E : env) (k : kind) (id : string)
    (w w' : world) (answer : response) :
  hono (delete_route E k id) w = (answer, w') ->
  status answer = 200 ->
  sql_fails E (SelectById k (JS.Number_of_string id)) = false ->
  fst (hono (get_route E k id) w') = not_found (label k)
  /\ fst (hono (delete_route E k id) w') = not_found (label k).
Proof.
  destruct (delete_cases E k id w) as (message & failure & Hf & Hdelete).
  rewrite Hdelete.
  destruct (accepted_id _) eqn:Hid; [| by intros [= <- <-]].
  destruct (Db.run E _ w) as [[result|e] w1] eqn:Hrun; cycle 1.
  { by intros [= <- <-]. }
  pose proof Hrun as Hsent.
  apply run_delete in Hrun as (z & Hz & -> & _ & Hrows & _).
  destruct (filter (fun r => Db.has_id z r) _) as [|r rs] eqn:Hfilter;
    intros [= <- <-]; [done |]. intros _ Hok.
  split.
  - destruct (get_cases E k id w1) as (failure' & _ & ->). rewrite Hid.
    unfold Db.run. rewrite Hok, Hz. autorewrite with world.
    by rewrite Hrows, filter_has_id_removed.
  - destruct (delete_cases E k id w1) as (message' & failure' & _ & ->). rewrite Hid.
    unfold Db.run in *.
    destruct (sql_fails E (Delete k _)); [done |]. rewrite Hz. autorewrite with world.
    by rewrite Hrows, filter_has_id_removed.
Qed.

Lemma deleted_record_is_not_found_witness :
  let w' := snd (hono (delete_route sample_env Attorney "1") attorney_world) in
  fst (hono (get_route sample_env Attorney "1") w') = not_found (label Attorney)
  /\ fst (hono (delete_route sample_env Attorney "1") w') = not_found (label Attorney).
Proof.
  apply (deleted_record_is_not_found sample_env Attorney "1" attorney_world _
           (fst (hono (delete_route sample_env Attorney "1") attorney_world))).
  - by destruct (hono _ _).
  - vm_compute. reflexivity.
  - reflexivity.
Defined.

Lemma filter_twice {A} (P : A -> Prop) `{!forall a, Decision (P a)} (l : list A) :
  filter P (filter P l) = filter P l.
Proof.
  induction l as [|a l IH]; [done |]. rewrite filter_cons.
  case_decide; [| done]. rewrite filter_cons, decide_True by done. by rewrite IH.
Qed.

(** X6. An Update answered with 200 returns a record with the id of the
    request, which the table now holds. The records with another id are
    the ones the table had, unchanged and in their order; where among
    them the updated record is found is the store's choice. The table
    has the same ids as before, each as often. The other tables and the
    files are as before. *)
Theorem update_changes_the_target_only (E : env) (k : kind) (id : string)
    (body : json) (w w' : world) (answer : response) :
  hono (update_route E k id body) w = (answer, w') ->
  status answer = 200 ->
  exists z message r,
    Db.pg_int4 (JS.Number_of_string id) = Some z
    /\ answer = c_json (Json_message message (Some r)) 200
    /\ id_of r = Some z /\ r ∈ rows (db w' k)
    /\ filter (fun r => id_of r <> Some z) (rows (db w' k))
       = filter (fun r => id_of r <> Some z) (rows (db w k))
    /\ map id_of (rows (db w' k)) ≡ₚ map id_of (rows (db w k))
    /\ (forall k', k' <> k -> db w' k' = db w k')
    /\ fs w' = fs w.
Proof.
  destruct (update_cases E k id body w)
    as [(answer0 & wc & -> & Hs & _)
       | (set & wc & message & failure & (Hfs & Hdb) & Hf & Hset & ->)].
  { by intros [= <- <-]. }
  destruct (Db.run E _ wc) as [[result|e] w1] eqn:Hrun; cycle 1.
  { by intros [= <- <-]. }
  apply run_update in Hrun
    as (z & changes & Hz & Hchanges & Hresult & Hfs' & Hrows & Hperm & _ & _ & Hother).
  pose proof (bind_set_lookup _ _ _ _ Hchanges Hset) as Hkeep.
  rewrite Hdb in *.
  assert (Forall (fun r => ~ id_of r <> Some z) result) as Hids.
  { rewrite Hresult. apply Forall_fmap, Forall_forall. intros r0 Hr0.
    apply list_elem_of_filter in Hr0 as [Hid _]. apply Is_true_true in Hid.
    unfold compose. rewrite id_of_union by done. apply has_id_spec in Hid. tauto. }
  rewrite Hresult in *.
  destruct (filter (fun r => Db.has_id z r) _) as [|r0 rs] eqn:Hfilter;
    intros [= <- <-]; [done |]. intros _.
  assert (r0 ∈ filter (fun r => Db.has_id z r) (rows (db w k))) as Hr
    by (rewrite Hfilter; left).
  apply list_elem_of_filter in Hr as [Hid Hr]. apply Is_true_true in Hid.
  exists z, message, (changes ∪ r0). repeat split; try done.
  - rewrite id_of_union by done. by apply has_id_spec.
  - rewrite Hperm. apply list_elem_of_fmap. exists r0. by rewrite Hid.
  - rewrite Hrows, store_versions_filter by done.
    rewrite <- (filter_twice (fun r => id_of r <> Some z) (rows (db w k))).
    f_equal. apply list_filter_iff. intros r'.
    rewrite <- has_id_false. by destruct (Db.has_id z r').
  - rewrite Hperm, map_map. erewrite map_ext; [done |].
    intros r'. cbn. destruct (Db.has_id z r'); [by apply id_of_union | done].
  - congruence.
Qed.

Lemma update_changes_the_target_only_witness :
  exists z message r,
    Db.pg_int4 (JS.Number_of_string "1") = Some z
    /\ fst (hono (update_route sample_env Attorney "1" (JObj [("name", JStr "Anne")]))
              attorney_world)
       = c_json (Json_message message (Some r)) 200
    /\ id_of r = Some z
    /\ r ∈ rows (db (snd (hono (update_route sample_env Attorney "1"
                                  (JObj [("name", JStr "Anne")])) attorney_world))
                  Attorney)
    /\ filter (fun r => id_of r <> Some z)
         (rows (db (snd (hono (update_route sample_env Attorney "1"
                                 (JObj [("name", JStr "Anne")])) attorney_world))
                 Attorney))
       = filter (fun r => id_of r <> Some z) (rows (db attorney_world Attorney))
    /\ map id_of
         (rows (db (snd (hono (update_route sample_env Attorney "1"
                                 (JObj [("name", JStr "Anne")])) attorney_world))
                 Attorney))
       ≡ₚ map id_of (rows (db attorney_world Attorney))
    /\ (forall k', k' <> Attorney ->
          db (snd (hono (update_route sample_env Attorney "1"
                           (JObj [("name", JStr "Anne")])) attorney_world)) k'
          = db attorney_world k')
    /\ fs (snd (hono (update_route sample_env Attorney "1"
                        (JObj [("name", JStr "Anne")])) attorney_world))
       = fs attorney_world.
Proof.
  apply (update_changes_the_target_only sample_env Attorney "1"
           (JObj [("name", JStr "Anne")]) attorney_world).
  - by destruct (hono _ _).
  - vm_compute. reflexivity.
Defined.

(** *** The ids of a table *)

Lemma ids_below (t : table) (r : row) :
  ids_in_order t -> r ∈ rows t -> Db.has_id (next_id t) r = false.
Proof.
  intros (_ & Hbelow & _) Hr. rewrite Forall_forall in Hbelow.
  destruct (Hbelow r Hr) as (z & Hz & Hlt).
  apply has_id_false. rewrite Hz. intros [= ->]. lia.
Qed.

Lemma ids_in_order_insert (t t' : table) (r : row) :
  ids_in_order t ->
  id_of r = Some (next_id t) ->
  rows t' = (rows t ++ [r])%list ->
  next_id t' = next_id t + 1 ->
  ids_in_order t'.
Proof.
  intros (Hpos & Hbelow & Hdup) Hid Hrows Hnext. unfold ids_in_order.
  rewrite Hrows, Hnext. split; [lia |]. split.
  - apply Forall_app. split.
    + eapply Forall_impl; [exact Hbelow |]. intros r' (z & Hz & Hlt).
      exists z. split; [done | lia].
    + apply Forall_singleton. exists (next_id t). split; [done | lia].
  - rewrite map_app. cbn [map]. apply NoDup_app. split; [done |]. split.
    + intros o Ho. rewrite list_elem_of_singleton. intros ->.
      apply list_elem_of_fmap in Ho as (r' & Hr' & Hin).
      rewrite Forall_forall in Hbelow. destruct (Hbelow r' Hin) as (z & Hz & Hlt).
      rewrite Hid in Hr'. rewrite Hz in Hr'. injection Hr' as <-. lia.
    + apply NoDup_singleton.
Qed.

Lemma ids_in_order_update (t t' : table) (z : Z) (changes : row) :
  ids_in_order t ->
  changes !! "id" = None ->
  rows t' ≡ₚ map (fun r => if Db.has_id z r then changes ∪ r else r) (rows t) ->
  next_id t' = next_id t ->
  ids_in_order t'.
Proof.
  intros (Hpos & Hbelow & Hdup) Hkeep Hrows Hnext. unfold ids_in_order.
  rewrite Hrows, Hnext.
  assert (forall r, id_of (if Db.has_id z r then changes ∪ r else r) = id_of r) as Hid.
  { intros r. destruct (Db.has_id z r); [by apply id_of_union | done]. }
  split; [done |]. split.
  - apply Forall_fmap. eapply Forall_impl; [exact Hbelow |].
    intros r Hr. unfold compose. by rewrite Hid.
  - rewrite map_map. erewrite map_ext; [exact Hdup |]. exact Hid.
Qed.

Lemma ids_in_order_delete (t t' : table) (z : Z) :
  ids_in_order t ->
  rows t' = filter (fun r => negb (Db.has_id z r)) (rows t) ->
  next_id t' = next_id t ->
  ids_in_order t'.
Proof.
  intros (Hpos & Hbelow & Hdup) Hrows Hnext. unfold ids_in_order.
  rewrite Hrows, Hnext. split; [done |]. split.
  - apply Forall_forall. intros r Hr. apply list_elem_of_filter in Hr as [_ Hr].
    rewrite Forall_forall in Hbelow. by apply Hbelow.
  - clear Hbelow Hrows. induction (rows t) as [|r l IH]; [constructor |].
    cbn [map] in Hdup. apply NoDup_cons in Hdup as [Hr Hdup].
    rewrite filter_cons. case_decide; [| by apply IH].
    cbn [map]. apply NoDup_cons. split; [| by apply IH].
    intros Hin. apply Hr.
    apply list_elem_of_fmap in Hin as (r' & -> & Hin).
    apply list_elem_of_filter in Hin as [_ Hin].
    apply list_elem_of_fmap. by exists r'.
Qed.

(** X7. The routes keep the ids of every table in order: when, before a
    Create, an Update or a Delete, every table has records with distinct
    ids below the next value of its identity sequence, the same holds
    after the request, whatever its payload and its answer. *)
Theorem writes_keep_ids_in_order (E : env) (w : world) :
  (forall k, ids_in_order (db w k)) ->
  (forall k body k', ids_in_order (db (snd (hono (create_route E k body) w)) k'))
  /\ (forall k id body k',
        ids_in_order (db (snd (hono (update_route E k id body) w)) k'))
  /\ (forall k id k', ids_in_order (db (snd (hono (delete_route E k id) w)) k')).
Proof.
  intros Hw. split; [| split].
  - intros k body k'.
    destruct (create_cases E k body w)
      as [(answer & wc & -> & _ & Hfs & Hdb)
         | (values & wc & message & failure & (Hfs & Hdb) & _ & ->)].
    { cbn. by rewrite Hdb. }
    destruct (Db.run E _ wc) as [[result|e] w'] eqn:Hrun; cbn.
    + apply run_insert in Hrun as (r & -> & Hrow & _ & Hrows & Hnext & Hother).
      apply insert_row_id in Hrow as [Hid _]. rewrite Hdb in *.
      destruct (decide (k' = k)) as [-> | Hk]; [| by rewrite Hother].
      by eapply ids_in_order_insert.
    + apply run_failure in Hrun as ->. cbn. by rewrite Hdb.
  - intros k id body k'.
    destruct (update_cases E k id body w)
      as [(answer & wc & -> & _ & Hfs & Hdb)
         | (set & wc & message & failure & (Hfs & Hdb) & _ & Hset & ->)].
    { cbn. by rewrite Hdb. }
    destruct (Db.run E _ wc) as [[result|e] w'] eqn:Hrun.
    + apply run_update in Hrun
        as (z & changes & _ & Hchanges & _ & _ & _ & Hrows & Hnext & _ & Hother).
      pose proof (bind_set_lookup _ _ _ _ Hchanges Hset) as Hkeep.
      rewrite Hdb in *.
      assert (ids_in_order (db w' k')) as Hgoal.
      { destruct (decide (k' = k)) as [-> | Hk]; [| by rewrite Hother].
        by eapply ids_in_order_update. }
      by destruct result.
    + apply run_failure in Hrun as ->. cbn. by rewrite Hdb.
  - intros k id k'.
    destruct (delete_cases E k id w) as (message & failure & _ & ->).
    destruct (accepted_id _); [| exact (Hw k')].
    destruct (Db.run E _ w) as [[result|e] w'] eqn:Hrun.
    + apply run_delete in Hrun as (z & _ & _ & _ & Hrows & Hnext & _ & Hother).
      assert (ids_in_order (db w' k')) as Hgoal.
      { destruct (decide (k' = k)) as [-> | Hk]; [| by rewrite Hother].
        by eapply ids_in_order_delete. }
      by destruct result.
    + apply run_failure in Hrun as ->. exact (Hw k').
Qed.

Lemma writes_keep_ids_in_order_witness : ids_in_order (db deed_created Work).
Proof.
  apply (proj1 (writes_keep_ids_in_order sample_env deed_world
                  ltac:(intros k; repeat split; [cbn; lia | constructor | constructor]))
           Work work_deed Work).
Defined.

(** X8. A record created in a table whose ids are in order is read back
    by a Get of its id: the answer is 200 with the record the Create
    returned (when the store accepts the select statement). *)
Theorem created_record_is_read_back (E : env) (k : kind) (body : json) (id : string)
    (w w' : world) (message : string) (r : row) (z : Z) :
  ids_in_order (db w k) ->
  hono (create_route E k body) w = (c_json (Json_message message (Some r)) 201, w') ->
  id_of r = Some z ->
  Db.pg_int4 (JS.Number_of_string id) = Some z ->
  sql_fails E (SelectById k (JS.Number_of_string id)) = false ->
  hono (get_route E k id) w' =
    (c_json (Json_datum (Some r)) 200,
     log (Sql (SelectById k (JS.Number_of_string id))) w').
Proof.
  intros Hw.
  destruct (create_cases E k body w)
    as [(answer0 & wc & -> & Hs & _)
       | (values & wc & message' & failure & (Hfs & Hdb) & Hf & ->)].
  { intros [= -> ->]. by destruct Hs. }
  destruct (Db.run E _ wc) as [[result|e] w1] eqn:Hrun; cycle 1.
  { intros [= -> ->]. by destruct Hf. }
  apply run_insert in Hrun as (r' & -> & Hrow & _ & Hrows & _).
  intros [= -> -> ->].
  apply insert_row_id in Hrow as [Hid _]. rewrite Hdb in *.
  rewrite Hid. intros [= <-] Hz Hok.
  destruct (get_cases E k id w') as (failure' & _ & ->).
  rewrite (integer_accepted _ _ Hz) by (destruct Hw; lia).
  unfold Db.run. rewrite Hok, Hz. autorewrite with world. rewrite Hrows.
  rewrite filter_one; [done | | by apply has_id_spec | done].
  apply Forall_forall. intros r0 Hr0. by apply ids_below.
Qed.

Lemma created_record_is_read_back_witness :
  hono (get_route sample_env Work "1") deed_created =
    (c_json (Json_datum (Some deed_row)) 200,
     log (Sql (SelectById Work (JS.Number_of_string "1"))) deed_created).
Proof.
  apply (created_record_is_read_back sample_env Work work_deed "1" deed_world
           deed_created "Work created successfully" deed_row 1).
  - repeat split; [cbn; lia | constructor | constructor].
  - vm_compute. reflexivity.
  - reflexivity.
  - reflexivity.
  - reflexivity.
Defined.

(** ** The schemas of the payloads *)

(** Where a schema gives a value or nothing, its optional version gives
    the same. *)
Lemma parse_optional (f : string -> string -> bool) (s : Zod.schema) (i : option json) :
  Zod.parse f s i <> Zod.Invalid ->
  Zod.parse f (Zod.optional s) i = Zod.parse f s i.
Proof.
  intros Hvalid. cbn [Zod.parse].
  destruct (Zod.optin s) eqn:Hoptin; [done |].
  destruct i as [v|]; [done |].
  destruct s; try done; by destruct Hvalid.
Qed.

Lemma parse_shape_partial (f : string -> string -> bool)
    (sh : list (string * Zod.schema)) (input out : gmap string json) :
  Zod.parse_shape f sh input = Some out ->
  Zod.parse_shape f (map (fun p => (fst p, Zod.optional (snd p))) sh) input = Some out.
Proof.
  revert out. induction sh as [|[k s] sh IH]; intros out; [done |].
  cbn [map fst snd Zod.parse_shape].
  destruct (Zod.parse f s (input !! k)) eqn:Hs; [done | |];
    (destruct (Zod.parse_shape f sh input) as [out'|]; [| done]);
    rewrite parse_optional, Hs by (by rewrite Hs);
    rewrite (IH out') by done; done.
Qed.

Lemma omit_partial (keys : list string) (o : Zod.object) :
  Zod.shape (Zod.omit keys (Zod.partial o)) =
    map (fun p => (fst p, Zod.optional (snd p))) (Zod.shape (Zod.omit keys o)).
Proof.
  cbn [Zod.omit Zod.partial Zod.shape].
  induction (Zod.shape o) as [|[k s] sh IH]; [done |].
  cbn [map]. rewrite !filter_cons. cbn [fst].
  case_decide; cbn [map]; by rewrite IH.
Qed.

Lemma partial_widens (f : string -> string -> bool) (keys : list string)
    (o : Zod.object) (body : json) (data : gmap string json) :
  Zod.parse_object f (Zod.omit keys o) body = Some data ->
  Zod.parse_object f (Zod.omit keys (Zod.partial o)) body = Some data.
Proof.
  unfold Zod.parse_object. destruct body as [| | | | |kvs]; try done.
  unfold Zod.unrecognized. rewrite omit_partial, map_map. cbn [fst].
  change (Zod.strict (Zod.omit keys (Zod.partial o))) with (Zod.strict (Zod.omit keys o)).
  destruct (Zod.strict _ && negb _)%bool; [done |].
  apply parse_shape_partial.
Qed.

(** X9. The schema of an Update only widens the schema of the Create of
    its kind: a payload the Create schema accepts is accepted by the
    Update schema, with the same validated data. *)
Theorem update_schema_accepts_create_payload (f : string -> string -> bool)
    (k : kind) (body : json) (data : gmap string json) :
  Zod.parse_object f (CreateSchema k) body = Some data ->
  Zod.parse_object f (UpdateSchema k) body = Some data.
Proof.
  destruct k; apply partial_widens.
Qed.

Lemma update_schema_accepts_create_payload_witness :
  Zod.parse_object (format_ok sample_env) (UpdateSchema Work) work_deed =
    Some {[ "title" := JStr "Deed"; "image" := JStr "deed.jpg" ]}.
Proof.
  apply (update_schema_accepts_create_payload (format_ok sample_env) Work work_deed).
  vm_compute. reflexivity.
Defined.

Lemma members_lookup (kvs : list (string * json)) (k : string) :
  k ∈ map fst kvs -> is_Some (members kvs !! k).
Proof.
  intros Hk. unfold members. apply not_eq_None_Some. intros Hnone.
  apply not_elem_of_list_to_map in Hnone. apply Hnone.
  apply list_elem_of_fmap in Hk as (p & -> & Hp).
  apply list_elem_of_fmap. exists p. split; [done |].
  apply list_elem_of_In, (proj1 (in_rev kvs p)). by apply list_elem_of_In.
Qed.

(** A strict object rejects an input with a member outside its shape. *)
Lemma strict_rejects (f : string -> string -> bool) (o : Zod.object)
    (kvs : list (string * json)) (key : string) :
  Zod.strict o = true ->
  key ∈ map fst kvs ->
  key ∉ map fst (Zod.shape o) ->
  Zod.parse_object f o (JObj kvs) = None.
Proof.
  intros Hstrict Hkey Hout. unfold Zod.parse_object. rewrite Hstrict.
  rewrite bool_decide_eq_false_2; [done |].
  destruct (members_lookup _ _ Hkey) as [v Hv].
  intros Hnone.
  assert (key ∈ Zod.unrecognized o (members kvs)) as Hin.
  { unfold Zod.unrecognized. apply list_elem_of_filter. split; [done |].
    apply list_elem_of_fmap. exists (key, v). split; [done |].
    by apply elem_of_map_to_list. }
  rewrite Hnone in Hin. by apply elem_of_nil in Hin.
Qed.

Lemma schemas_are_strict (k : kind) :
  Zod.strict (CreateSchema k) = true /\ Zod.strict (UpdateSchema k) = true
  /\ map fst (Zod.shape (CreateSchema k)) = recognized k.
Proof. by destruct k. Qed.

(** X10. The payload schemas are strict: a Create or an Update whose
    payload has a member that is not a field of the kind (an [id], for
    one) is answered with the validator's 400 and leaves the world as it
    was, and so is a contact-form request with a member other than its
    four fields. *)
Theorem unknown_member_is_rejected (E : env) (w : world) (kvs : list (string * json))
    (key : string) :
  key ∈ map fst kvs ->
  (forall k,
     key ∉ recognized k ->
     hono (create_route E k (JObj kvs)) w = (c_json Json_issues 400, w)
     /\ forall id, hono (update_route E k id (JObj kvs)) w = (c_json Json_issues 400, w))
  /\ (key ∉ ["firstname"; "lastname"; "email"; "message"] ->
      hono (email_post E (JObj kvs)) w = (c_json Json_issues 400, w)).
Proof.
  intros Hkey. split.
  - intros k Hout. destruct (schemas_are_strict k) as (Hc & Hu & Hshape). split.
    + assert (Zod.parse_object (format_ok E) (CreateSchema k) (JObj kvs) = None) as Hparse
        by (apply (strict_rejects _ _ _ key); [done | done | by rewrite Hshape]).
      destruct k; cbn [create_route CreateSchema] in *;
        unfold carouselImages_post, testimonials_post, promotionalOffers_post,
          attorneys_post, works_post, offers_post, blogs_post, zValidator;
        by rewrite Hparse.
    + intros id.
      assert (Zod.parse_object (format_ok E) (UpdateSchema k) (JObj kvs) = None) as Hparse
        by (by apply (strict_rejects _ _ _ key)).
      destruct k; cbn [update_route UpdateSchema] in *;
        unfold carouselImages_patch, testimonials_patch, promotionalOffers_patch,
          attorneys_patch, works_patch, offers_patch, blogs_patch;
        rewrite zValidator_id; (destruct (accepted_id _); [| done]);
        unfold zValidator; by rewrite Hparse.
  - intros Hout. unfold email_post, zValidator.
    by rewrite (strict_rejects _ _ _ key).
Qed.

Lemma unknown_member_is_rejected_witness :
  hono (create_route sample_env Work
          (JObj [("id", JNum (JS.Fin 7)); ("title", JStr "Deed");
                 ("image", JStr "deed.jpg")])) deed_world
  = (c_json Json_issues 400, deed_world).
Proof.
  apply (proj1 (unknown_member_is_rejected sample_env deed_world
                  [("id", JNum (JS.Fin 7)); ("title", JStr "Deed");
                   ("image", JStr "deed.jpg")] "id"
                  ltac:(by apply (bool_decide_unpack _)))
           Work ltac:(by apply (bool_decide_unpack _))).
Defined.

(** ** More on uploads *)


(** When the loop over a list of entries ends in success, so did the loop
    over every initial part of the list. *)
Lemma upload_loop_split (E : env) (pre rest : list File.t)
    (acc entries : list processed) (message : string) (w w' : world) :
  upload_loop E (pre ++ rest) acc w = (Ok (c_json (Json_files message entries) 201), w') ->
  exists stored w1,
    upload_loop E pre acc w =
      (Ok (c_json (Json_files "Files uploaded and processed successfully" stored) 201), w1)
    /\ upload_loop E rest stored w1 = (Ok (c_json (Json_files message entries) 201), w').
Proof.
  revert acc w. induction pre as [|file pre IH]; intros acc w.
  - cbn. intros H. by exists acc, w.
  - cbn [upload_loop app].
    destruct (negb _ && negb _)%bool; [unfold ret; intros [=] |].
    destruct (File.size file >? _); [unfold ret; intros [=] |].
    unfold bind, try_catch.
    destruct (store_file E file _ w) as [[entry|e] w0]; unfold ret;
      [apply IH | intros [=]].
Qed.

Lemma write_then_stat (p : string) (data : Buffer) (w w' : world) :
  Fs.writeFile p data w = (Ok tt, w') ->
  w' = set_fs (<[ p := File data ]> (fs w)) (log (FsWriteFile p) w)
  /\ Fs.resolve (fs w') p = Some (File data).
Proof.
  unfold Fs.writeFile. autorewrite with world.
  destruct (Fs.resolve (fs w) p) as [[content|]|] eqn:Hres; try done;
    (destruct (Fs.ends_with_sep p) eqn:Hsep; [done |]);
    intros [= <-]; (split; [done |]);
    unfold Fs.resolve; rewrite Hsep; autorewrite with world;
    by rewrite lookup_insert_eq.
Qed.

(** Storing one entry that passes the checks: the file written, the
    entry reported, the world afterwards. *)
Lemma store_video (E : env) (file : File.t) (w w' : world) (entry : processed) :
  store_file E file false w = (Ok entry, w') ->
  entry = {| processed_name := "video.mp4"; processed_size := File.size file;
             processed_type := "video/mp4" |}
  /\ Fs.resolve (fs w') (getSingleVideoPath E) = Some (File (File.arrayBuffer file))
  /\ db w' = db w.
Proof.
  unfold store_file, processVideo, bind at 1.
  destruct (Fs.writeFile _ _ w) as [[[]|e] w0] eqn:Hwrite; [| done].
  apply write_then_stat in Hwrite as [-> Hres].
  unfold bind, Fs.stat_size, ret. autorewrite with world in *. rewrite Hres.
  by intros [= <- <-].
Qed.

Lemma store_image (E : env) (file : File.t) (w w' : world) (entry : processed) :
  store_file E file true w = (Ok entry, w') ->
  exists encoded,
    sharp_jpeg E 80 (File.arrayBuffer file) = Some encoded
    /\ entry = {| processed_name :=
                    pretty (Date_now E (draws w)) +:+ "-" +:+
                    Math_random_base36 E (draws w) +:+
                    JS.toLowerCase (unicode_lower E) (Path.extname (File.name file));
                  processed_size := Z.of_nat (length encoded);
                  processed_type := "image/jpeg" |}
    /\ Fs.resolve (fs w') (Path.join (filesDir E) (processed_name entry))
       = Some (File encoded)
    /\ db w' = db w.
Proof.
  unfold store_file, generateSanitizedFilename, sharp_jpeg_toFile, bind at 1.
  destruct (sharp_jpeg E 80 _) as [encoded|]; [| done].
  unfold bind at 1.
  destruct (Fs.writeFile _ _ (tick w)) as [[[]|e] w0] eqn:Hwrite; [| done].
  apply write_then_stat in Hwrite as [-> Hres].
  unfold bind, Fs.stat_size, ret. autorewrite with world in *. rewrite Hres.
  intros [= <- <-]. by exists encoded.
Qed.

(** The one entry left of the loop. *)
Lemma upload_loop_last (E : env) (file : File.t) (stored entries : list processed)
    (message : string) (w w' : world) :
  upload_loop E [file] stored w = (Ok (c_json (Json_files message entries) 201), w') ->
  exists entry,
    store_file E file (JS.startsWith (File.type file) "image/") w = (Ok entry, w')
    /\ entries = (stored ++ [entry])%list
    /\ invalid_type file = false /\ too_large file = false.
Proof.
  cbn [upload_loop]. unfold invalid_type, too_large.
  destruct (negb _ && negb _)%bool; [unfold ret; intros [=] |].
  rewrite Z.gtb_ltb.
  destruct (JS.startsWith (File.type file) "image/");
    (destruct (_ <? File.size file); [unfold ret; intros [=] |]);
    unfold bind, try_catch;
    (destruct (store_file E file _ w) as [[entry|e] w0]; unfold ret; [| intros [=]]);
    cbn [upload_loop]; unfold ret; intros [= <- <- <-]; by exists entry.
Qed.





(** X13. When the encoder refuses an image that passed the checks, the
    upload is answered with 500 and "Failed to process file" followed by
    the name of the image, and nothing is written for it; the entries
    stored before it stay stored and are not reported. *)
Theorem refused_image_is_reported (E : env) (formData : list (string * form_value))
    (pre post : list File.t) (image : File.t) (stored : list processed)
    (w w1 : world) :
  collect_files formData = (pre ++ image :: post)%list ->
  upload_loop E pre [] w =
    (Ok (c_json (Json_files "Files uploaded and processed successfully" stored) 201),
     w1) ->
  JS.startsWith (File.type image) "image/" = true ->
  File.size image <= 50 * 1024 * 1024 ->
  sharp_jpeg E 80 (File.arrayBuffer image) = None ->
  hono (files_post E formData) w =
    (c_json (Json_error ("Failed to process file " +:+ File.name image)) 500, tick w1).
Proof.
  intros Hfiles Hpre Himage Hsize Hencoder.
  unfold hono, files_post. rewrite Hfiles.
  rewrite (upload_loop_app _ _ _ _ _ _ _ _ Hpre).
  cbn [upload_loop]. rewrite Himage. cbn [negb andb].
  rewrite Z.gtb_ltb, (proj2 (Z.ltb_ge _ _)) by done.
  unfold store_file, generateSanitizedFilename, sharp_jpeg_toFile.
  rewrite Hencoder. reflexivity.
Qed.

Lemma refused_image_is_reported_witness :
  hono (files_post no_encoder [("files", Many [FormFile clip_mp4; FormFile photo_png])])
       (initial_world no_encoder) =
    (c_json (Json_error ("Failed to process file " +:+ File.name photo_png)) 500,
     tick (snd (hono (files_post no_encoder [("file", Single (FormFile clip_mp4))])
                  (initial_world no_encoder)))).
Proof.
  eapply (refused_image_is_reported no_encoder _ [clip_mp4] [] photo_png).
  - reflexivity.
  - vm_compute. reflexivity.
  - reflexivity.
  - vm_compute. discriminate.
  - reflexivity.
Defined.

Lemma upload_loop_reports (E : env) (files : list File.t) (acc entries : list processed)
    (message : string) (w w1 : world) :
  upload_loop E files acc w = (Ok (c_json (Json_files message entries) 201), w1) ->
  exists new,
    entries = (acc ++ new)%list
    /\ Forall2 (reported E) files new
    /\ Forall (fun file => invalid_type file = false /\ too_large file = false) files.
Proof.
  revert acc w. induction files as [|file files IH]; intros acc w.
  - cbn. unfold ret. intros [= <- <- <-]. exists []. by rewrite app_nil_r.
  - intros Hloop.
    apply (upload_loop_split E [file] files) in Hloop as (stored & w0 & Hfile & Hrest).
    apply upload_loop_last in Hfile as (entry & Hstore & -> & Hvalid).
    apply IH in Hrest as (new & -> & Hnew & Hall).
    exists (entry :: new). rewrite <- app_assoc. split; [done |].
    split; [| by constructor].
    constructor; [| done]. unfold reported.
    destruct (JS.startsWith (File.type file) "image/").
    + apply store_image in Hstore as (encoded & Hencoded & -> & _).
      by exists encoded.
    + by apply store_video in Hstore as (-> & _).
Qed.

(** *** The files an upload takes *)

Lemma elem_of_insert_by_index {A} (x y : Z * A) (l : list (Z * A)) :
  x ∈ insert_by_index y l <-> x = y \/ x ∈ l.
Proof.
  induction l as [|a l IH]; cbn.
  - rewrite list_elem_of_singleton, elem_of_nil. tauto.
  - destruct (fst y <=? fst a).
    + by rewrite elem_of_cons.
    + rewrite !elem_of_cons, IH. tauto.
Qed.

Lemma elem_of_sort_by_index {A} (x : Z * A) (l : list (Z * A)) :
  x ∈ sort_by_index l <-> x ∈ l.
Proof.
  induction l as [|a l IH]; [done |]. cbn [sort_by_index foldr].
  fold (sort_by_index l). by rewrite elem_of_insert_by_index, elem_of_cons, IH.
Qed.

(** Every name of the request is visited. *)
Lemma elem_of_names_in_order (request : list (string * form_item)) (key : string) :
  key ∈ names_in_order request <-> key ∈ field_names request.
Proof.
  unfold names_in_order. rewrite elem_of_app, list_elem_of_fmap, list_elem_of_filter.
  split.
  - intros [([i key'] & -> & Hin) | [_ Hin]]; [| done].
    apply (proj1 (elem_of_sort_by_index _ _)) in Hin.
    apply list_elem_of_omap in Hin as (key'' & Hin & Hi).
    destruct (array_index key''); [| done]. cbn in Hi. by injection Hi as _ <-.
  - intros Hin. destruct (array_index key) as [i|] eqn:Hi; [left | by right].
    exists (i, key). split; [done |].
    apply elem_of_sort_by_index, list_elem_of_omap. exists key. by rewrite Hi.
Qed.

Lemma elem_of_values_under (request : list (string * form_item)) (key : string)
    (v : form_item) :
  v ∈ values_under key request <-> (key, v) ∈ request.
Proof.
  unfold values_under. rewrite list_elem_of_omap. split.
  - intros ([k v'] & Hin & Hv). cbn in Hv.
    destruct (String.eqb k key) eqn:Hk; [| done].
    apply String.eqb_eq in Hk. by simplify_eq.
  - intros Hin. exists (key, v). cbn. by rewrite String.eqb_refl.
Qed.

Lemma elem_of_files_of (values : list form_item) (f : File.t) :
  f ∈ files_of values <-> FormFile f ∈ values.
Proof.
  unfold files_of. rewrite list_elem_of_omap. split.
  - intros ([s|f'] & Hin & Hf); [done |]. by simplify_eq.
  - intros Hin. by exists (FormFile f).
Qed.

(** The files taken are the files sent under the names whose first value
    is a file. *)
Lemma elem_of_processing_order (request : list (string * form_item)) (f : File.t) :
  f ∈ processing_order request
  <-> exists key, (key, FormFile f) ∈ request
                  /\ from_option is_file false (head (values_under key request)) = true.
Proof.
  unfold processing_order. rewrite list_elem_of_In, in_concat. split.
  - intros (l & Hl%list_elem_of_In & Hf%list_elem_of_In).
    apply list_elem_of_fmap in Hl as (key & -> & _). exists key.
    unfold collected_under in Hf.
    destruct (from_option is_file false _); [| by apply elem_of_nil in Hf].
    split; [| done]. by apply elem_of_values_under, elem_of_files_of.
  - intros (key & Hin & Hfirst). exists (collected_under key request). split.
    + apply list_elem_of_In, list_elem_of_fmap. exists key. split; [done |].
      apply elem_of_names_in_order, field_names_spec.
      apply elem_of_values_under in Hin. by destruct (values_under key request).
    + apply list_elem_of_In. unfold collected_under. rewrite Hfirst.
      by apply elem_of_files_of, elem_of_values_under.
Qed.

(** X14. An upload answered with 201 reports the files of the request in
    the processing order, one entry for each: name by name (array indices
    first, then the names in the order of their first occurrence), under
    a name in the order sent. An image is reported as JPEG with the size
    of the encoder's output, a video as [video.mp4] with its own size.
    Every file reported passed the type and size checks. The files
    reported are the files sent under a name whose first value is a
    file: the files of a name whose first value is a text are left out. *)
Theorem upload_reports_every_file (E : env) (request : list (string * form_item))
    (w w1 : world) (message : string) (entries : list processed) :
  hono (files_post E (Object_entries (parseBody request))) w
    = (c_json (Json_files message entries) 201, w1) ->
  Forall2 (reported E) (processing_order request) entries
  /\ Forall (fun file => invalid_type file = false /\ too_large file = false)
       (processing_order request)
  /\ (forall f,
        f ∈ processing_order request
        <-> exists key,
              (key, FormFile f) ∈ request
              /\ from_option is_file false (head (values_under key request)) = true).
Proof.
  unfold hono, files_post. rewrite upload_order.
  destruct (upload_loop E _ [] w) as [[answer|e] w'] eqn:Hloop; intros [= -> ->].
  apply upload_loop_reports in Hloop as (new & -> & Hnew & Hall).
  repeat split; try done; by apply elem_of_processing_order.
Qed.

Lemma upload_reports_every_file_witness :
  processing_order noted_request = [photo_png; clip_mp4]
  /\ Forall2 (reported sample_env)
       (processing_order noted_request)
       [ {| processed_name := "1700000000000-k3j9x2ab.png"; processed_size := 7;
            processed_type := "image/jpeg" |};
         {| processed_name := "video.mp4"; processed_size := 4;
            processed_type := "video/mp4" |} ]
  /\ Forall (fun file => invalid_type file = false /\ too_large file = false)
       (processing_order noted_request).
Proof.
  split; [vm_compute; reflexivity |].
  refine (let H := upload_reports_every_file sample_env noted_request
                     (initial_world sample_env) _ _ _ _ in
          conj (proj1 H) (proj1 (proj2 H))).
  vm_compute. reflexivity.
Defined.

(** ** Paths below the blob directory *)

Lemma list_ascii_app (a b : string) :
  String.list_ascii_of_string (a +:+ b) =
    (String.list_ascii_of_string a ++ String.list_ascii_of_string b)%list.
Proof. induction a as [|c a IH]; [done |]. rewrite append_cons. cbn. by rewrite IH. Qed.

Lemma string_of_app (a b : list ascii) :
  String.string_of_list_ascii (a ++ b) =
    String.string_of_list_ascii a +:+ String.string_of_list_ascii b.
Proof. induction a as [|c a IH]; [done |]. cbn. by rewrite append_cons, IH. Qed.

Lemma split_plain (b : list ascii) :
  Forall (fun c => Path.is_sep c = false) b -> Path.split b = [b].
Proof.
  induction 1 as [|c b Hc _ IH]; [done |]. cbn [Path.split]. by rewrite Hc, IH.
Qed.

Lemma split_snoc (a b : list ascii) :
  Forall (fun c => Path.is_sep c = false) b ->
  Path.split (a ++ "/"%char :: b) = (Path.split a ++ [b])%list.
Proof.
  intros Hb. induction a as [|c a IH].
  - cbn. by rewrite split_plain.
  - cbn [app Path.split]. rewrite IH. destruct (Path.is_sep c); [done |].
    destruct (Path.split a) as [|seg segs] eqn:Hsplit; [| done].
    by destruct a as [|c' a]; cbn in Hsplit; repeat case_match.
Qed.

Lemma normalize_segments_snoc (allowAbove : bool) (stack segs : list (list ascii))
    (b : list ascii) :
  b <> [] -> b <> Path.dot -> b <> Path.dotdot ->
  Path.normalize_segments allowAbove stack (segs ++ [b]) =
    (Path.normalize_segments allowAbove stack segs ++ [b])%list.
Proof.
  intros Hb Hdot Hdotdot. revert stack.
  induction segs as [|seg segs IH]; intros stack.
  - cbn. rewrite bool_decide_eq_false_2 by (by intros [|]).
    by rewrite bool_decide_eq_false_2.
  - cbn [app Path.normalize_segments].
    repeat case_match; apply IH.
Qed.

Lemma unsplit_snoc (segs : list (list ascii)) (b : list ascii) :
  Path.unsplit (segs ++ [b]) =
    match segs with
    | [] => b
    | _ => (Path.unsplit segs ++ "/"%char :: b)%list
    end.
Proof.
  induction segs as [|seg segs IH]; [done |].
  destruct segs as [|seg' segs]; [done |].
  change (Path.unsplit ((seg :: seg' :: segs) ++ [b]))
    with (seg ++ "/"%char :: Path.unsplit ((seg' :: segs) ++ [b]))%list.
  rewrite IH.
  change (Path.unsplit (seg :: seg' :: segs))
    with (seg ++ "/"%char :: Path.unsplit (seg' :: segs))%list.
  by rewrite <- app_assoc.
Qed.

Lemma last_snoc_cons {A} (l : list A) (x : A) (k : list A) :
  last (l ++ x :: k) = last (x :: k).
Proof.
  induction l as [|y l IH]; [done |].
  cbn [app]. rewrite <- IH. by destruct (l ++ x :: k)%list eqn:H; [destruct l |].
Qed.

(** A name of one path segment, neither empty nor [.] nor [..], joined
    to a directory: the result is a text that depends on the directory
    only, followed by the name. *)
Lemma join_name (a : string) :
  a <> "" ->
  exists dir, forall b,
    Forall (fun c => Path.is_sep c = false) (String.list_ascii_of_string b) ->
    b <> "" -> b <> "." -> b <> ".." ->
    Path.join a b = dir +:+ b.
Proof.
  intros Ha. destruct a as [|c a]; [done |].
  set (segs := Path.normalize_segments (negb (Path.is_sep c)) []
                 (Path.split (String.list_ascii_of_string (String c a)))).
  exists (String.string_of_list_ascii
            ((if Path.is_sep c then ["/"%char] else []) ++
             match segs with
             | [] => []
             | _ => Path.unsplit segs ++ ["/"%char]
             end)).
  intros b Hplain Hb Hdot Hdotdot.
  assert (Path.join (String c a) b = Path.normalize (String c a +:+ "/" +:+ b)) as ->
    by (by destruct b).
  unfold Path.normalize. rewrite !list_ascii_app.
  set (lb := String.list_ascii_of_string b) in *.
  assert (String.string_of_list_ascii lb = b) as Hlb
    by apply String.string_of_list_ascii_of_string.
  assert (lb <> []) as Hne by (subst lb; by destruct b).
  clearbody lb.
  assert (lb <> Path.dot) as Hd.
  { intros Heq. apply Hdot. by rewrite <- Hlb, Heq. }
  assert (lb <> Path.dotdot) as Hdd.
  { intros Heq. apply Hdotdot. by rewrite <- Hlb, Heq. }
  cbn [String.list_ascii_of_string app].
  change (c :: (String.list_ascii_of_string a ++ "/"%char :: lb))%list
    with (String.list_ascii_of_string (String c a) ++ "/"%char :: lb)%list.
  rewrite last_snoc_cons, split_snoc, normalize_segments_snoc, unsplit_snoc by done.
  fold segs.
  assert (from_option Path.is_sep false (last ("/"%char :: lb)) = false) as ->.
  { clear Hlb Hd Hdd. destruct lb as [|x lb' _] using rev_ind; [done |].
    rewrite app_comm_cons, last_snoc. cbn.
    apply Forall_app in Hplain as [_ Hx]. by inversion Hx. }
  rewrite app_nil_r.
  destruct segs as [|seg segs'].
  - destruct lb as [|x lb']; [done |]. rewrite app_nil_r, string_of_app. by rewrite Hlb.
  - set (body := Path.unsplit (seg :: segs')).
    destruct (body ++ "/"%char :: lb)%list as [|x rest] eqn:Hbody.
    { by destruct body. }
    rewrite <- Hbody, <- Hlb, <- string_of_app. f_equal.
    by rewrite <- !app_assoc.
Qed.

Lemma filesDir_nonempty (E : env) : filesDir E <> "".
Proof.
  unfold filesDir. destruct (homedir E) as [|c h] eqn:Hhome; [by vm_compute |].
  destruct (join_name (String c h)) as [dir Hdir]; [done |].
  rewrite Hdir; [by destruct dir | by vm_compute; repeat constructor | done..].
Qed.

Lemma includes_no_separator (s : string) :
  JS.includes s "/" = false ->
  Forall (fun c => Path.is_sep c = false) (String.list_ascii_of_string s).
Proof.
  induction s as [|c s IH]; [constructor |].
  cbn [JS.includes String.prefix String.list_ascii_of_string].
  intros [Hc Hs]%orb_false_elim. constructor; [| by apply IH].
  unfold Path.is_sep. apply Ascii.eqb_neq. intros ->.
  destruct (ascii_dec "/" "/"); [by destruct s | done].
Qed.

(** X15. A request for a stored file touches one path only: there is a
    directory text, fixed by the blob directory, such that whatever name
    is requested (other than the empty name and [.]), every file-system
    access of the request is an existence check or a read of the path
    made of that text followed by the requested name; and a request that
    touches the file system at all has a name without [/] and [..]. *)
Theorem serve_stays_in_blob_directory (E : env) :
  exists dir, forall filename w,
    filename <> "" -> filename <> "." ->
    exists events,
      trace (snd (hono (files_get E filename) w)) = (trace w ++ events)%list
      /\ Forall (fun e => e = FsAccess (dir +:+ filename)
                          \/ e = FsReadFile (dir +:+ filename)) events
      /\ (events = [] \/
          JS.includes filename "/" = false /\ JS.includes filename ".." = false).
Proof.
  destruct (join_name (filesDir E) (filesDir_nonempty E)) as [dir Hdir].
  exists dir. intros filename w Hempty Hdot.
  assert (forall p,
            p = dir +:+ filename ->
            forall (type : string) (missing : string),
            exists events,
              trace (snd (hono
                (try_catch
                   (let* _ := Fs.access p in
                    let* fileBuffer := Fs.readFile p in
                    ret (c_body type fileBuffer))
                   (fun _ => ret (c_json (Json_error missing) 404))) w))
              = (trace w ++ events)%list
              /\ Forall (fun e => e = FsAccess (dir +:+ filename)
                                  \/ e = FsReadFile (dir +:+ filename)) events)
    as Hread.
  { intros p -> type missing. run.
    destruct (Fs.resolve (fs w) _) as [[content|]|] eqn:Hres; cbn beta iota;
      autorewrite with world; rewrite ?Hres; cbn [snd]; autorewrite with world.
    - exists [FsAccess (dir +:+ filename); FsReadFile (dir +:+ filename)].
      rewrite <- app_assoc. split; [done |].
      repeat (constructor; [first [by left | by right] |]); constructor.
    - exists [FsAccess (dir +:+ filename); FsReadFile (dir +:+ filename)].
      rewrite <- app_assoc. split; [done |].
      repeat (constructor; [first [by left | by right] |]); constructor.
    - exists [FsAccess (dir +:+ filename)]. split; [done |].
      repeat (constructor; [first [by left | by right] |]); constructor. }
  unfold files_get. case_bool_decide as Hvideo.
  - subst filename.
    destruct (Hread (getSingleVideoPath E)) with (type := "video/mp4")
      (missing := "Video file not found") as (events & Htrace & Hevents).
    { unfold getSingleVideoPath.
      apply Hdir; [by vm_compute; repeat constructor | done..]. }
    exists events. split; [done |]. split; [done |]. by right.
  - destruct (JS.includes filename "..") eqn:Hdots; cbn [orb].
    { exists []. rewrite app_nil_r. split; [done |]. split; [done | by left]. }
    destruct (JS.includes filename "/") eqn:Hslash; cbn [orb].
    { exists []. rewrite app_nil_r. split; [done |]. split; [done | by left]. }
    destruct (JS.includes filename "\"); cbn [orb].
    { exists []. rewrite app_nil_r. split; [done |]. split; [done | by left]. }
    destruct (Hread (Path.join (filesDir E) filename))
      with (type := contentType_of (JS.toLowerCase (unicode_lower E) (Path.extname filename)))
           (missing := "File not found") as (events & Htrace & Hevents).
    { apply Hdir; [by apply includes_no_separator | done | done |].
      intros ->. by vm_compute in Hdots. }
    exists events. split; [done |]. split; [done |]. by right.
Qed.

Lemma serve_stays_in_blob_directory_witness :
  exists dir events,
    trace (snd (hono (files_get sample_env "deed.jpg") deed_world))
      = (trace deed_world ++ events)%list
    /\ Forall (fun e => e = FsAccess (dir +:+ "deed.jpg")
                        \/ e = FsReadFile (dir +:+ "deed.jpg")) events
    /\ (events = [] \/
        JS.includes "deed.jpg" "/" = false /\ JS.includes "deed.jpg" ".." = false).
Proof.
  destruct (serve_stays_in_blob_directory sample_env) as [dir Hdir].
  exists dir. by apply Hdir.
Defined.

(** ** The markup of the mail *)

Lemma includes_no_char (s : string) (c : ascii) :
  JS.includes s (String c "") = false ->
  Forall (fun x => Ascii.eqb x c = false) (String.list_ascii_of_string s).
Proof.
  induction s as [|x s IH]; [constructor |].
  cbn [JS.includes String.prefix String.list_ascii_of_string].
  intros [Hx Hs]%orb_false_elim. constructor; [| by apply IH].
  apply Ascii.eqb_neq. intros ->.
  destruct (ascii_dec c c); [by destruct s | done].
Qed.

Lemma split_at_found (p : ascii -> bool) (a b : list ascii) (c : ascii) :
  Forall (fun x => p x = false) a -> p c = true ->
  JS.split_at p (a ++ c :: b) = (a, Some b).
Proof.
  intros Ha Hc. induction Ha as [|x a Hx _ IH]; cbn; [by rewrite Hc |].
  by rewrite Hx, IH.
Qed.

Lemma split_at_skip (p : ascii -> bool) (a b : list ascii) (c : ascii) :
  Forall (fun x => p x = false) a -> p c = false ->
  fst (JS.split_at p (a ++ c :: b)) = (a ++ c :: fst (JS.split_at p b))%list.
Proof.
  intros Ha Hc. induction Ha as [|x a Hx _ IH]; cbn.
  - rewrite Hc. by destruct (JS.split_at p b).
  - rewrite Hx. destruct (JS.split_at p (a ++ c :: b)). cbn in *. by rewrite IH.
Qed.

(** For a sender whose names contain no [<] and whose address is not
    empty and contains neither [<] nor [>], the address taken out of
    "firstname lastname <address>" is the sender's address. *)
Lemma reply_address_of_sender (firstname lastname address : string) :
  JS.includes firstname "<" = false ->
  JS.includes lastname "<" = false ->
  JS.includes address "<" = false ->
  JS.includes address ">" = false ->
  address <> "" ->
  reply_address (firstname +:+ " " +:+ lastname +:+ " <" +:+ address +:+ ">") = address.
Proof.
  intros Hf%includes_no_char Hl%includes_no_char Ha%includes_no_char
    Hb%includes_no_char Hne.
  unfold reply_address. rewrite !list_ascii_app.
  set (lf := String.list_ascii_of_string firstname) in *.
  set (ll := String.list_ascii_of_string lastname) in *.
  set (la := String.list_ascii_of_string address) in *.
  assert (String.string_of_list_ascii la = address) as Hla
    by apply String.string_of_list_ascii_of_string.
  assert (la <> []) as Hla' by (subst la; by destruct address).
  clearbody lf ll la.
  change (lf ++ String.list_ascii_of_string " " ++ ll ++
          String.list_ascii_of_string " <" ++ la ++ String.list_ascii_of_string ">")%list
    with (lf ++ " "%char :: ll ++ " "%char :: "<"%char :: la ++ [">"%char])%list.
  replace (lf ++ " "%char :: ll ++ " "%char :: "<"%char :: la ++ [">"%char])%list
    with ((lf ++ " "%char :: ll ++ [" "%char]) ++ "<"%char :: la ++ [">"%char])%list
    by (by rewrite <- !app_assoc; cbn; rewrite <- !app_assoc).
  rewrite split_at_found; [| | done].
  2: { apply Forall_app. split; [done |]. constructor; [done |].
       apply Forall_app. split; [done |]. by constructor. }
  rewrite split_at_skip by done. cbn [JS.split_at fst].
  rewrite split_at_found by done. cbn [fst].
  by destruct la.
Qed.

Lemma replace_newlines_app (a b : string) :
  replace_newlines (a +:+ b) = replace_newlines a +:+ replace_newlines b.
Proof.
  induction a as [|c a IH]; [done |]. rewrite append_cons. cbn [replace_newlines].
  rewrite IH. destruct (Ascii.eqb c _); [| by rewrite append_cons].
  by rewrite !append_cons.
Qed.

(** The text inserted for a message has no line feed. *)
Lemma replace_newlines_no_feed (message : string) :
  JS.includes (replace_newlines message) LF = false.
Proof.
  induction message as [|c s IH]; [done |]. cbn [replace_newlines].
  destruct (Ascii.eqb c (ascii_of_nat 10)) eqn:Hc.
  - rewrite !append_cons. cbn [JS.includes String.prefix]. cbn. exact IH.
  - cbn [JS.includes String.prefix]. rewrite IH, orb_false_r. unfold LF.
    cbn [String.prefix]. destruct (ascii_dec (ascii_of_nat 10) c) as [<- |]; [| done].
    by rewrite Ascii.eqb_refl in Hc.
Qed.

(** A message without line feeds is inserted as it is. *)
Lemma replace_newlines_plain (message : string) :
  JS.includes message LF = false -> replace_newlines message = message.
Proof.
  induction message as [|c s IH]; [done |].
  unfold LF. cbn [JS.includes String.prefix replace_newlines].
  intros [Hc Hs]%orb_false_elim.
  destruct (Ascii.eqb_spec c (ascii_of_nat 10)) as [-> |].
  - destruct (ascii_dec (ascii_of_nat 10) (ascii_of_nat 10)); [by destruct s | done].
  - by rewrite IH.
Qed.

(** ** The configuration *)

Lemma parseInt_empty (radix : Z) : JS.parseInt "" radix = JS.NaN.
Proof.
  unfold JS.parseInt. cbn. case_bool_decide; [done |].
  by rewrite andb_false_r.
Qed.

Lemma text_nonempty (f : string -> string -> bool) (v : option string) (x : string) :
  Config.text f (Zod.string_min 1) v = Some x -> v = Some x /\ x <> "".
Proof.
  unfold Config.text. destruct v as [s|]; cbn; [| done].
  destruct s; cbn; [done |]. by intros [= <-].
Qed.

Lemma or_else_nonempty (x d : string) : x <> "" -> Config.or_else (Some x) d = x.
Proof. by destruct x. Qed.

Lemma port_number_spec (v : option json) (n : JS.number) :
  Config.port_number v = Some n ->
  v = Some (JNum n) /\ exists p, JS.to_integer n = Some p /\ 1 <= p <= 65535.
Proof.
  unfold Config.port_number. destruct v as [[| |m| | |]|]; try done.
  destruct (JS.to_integer m) as [z|] eqn:Hz; [| done].
  destruct (_ && _)%bool eqn:Hrange; [| done]. intros [= <-].
  split; [done |]. exists z. split; [done |]. lia.
Qed.

Lemma preprocess_number (val : option string) (n : JS.number) :
  Config.preprocess val = Some (JNum n) ->
  exists s, val = Some s /\ s <> "" /\ JS.parseInt s 10 = n.
Proof.
  unfold Config.preprocess. destruct val as [s|]; [| done].
  destruct (JS.parseInt s 10) eqn:Hparse; try done; intros [= <-];
    exists s; (split; [done |]); (split; [| done]);
    intros ->; by rewrite parseInt_empty in Hparse.
Qed.

Lemma secure_flag_spec (f : string -> string -> bool) (v : option string) (b : bool) :
  Config.secure_flag f v = Some b -> b = bool_decide (v = Some "true").
Proof.
  unfold Config.secure_flag. destruct v as [s|]; cbn.
  - intros [= <-]. apply bool_decide_ext. split; congruence.
  - by intros [= <-].
Qed.

Ltac fields H :=
  repeat match type of H with
    | (?m ≫= _) = Some _ =>
        let x := fresh "field" in
        let Hx := fresh "H" x in
        destruct m as [x|] eqn:Hx; [cbn [mbind option_bind] in H | done]
    end.

(** What an accepted environment says of each field. *)
Lemma EnvSchema_parse_fields (f : string -> string -> bool) (env : Config.variables)
    (config : Config.EnvConfig) :
  Config.EnvSchema_parse f env = Some config ->
  Config.text f (Zod.string_min 1) (env !! "DATABASE_URL")
    = Some (Config.DATABASE_URL config)
  /\ Config.text f (Zod.string_min 1) (env !! "SMTP_HOST") = Some (Config.SMTP_HOST config)
  /\ Config.port_number (Config.preprocess (env !! "SMTP_PORT"))
     = Some (Config.SMTP_PORT config)
  /\ Config.secure_flag f (env !! "SMTP_SECURE") = Some (Config.SMTP_SECURE config)
  /\ Config.text f (Zod.string_min 1) (env !! "SMTP_USER") = Some (Config.SMTP_USER config)
  /\ Config.text f (Zod.string_min 1) (env !! "SMTP_PASS") = Some (Config.SMTP_PASS config)
  /\ Config.optional_text f (Zod.string_format "email") (env !! "EMAIL_FROM")
     = Some (Config.EMAIL_FROM config).
Proof.
  unfold Config.EnvSchema_parse. intros H. fields H. by injection H as <-.
Qed.

(** The fields [validateEnvVars] leaves as the schema gave them. *)
Lemma validateEnvVars_fields (f : string -> string -> bool) (env : Config.variables)
    (config : Config.EnvConfig) :
  Config.validateEnvVars f env = Some config ->
  exists parsed,
    Config.EnvSchema_parse f env = Some parsed
    /\ Config.DATABASE_URL config = Config.DATABASE_URL parsed
    /\ Config.SMTP_HOST config = Config.SMTP_HOST parsed
    /\ Config.SMTP_PORT config = Config.SMTP_PORT parsed
    /\ Config.SMTP_SECURE config = Config.SMTP_SECURE parsed
    /\ Config.SMTP_USER config = Config.SMTP_USER parsed
    /\ Config.SMTP_PASS config = Config.SMTP_PASS parsed
    /\ Config.EMAIL_FROM config =
         match Config.EMAIL_FROM parsed with
         | None | Some EmptyString => Some (Config.SMTP_USER parsed)
         | Some sender => Some sender
         end.
Proof.
  unfold Config.validateEnvVars.
  destruct (Config.EnvSchema_parse f env) as [parsed|]; [| done].
  cbn. intros [= <-]. exists parsed. split; [done |].
  destruct parsed as [? ? ? ? ? ? [[|c sender]|] ? ?]; cbn; done.
Qed.

(** X18. A configuration that passes [validateEnvVars] is complete: the
    port is an integer from 1 to 65535, the database address, the mail
    host and the credentials are not empty, and there is a sender address
    that is not empty, which is the mail user when [EMAIL_FROM] is not
    set. *)
Theorem validated_configuration_is_complete (f : string -> string -> bool)
    (env : Config.variables) (config : Config.EnvConfig) :
  Config.validateEnvVars f env = Some config ->
  (exists p, JS.to_integer (Config.SMTP_PORT config) = Some p /\ 1 <= p <= 65535)
  /\ Config.DATABASE_URL config <> "" /\ Config.SMTP_HOST config <> ""
  /\ Config.SMTP_USER config <> "" /\ Config.SMTP_PASS config <> ""
  /\ (exists sender, Config.EMAIL_FROM config = Some sender /\ sender <> "")
  /\ (env !! "EMAIL_FROM" = None ->
      Config.EMAIL_FROM config = Some (Config.SMTP_USER config)).
Proof.
  intros (parsed & Hparsed & -> & -> & -> & _ & -> & -> & ->)%validateEnvVars_fields.
  apply EnvSchema_parse_fields in Hparsed
    as (Hurl & Hhost & Hport & _ & Huser & Hpass & Hfrom).
  apply text_nonempty in Hurl as [_ Hurl], Hhost as [_ Hhost], Huser as [_ Huser],
    Hpass as [_ Hpass].
  apply port_number_spec in Hport as [_ Hport].
  repeat split; try done.
  - destruct (Config.EMAIL_FROM parsed) as [[|c sender]|]; eauto.
  - intros Hnone. rewrite Hnone in Hfrom. by injection Hfrom as <-.
Qed.

Lemma validated_configuration_is_complete_witness :
  exists config,
    Config.validateEnvVars (format_ok sample_env) sample_variables = Some config
    /\ (exists p, JS.to_integer (Config.SMTP_PORT config) = Some p /\ 1 <= p <= 65535)
    /\ Config.DATABASE_URL config <> "" /\ Config.SMTP_HOST config <> ""
    /\ Config.SMTP_USER config <> "" /\ Config.SMTP_PASS config <> ""
    /\ (exists sender, Config.EMAIL_FROM config = Some sender /\ sender <> "")
    /\ (sample_variables !! "EMAIL_FROM" = None ->
        Config.EMAIL_FROM config = Some (Config.SMTP_USER config)).
Proof.
  eexists. split; [vm_compute; reflexivity |].
  apply (validated_configuration_is_complete (format_ok sample_env) sample_variables).
  vm_compute. reflexivity.
Defined.

(** X19. The mail transport is set up from the variables the validation
    accepted: when [validateEnvVars] passes, the host, port, security
    flag and credentials [createTransporter] reads from the environment
    are those of the validated configuration; none of its fallbacks is
    used. *)
Theorem transport_uses_validated_settings (f : string -> string -> bool)
    (env : Config.variables) (config : Config.EnvConfig) :
  Config.validateEnvVars f env = Some config ->
  Config.createTransporter env =
    {| Config.host := Config.SMTP_HOST config;
       Config.port := Config.SMTP_PORT config;
       Config.secure := Config.SMTP_SECURE config;
       Config.auth_user := Config.SMTP_USER config;
       Config.auth_pass := Config.SMTP_PASS config |}.
Proof.
  intros (parsed & Hparsed & _ & -> & -> & -> & -> & -> & _)%validateEnvVars_fields.
  apply EnvSchema_parse_fields in Hparsed
    as (_ & Hhost & Hport & Hsecure & Huser & Hpass & _).
  apply text_nonempty in Hhost as [Hhost Hhost'], Huser as [Huser Huser'],
    Hpass as [Hpass Hpass'].
  apply port_number_spec in Hport as [Hport _].
  apply preprocess_number in Hport as (s & Hs & Hs' & Hparse).
  apply secure_flag_spec in Hsecure.
  unfold Config.createTransporter.
  rewrite Hhost, Hs, Huser, Hpass, !or_else_nonempty by done.
  by rewrite Hparse, Hsecure.
Qed.

Lemma transport_uses_validated_settings_witness :
  Config.createTransporter sample_variables =
    {| Config.host := "smtp.example.com"; Config.port := JS.Fin 587;
       Config.secure := false; Config.auth_user := "mailer";
       Config.auth_pass := "secret" |}.
Proof.
  apply (transport_uses_validated_settings (format_ok sample_env) sample_variables
           {| Config.DATABASE_URL := "postgres://localhost/app";
              Config.SMTP_HOST := "smtp.example.com"; Config.SMTP_PORT := JS.Fin 587;
              Config.SMTP_SECURE := false; Config.SMTP_USER := "mailer";
              Config.SMTP_PASS := "secret"; Config.EMAIL_FROM := Some "mailer";
              Config.EMAIL_TO := "office@example.com";
              Config.EMAIL_TO_OVERRIDE := None |}).
  vm_compute. reflexivity.
Defined.

Lemma decimal_digit_value (c : ascii) :
  decimal_digit c = true -> exists v, JS.radix_digit c = Some v /\ 0 <= v < 10.
Proof.
  unfold decimal_digit, JS.radix_digit. intros Hc. rewrite Hc.
  apply andb_true_iff in Hc as [Hlo Hhi].
  apply Nat.leb_le in Hlo, Hhi. eexists. split; [done |]. lia.
Qed.

Lemma decimal_digit_none (c : ascii) :
  decimal_digit c = false ->
  match JS.radix_digit c with Some v => v <? 10 | None => false end = false.
Proof.
  unfold decimal_digit, JS.radix_digit. cbv zeta. intros ->.
  destruct ((97 <=? _)%nat && _)%bool eqn:Hlower.
  { apply andb_true_iff in Hlower as [Hlo _]. apply Nat.leb_le in Hlo.
    apply Z.ltb_ge. lia. }
  destruct ((65 <=? _)%nat && _)%bool eqn:Hupper; [| done].
  apply andb_true_iff in Hupper as [Hlo _]. apply Nat.leb_le in Hlo.
  apply Z.ltb_ge. lia.
Qed.

Lemma leading_digits_app (acc : option Z) (ds rest : list ascii) :
  Forall (fun c => decimal_digit c = true) ds ->
  from_option decimal_digit false (head rest) = false ->
  JS.leading_digits 10 acc (ds ++ rest) = JS.leading_digits 10 acc ds.
Proof.
  intros Hds Hrest. revert acc. induction Hds as [|c ds Hc _ IH]; intros acc.
  - destruct rest as [|c rest]; [done |]. cbn in *.
    apply decimal_digit_none in Hrest.
    destruct (JS.radix_digit c) as [v|]; [| done]. by rewrite Hrest.
  - cbn [app JS.leading_digits].
    destruct (decimal_digit_value c Hc) as (v & -> & Hv).
    rewrite (proj2 (Z.ltb_lt _ _)) by lia. apply IH.
Qed.

(** A text that starts with a digit has no white space or sign to skip. *)
Lemma digit_first (c : ascii) (l : list ascii) :
  decimal_digit c = true ->
  JS.strip_sign (JS.trim_start (c :: l)) = (false, c :: l).
Proof.
  intros Hc. destruct c as [[] [] [] [] [] [] [] []]; by vm_compute in Hc.
Qed.

Lemma parseInt_digits (s : string) (c : ascii) (l : list ascii) :
  String.list_ascii_of_string s = c :: l ->
  decimal_digit c = true ->
  JS.parseInt s 10 =
    match JS.leading_digits 10 None (c :: l) with
    | None => JS.NaN
    | Some v => JS.round (inject_Z v)
    end.
Proof.
  intros Hs Hc. unfold JS.parseInt. rewrite Hs, (digit_first c l Hc).
  rewrite bool_decide_eq_false_2 by lia.
  rewrite (bool_decide_eq_false_2 (10 = 0 \/ 10 = 16)) by lia.
  reflexivity.
Qed.

(** [parseInt] stops at the first character that is not a digit. *)
Lemma parseInt_stops (digits rest : string) :
  digits <> "" ->
  Forall (fun c => decimal_digit c = true) (String.list_ascii_of_string digits) ->
  from_option decimal_digit false (head (String.list_ascii_of_string rest)) = false ->
  JS.parseInt (digits +:+ rest) 10 = JS.parseInt digits 10.
Proof.
  intros Hne Hdigits Hrest.
  destruct (String.list_ascii_of_string digits) as [|c ds] eqn:Hlist.
  { by destruct digits. }
  pose proof Hdigits as [Hc _]%Forall_cons.
  rewrite (parseInt_digits digits c ds) by done.
  rewrite (parseInt_digits _ c (ds ++ String.list_ascii_of_string rest))
    by (by rewrite ?list_ascii_app, ?Hlist).
  change (c :: ds ++ String.list_ascii_of_string rest)%list
    with ((c :: ds) ++ String.list_ascii_of_string rest)%list.
  by rewrite leading_digits_app.
Qed.

(** X20. The port is read as far as its digits go: a value of
    [SMTP_PORT] that continues after its digits with a character that is
    not a digit is validated exactly as the digits alone. *)
Theorem port_is_read_up_to_its_digits (f : string -> string -> bool)
    (env : Config.variables) (digits rest : string) :
  digits <> "" ->
  Forall (fun c => decimal_digit c = true) (String.list_ascii_of_string digits) ->
  from_option decimal_digit false (head (String.list_ascii_of_string rest)) = false ->
  Config.validateEnvVars f (<[ "SMTP_PORT" := digits +:+ rest ]> env) =
    Config.validateEnvVars f (<[ "SMTP_PORT" := digits ]> env).
Proof.
  intros Hne Hdigits Hrest.
  unfold Config.validateEnvVars, Config.EnvSchema_parse.
  rewrite !lookup_insert_eq, !lookup_insert_ne by done.
  assert (Config.port_number (Config.preprocess (Some (digits +:+ rest))) =
          Config.port_number (Config.preprocess (Some digits))) as ->; [| done].
  unfold Config.preprocess. rewrite parseInt_stops by done.
  by destruct (JS.parseInt digits 10).
Qed.

Lemma port_is_read_up_to_its_digits_witness :
  Config.validateEnvVars (format_ok sample_env)
    (<[ "SMTP_PORT" := "587" +:+ " # submission" ]> sample_variables) =
  Config.validateEnvVars (format_ok sample_env)
    (<[ "SMTP_PORT" := "587" ]> sample_variables).
Proof.
  apply (port_is_read_up_to_its_digits (format_ok sample_env) sample_variables
           "587" " # submission"); [done | by repeat constructor | done].
Defined.

(** ** Records and files *)

(** The store does not look at the files. *)
Lemma run_set_fs (E : env) (q : statement) (f : gmap string node) (w : world) :
  Db.run E q (set_fs f w) =
    (fst (Db.run E q w), set_fs f (snd (Db.run E q w))).
Proof.
  unfold Db.run. destruct (sql_fails E q); [done |].
  destruct q; cbn;
    repeat match goal with
      | |- context [match ?x with _ => _ end] => destruct x; cbn
      end; reflexivity.
Qed.

(** X21. The testimonial and offer routes do not look at the blob
    directory: the answer to a Create or an Update of a testimonial or an
    offer is the same whatever files are stored; a testimonial is created
    whether its image exists or not. *)
Theorem testimonials_and_offers_ignore_files (E : env) (k : kind)
    (f : gmap string node) (w : world) :
  k = Testimonial \/ k = Offer ->
  (forall body,
     fst (hono (create_route E k body) (set_fs f w)) =
       fst (hono (create_route E k body) w))
  /\ (forall id body,
        fst (hono (update_route E k id body) (set_fs f w)) =
          fst (hono (update_route E k id body) w)).
Proof.
  intros [-> | ->]; (split; [intros body | intros id body]);
    cbn [create_route update_route];
    unfold testimonials_post, offers_post, testimonials_patch, offers_patch;
    rewrite ?zValidator_id; try (destruct (accepted_id _); [| done]);
    unfold zValidator; (destruct (Zod.parse_object _ _ _) as [data|]; [| done]);
    try (destruct (_ =? _)%nat; [done |]);
    unfold hono, try_catch, bind, ret; rewrite run_set_fs;
    destruct (Db.run E _ w) as [[[|r rs]|e] w']; reflexivity.
Qed.

Lemma testimonials_and_offers_ignore_files_witness :
  fst (hono (create_route sample_env Offer (JObj offer_1999)) deed_world) =
    fst (hono (create_route sample_env Offer (JObj offer_1999))
           (initial_world sample_env)).
Proof.
  apply (proj1 (testimonials_and_offers_ignore_files sample_env Offer
                  (fs deed_world) (initial_world sample_env) ltac:(by right))).
Defined.



(** ** Ids without a record, and a store that fails *)

(** X23. A Get or a Delete of an id that no record of the table has is
    answered with "not found" (when the store accepts the statement), and
    the Delete leaves every table as it was. *)
Theorem unknown_id_is_not_found (E : env) (k : kind) (id : string) (z : Z) (w : world) :
  Db.pg_int4 (JS.Number_of_string id) = Some z ->
  1 <= z ->
  Forall (fun r => id_of r <> Some z) (rows (db w k)) ->
  (forall q, sql_fails E q = false) ->
  fst (hono (get_route E k id) w) = not_found (label k)
  /\ fst (hono (delete_route E k id) w) = not_found (label k)
  /\ forall k', db (snd (hono (delete_route E k id) w)) k' = db w k'.
Proof.
  intros Hz Hpos Hnone Hok.
  assert (filter (fun r => Db.has_id z r) (rows (db w k)) = []) as Hfilter.
  { apply filter_none. eapply Forall_impl; [exact Hnone |].
    intros r Hr. by apply has_id_false. }
  pose proof (integer_accepted _ _ Hz Hpos) as Hid.
  split; [| split].
  - destruct (get_cases E k id w) as (failure & _ & ->). rewrite Hid.
    unfold Db.run. rewrite Hok, Hz. autorewrite with world. by rewrite Hfilter.
  - destruct (delete_cases E k id w) as (message & failure & _ & ->). rewrite Hid.
    unfold Db.run. rewrite Hok, Hz. autorewrite with world. by rewrite Hfilter.
  - intros k'.
    destruct (delete_cases E k id w) as (message & failure & _ & ->). rewrite Hid.
    unfold Db.run. rewrite Hok, Hz. autorewrite with world. rewrite Hfilter.
    cbn. case_decide as Hk; [subst k' | done].
    apply table_eq; [| done | done]. cbn. by apply filter_negb_all.
Qed.

Lemma unknown_id_is_not_found_witness :
  fst (hono (get_route sample_env Attorney "2") attorney_world)
    = not_found (label Attorney)
  /\ fst (hono (delete_route sample_env Attorney "2") attorney_world)
     = not_found (label Attorney)
  /\ forall k', db (snd (hono (delete_route sample_env Attorney "2") attorney_world)) k'
                = db attorney_world k'.
Proof.
  apply (unknown_id_is_not_found sample_env Attorney "2" 2 attorney_world);
    [reflexivity | lia | | done].
  repeat constructor. by vm_compute.
Defined.

(** X24. When the store rejects the statement of a Get, a List or a
    Delete, the answer is a 500 and no table changes. For carousel images
    and works, whose handlers do not catch the failure, it is the
    framework's plain-text "Internal Server Error"; for the other kinds it
    is a JSON error. *)
Theorem store_failure_is_a_500 (E : env) (k : kind) (id : string) (w : world) :
  accepted_id (JS.Number_of_string id) = true ->
  (forall q, sql_fails E q = true) ->
  let answers :=
    [ hono (get_route E k id) w; hono (list_route E k) w;
      hono (delete_route E k id) w ] in
  Forall (fun answer =>
            status (fst answer) = 500
            /\ db (snd answer) = db w
            /\ if bool_decide (k = CarouselImage \/ k = Work)
               then payload (fst answer) = Text "Internal Server Error"
               else exists message, payload (fst answer) = Json_error message)
    answers.
Proof.
  intros Hid Hfails answers. subst answers.
  assert (forall answer,
            answer ∈ [ hono (get_route E k id) w; hono (list_route E k) w;
                       hono (delete_route E k id) w ] ->
            status (fst answer) = 500
            /\ db (snd answer) = db w
            /\ if bool_decide (k = CarouselImage \/ k = Work)
               then payload (fst answer) = Text "Internal Server Error"
               else exists message, payload (fst answer) = Json_error message)
    as Hall; [| by apply Forall_forall].
  intros answer Hin.
  repeat (apply elem_of_cons in Hin as [-> | Hin]); [| | | by apply elem_of_nil in Hin];
    destruct k; cbn [get_route list_route delete_route];
    unfold carouselImages_get, testimonials_get, promotionalOffers_get,
      attorneys_get, works_get, offers_get, blogs_get,
      carouselImages_list, testimonials_list, promotionalOffers_list,
      attorneys_list, works_list, offers_list, blogs_list,
      carouselImages_delete, testimonials_delete, promotionalOffers_delete,
      attorneys_delete, works_delete, offers_delete, blogs_delete;
    rewrite ?zValidator_id, ?Hid;
    unfold hono, try_catch, bind, ret, Db.run; rewrite Hfails; cbn;
    (split; [done |]); (split; [done |]); try done; by eexists.
Qed.

Lemma store_failure_is_a_500_witness :
  Forall (fun answer =>
            status (fst answer) = 500
            /\ db (snd answer) = db attorney_world
            /\ if bool_decide (Work = CarouselImage \/ Work = Work)
               then payload (fst answer) = Text "Internal Server Error"
               else exists message, payload (fst answer) = Json_error message)
    [ hono (get_route broken_store Work "1") attorney_world;
      hono (list_route broken_store Work) attorney_world;
      hono (delete_route broken_store Work "1") attorney_world ].
Proof.
  apply (store_failure_is_a_500 broken_store Work "1" attorney_world); done.
Defined.

(** ** The order of the carousel *)

(** The record a Create of a carousel image inserts takes its [index]
    from the column's sequence. *)
Lemma insert_row_index (values : gmap string param) (t : table) (now : Z) (r : row) :
  values !! "index" = None ->
  Db.insert_row values t now carouselImagesTable = Some r ->
  Db.index_of r = next_index t.
Proof.
  intros Hvalues. unfold carouselImagesTable. cbn [Db.insert_row].
  destruct (Db.insert_column values t now (identity_col "id")) as [v1|]; [| done].
  destruct (Db.insert_column values t now (col "filename" (varchar 255) true)) as [v2|];
    [| done].
  destruct (Db.insert_column values t now (col "row" integer true)) as [v3|]; [| done].
  unfold Db.insert_column at 1. cbn [col_identity col_name col_type col]. rewrite Hvalues.
  destruct (next_index t <=? 32767); [| done]. cbn. intros [= <-].
  unfold Db.index_of. by map_lookups.
Qed.

(** In a sorted list, a record whose index is above all the others' is
    the last. *)
Lemma sorted_last (sorted others : list row) (r : row) :
  Sorted Db.index_le sorted ->
  sorted ≡ₚ (others ++ [r])%list ->
  Forall (fun r0 => Db.index_of r0 < Db.index_of r) others ->
  last sorted = Some r.
Proof.
  intros Hsorted Hperm Hbelow.
  assert (r ∈ sorted) as Hr by (rewrite Hperm; set_solver).
  apply list_elem_of_split in Hr as (before & after & ->).
  destruct after as [|r' after]; [by rewrite last_snoc |].
  exfalso.
  assert (r' ∈ others) as Hr'.
  { assert (before ++ r' :: after ≡ₚ others) as <-; [| set_solver].
    apply (Permutation_app_inv_r [r]). rewrite <- Hperm.
    by rewrite <- Permutation_cons_append, <- (Permutation_middle before (r' :: after) r). }
  rewrite Forall_forall in Hbelow. specialize (Hbelow r' Hr').
  assert (Transitive Db.index_le) as Htrans
    by (intros a b c; unfold Db.index_le; lia).
  apply Sorted_StronglySorted in Hsorted; [| exact Htrans].
  apply StronglySorted_app_1_r in Hsorted.
  apply StronglySorted_inv in Hsorted as [_ Hafter].
  apply Forall_cons in Hafter as [Hle _]. unfold Db.index_le in Hle. lia.
Qed.

(** X25. A new carousel image comes last in its row: when the stored
    images have indices below the next value of the index sequence, the
    record a Create returns is the last of the images listed for its row
    afterwards, which are sorted by index. *)
Theorem created_image_is_last_of_its_row (E : env) (body : json) (rowId : string)
    (w w' : world) (message : string) (r : row) (z : Z) :
  Forall (fun r0 => Db.index_of r0 < next_index (db w CarouselImage))
    (rows (db w CarouselImage)) ->
  hono (carouselImages_post E body) w =
    (c_json (Json_message message (Some r)) 201, w') ->
  r !! "row" = Some (DInt z) ->
  Db.pg_int4 (JS.Number_of_string rowId) = Some z ->
  1 <= z ->
  sql_fails E (SelectByRowOrderByIndex (JS.Number_of_string rowId)) = false ->
  exists images,
    fst (hono (carouselImages_get_row E rowId) w') = c_json (Json_data images) 200
    /\ Sorted Db.index_le images
    /\ last images = Some r.
Proof.
  intros Hbelow Hpost Hrow Hz Hpos Hok.
  assert (rows (db w' CarouselImage) = (rows (db w CarouselImage) ++ [r])%list
          /\ Db.index_of r = next_index (db w CarouselImage)) as [Hrows Hindex].
  { revert Hpost. unfold carouselImages_post, zValidator.
    destruct (Zod.parse_object _ _ _) as [data|]; [| by intros [=]].
    unfold hono, bind, try_catch, ret. checks E; try (by intros [=]).
    destruct (Db.run E _ _) as [[result|e] w1] eqn:Hrun; [| by intros [=]].
    apply run_insert in Hrun as (r' & -> & Hinsert & _ & Hrows & _).
    intros [= _ -> ->]. autorewrite with world in *. split; [done |].
    eapply insert_row_index; [| exact Hinsert].
    apply object_of_lookup_None. by apply (bool_decide_unpack _). }
  exists (merge_sort Db.index_le
            (filter (fun r0 => Db.has_row z r0) (rows (db w' CarouselImage)))).
  split; [| split].
  - unfold carouselImages_get_row, zValidator.
    rewrite rowId_param_parse, (integer_accepted _ _ Hz Hpos).
    rewrite lookup_singleton_eq. cbn [number_of].
    unfold hono, bind, ret, Db.run. rewrite Hok, Hz. reflexivity.
  - apply (Sorted_merge_sort _).
  - apply (sorted_last _ (filter (fun r0 => Db.has_row z r0) (rows (db w CarouselImage)))).
    + apply (Sorted_merge_sort _).
    + rewrite merge_sort_Permutation, Hrows, filter_app, filter_cons.
      rewrite decide_True by (by apply Is_true_true, has_row_spec). done.
    + apply Forall_forall. intros r0 Hr0. apply list_elem_of_filter in Hr0 as [_ Hr0].
      rewrite Forall_forall in Hbelow. rewrite Hindex. by apply Hbelow.
Qed.

Lemma created_image_is_last_of_its_row_witness :
  exists images,
    fst (hono (carouselImages_get_row sample_env "2")
           (snd (hono (carouselImages_post sample_env carousel_deed) carousel_with_deed)))
      = c_json (Json_data images) 200
    /\ Sorted Db.index_le images
    /\ last images =
         Some {[ "id" := DInt 4; "filename" := DText "deed.jpg"; "row" := DInt 2;
                 "index" := DInt 31 ]}.
Proof.
  apply (created_image_is_last_of_its_row sample_env carousel_deed "2"
           carousel_with_deed _ "Carousel image created successfully" _ 2).
  - repeat constructor.
  - vm_compute. reflexivity.
  - reflexivity.
  - reflexivity.
  - lia.
  - reflexivity.
Defined.

(** ** The recipient of the mail *)

Lemma text_schema_value (f : string -> string -> bool) (s : Zod.schema)
    (i : option json) :
  (exists n, s = Zod.string_min n) \/ (exists fmt, s = Zod.string_format fmt) ->
  Zod.parse f s i = Zod.Invalid \/ exists x, Zod.parse f s i = Zod.Value (JStr x).
Proof.
  intros [[n ->] | [fmt ->]]; cbn; destruct i as [[| | |x| |]|]; auto;
    case_match; eauto.
Qed.

(** The validated payload of the contact form has its four texts. *)
Lemma email_payload (f : string -> string -> bool) (body : json)
    (data : gmap string json) :
  Zod.parse_object f EmailSendSchema body = Some data ->
  exists firstname lastname address message,
    data = {[ "firstname" := JStr firstname; "lastname" := JStr lastname;
              "email" := JStr address; "message" := JStr message ]}.
Proof.
  unfold Zod.parse_object. destruct body as [| | | | |kvs]; try done.
  destruct (_ && _)%bool; [done |].
  change (Zod.shape EmailSendSchema) with
    [("firstname", Zod.string_min 1); ("lastname", Zod.string_min 1);
     ("email", Zod.string_format "email"); ("message", Zod.string_min 1)].
  cbn [Zod.parse_shape].
  destruct (text_schema_value f (Zod.string_min 1) (members kvs !! "firstname"))
    as [-> | [firstname ->]]; [eauto | done |].
  destruct (text_schema_value f (Zod.string_min 1) (members kvs !! "lastname"))
    as [-> | [lastname ->]]; [eauto | done |].
  destruct (text_schema_value f (Zod.string_format "email") (members kvs !! "email"))
    as [-> | [address ->]]; [eauto | done |].
  destruct (text_schema_value f (Zod.string_min 1) (members kvs !! "message"))
    as [-> | [message ->]]; [eauto | done |].
  intros [= <-]. exists firstname, lastname, address, message.
  by rewrite insert_empty.
Qed.

(** X26. A contact-form request sends at most one mail, and only to the
    configured recipient: whatever the payload, the request adds nothing
    to the trace or one mail whose [to] is [EMAIL_TO] and whose [from] and
    text are the validated address and message; it changes no file and no
    table. *)
Theorem mail_goes_to_the_configured_recipient (E : env) (body : json) (w : world) :
  let w' := snd (hono (email_post E body) w) in
  same_store w w'
  /\ (trace w' = trace w
      \/ exists data mail,
           Zod.parse_object (format_ok E) EmailSendSchema body = Some data
           /\ trace w' = (trace w ++ [SendMail mail])%list
           /\ to mail = EMAIL_TO E
           /\ data !! "email" = Some (JStr (from mail))
           /\ data !! "message" = Some (JStr (text mail))).
Proof.
  unfold email_post, zValidator.
  destruct (Zod.parse_object _ _ _) as [data|] eqn:Hparse; [| by split; [| left]].
  destruct (email_payload _ _ _ Hparse) as (firstname & lastname & address & message & ->).
  map_lookups. cbn [interpolate].
  unfold hono, try_catch, bind, ret, sendEmail. cbn beta iota.
  destruct (sendMail_fails E _); cbn [snd]; (split; [done |]); right;
    eexists _, _; (split; [done |]); (split; [reflexivity |]);
    cbn [to from text]; by map_lookups.
Qed.

(** ** The markup of the mail sent *)

(** The mail a valid contact request sends. *)
Lemma email_post_sends (E : env) (body : json) (w : world)
    (firstname lastname address message : string) :
  Zod.parse_object (format_ok E) EmailSendSchema body
    = Some {[ "firstname" := JStr firstname; "lastname" := JStr lastname;
              "email" := JStr address; "message" := JStr message ]} ->
  let title := "New Contact Form Message from " +:+ firstname +:+ " " +:+ lastname in
  snd (hono (email_post E body) w)
  = log (SendMail
           {| from := address; to := EMAIL_TO E; subject := title; text := message;
              html := generateEmailTemplate
                        (firstname +:+ " " +:+ lastname +:+ " <" +:+ address +:+ ">")
                        title message |}) w.
Proof.
  intros Hparse title. unfold email_post, zValidator. rewrite Hparse.
  map_lookups. cbn [interpolate].
  unfold hono, try_catch, bind, ret, sendEmail. cbn beta iota. fold title.
  by destruct (sendMail_fails E _).
Qed.

(** X16. The reply link of the mail. A contact request that passes
    validation, with names that contain no [<] and an address that is not
    empty and contains neither [<] nor [>], sends a mail whose markup is
    the template of [generateEmailTemplate] with these texts inserted, in
    order: the subject, twice; the sender as "firstname lastname
    <address>"; the message; and, as the address of the reply link
    ([mailto:]), the sender's address. *)
Theorem reply_link_is_the_address (E : env) (body : json) (w : world)
    (firstname lastname address message : string) :
  Zod.parse_object (format_ok E) EmailSendSchema body
    = Some {[ "firstname" := JStr firstname; "lastname" := JStr lastname;
              "email" := JStr address; "message" := JStr message ]} ->
  JS.includes firstname "<" = false ->
  JS.includes lastname "<" = false ->
  JS.includes address "<" = false ->
  JS.includes address ">" = false ->
  address <> "" ->
  exists mail,
    trace (snd (hono (email_post E body) w)) = (trace w ++ [SendMail mail])%list
    /\ html mail
       = generateEmailTemplate
           (firstname +:+ " " +:+ lastname +:+ " <" +:+ address +:+ ">")
           (subject mail) message
    /\ html mail
       = [ Static 0; Inserted (subject mail);
           Static 1; Inserted (subject mail);
           Static 2;
           Inserted (firstname +:+ " " +:+ lastname +:+ " <" +:+ address +:+ ">");
           Static 3; Inserted (replace_newlines message);
           Static 4; Inserted address;
           Static 5 ].
Proof.
  intros Hparse Hf Hl Ha Hb Hne. eexists. split; [| split].
  - by rewrite (email_post_sends E body w firstname lastname address message).
  - reflexivity.
  - cbn [html subject]. unfold generateEmailTemplate.
    by rewrite reply_address_of_sender.
Qed.

Lemma reply_link_is_the_address_witness :
  exists mail,
    trace (snd (hono (email_post sample_env (JObj contact_ann)) (initial_world sample_env)))
      = (trace (initial_world sample_env) ++ [SendMail mail])%list
    /\ html mail
       = generateEmailTemplate ("Ann" +:+ " " +:+ "Lee" +:+ " <" +:+ "ann@example.com" +:+ ">")
           (subject mail) "<b>hello</b>"
    /\ html mail
       = [ Static 0; Inserted (subject mail);
           Static 1; Inserted (subject mail);
           Static 2;
           Inserted ("Ann" +:+ " " +:+ "Lee" +:+ " <" +:+ "ann@example.com" +:+ ">");
           Static 3; Inserted (replace_newlines "<b>hello</b>");
           Static 4; Inserted "ann@example.com";
           Static 5 ].
Proof.
  apply (reply_link_is_the_address sample_env (JObj contact_ann)
           (initial_world sample_env) "Ann" "Lee" "ann@example.com" "<b>hello</b>");
    [vm_compute; reflexivity | done ..].
Defined.

(** X17. The message is put into the markup of the mail unescaped. A
    contact request that passes validation sends a mail whose plain text
    is the message and whose markup has, after the fourth piece of the
    template, the message with its line feeds replaced by [<br>] and
    nothing else changed: the text inserted contains no line feed; a
    message without line feeds is inserted as it is, whatever markup it
    contains; and around a line feed the text inserted is the texts
    inserted for the two parts with [<br>] in between. *)
Theorem message_is_inserted_unescaped (E : env) (body : json) (w : world)
    (firstname lastname address message : string) :
  Zod.parse_object (format_ok E) EmailSendSchema body
    = Some {[ "firstname" := JStr firstname; "lastname" := JStr lastname;
              "email" := JStr address; "message" := JStr message ]} ->
  exists mail inserted,
    trace (snd (hono (email_post E body) w)) = (trace w ++ [SendMail mail])%list
    /\ text mail = message
    /\ html mail
       = generateEmailTemplate
           (firstname +:+ " " +:+ lastname +:+ " <" +:+ address +:+ ">")
           (subject mail) message
    /\ html mail !! 6%nat = Some (Static 3)
    /\ html mail !! 7%nat = Some (Inserted inserted)
    /\ inserted = replace_newlines message
    /\ JS.includes inserted LF = false
    /\ (JS.includes message LF = false -> inserted = message)
    /\ (forall a b, message = a +:+ LF +:+ b ->
                    inserted = replace_newlines a +:+ "<br>" +:+ replace_newlines b).
Proof.
  intros Hparse. eexists _, (replace_newlines message).
  split; [by rewrite (email_post_sends E body w firstname lastname address message) |].
  repeat split.
  - apply replace_newlines_no_feed.
  - apply replace_newlines_plain.
  - intros a b ->. by rewrite !replace_newlines_app.
Qed.

Lemma message_is_inserted_unescaped_witness :
  exists mail inserted,
    trace (snd (hono (email_post sample_env (JObj contact_ann)) (initial_world sample_env)))
      = (trace (initial_world sample_env) ++ [SendMail mail])%list
    /\ text mail = "<b>hello</b>"
    /\ html mail
       = generateEmailTemplate ("Ann" +:+ " " +:+ "Lee" +:+ " <" +:+ "ann@example.com" +:+ ">")
           (subject mail) "<b>hello</b>"
    /\ html mail !! 6%nat = Some (Static 3)
    /\ html mail !! 7%nat = Some (Inserted inserted)
    /\ inserted = replace_newlines "<b>hello</b>"
    /\ JS.includes inserted LF = false
    /\ (JS.includes "<b>hello</b>" LF = false -> inserted = "<b>hello</b>")
    /\ (forall a b, "<b>hello</b>" = a +:+ LF +:+ b ->
                    inserted = replace_newlines a +:+ "<br>" +:+ replace_newlines b).
Proof.
  apply (message_is_inserted_unescaped sample_env (JObj contact_ann)
           (initial_world sample_env) "Ann" "Lee" "ann@example.com" "<b>hello</b>").
  vm_compute. reflexivity.
Defined.

